(** * terminal-webcam: the capture-and-render pipeline

    A shallow embedding of the JavaScript sources

      - [src/webcam/ffmpeg-capture.js]  (class FFmpegCapture)
      - [src/webcam/capture.js]         (class WebcamCapture)
      - [src/webcam/hybrid-capture.js]  (class HybridCapture)
      - [src/webcam/config.js]
      - [src/renderer/converter.js]     (class ImageConverter)
      - [src/renderer/terminal.js]      (class TerminalRenderer)
      - the table of character sets     (characterSets, CharacterSetManager)
      - [src/utils/terminal-size.js]
      - [src/ui/controls.js]            (class Controls)
      - [src/ui/screen.js]              (class Screen, the batching of renders)
      - [src/index.js]                  (class TerminalWebcamApp)

    Every class becomes a module holding a record for the object's fields and
    one function per method.  Side effects (child processes, timers, console
    output, callbacks) are appended to an effect list carried by the object,
    so that "nothing happened" is an equation between states.  The wall clock
    is a function from the number of readings made so far to milliseconds. *)

From Stdlib Require Import ZArith QArith Qround Qpower Qabs Lqa.
From Stdlib Require Import String Ascii Strings.Byte Bool Arith Lia List.
From Stdlib Require Import DecimalString Floats Uint63.
Import ListNotations.

(** ** JavaScript values used by the pipeline *)

(** A Node.js [Buffer]: a sequence of bytes. *)
Definition bytes := list byte.

(** A JavaScript string: a sequence of UTF-16 code units. *)
Definition jsstring := list N.

Definition of_ascii (s : string) : jsstring :=
  map N_of_ascii (list_ascii_of_string s).

(** The code unit of the line feed, ['\n']. *)
Definition LF : N := 10%N.

(** The code unit of the space. *)
Definition SP : N := 32%N.

(** [s.repeat(n)] for a one-unit string. *)
Definition repeat_unit (c : N) (n : nat) : jsstring := repeat c n.

(** [s.repeat(count)] for a one-unit string and a count that is any
    integer: a negative count throws a RangeError, which is [None].  (The
    limit an engine puts on the length of a string is not modelled.) *)
Definition repeat_count (c : N) (count : Z) : option jsstring :=
  if (count <? 0)%Z then None else Some (repeat_unit c (Z.to_nat count)).

(** [parts.join(sep)] *)
Fixpoint join (sep : jsstring) (parts : list jsstring) : jsstring :=
  match parts with
  | [] => []
  | [p] => p
  | p :: rest => p ++ sep ++ join sep rest
  end.

(** [s.split('\n')]: the pieces between line feeds (always at least one). *)
Fixpoint split_lines (s : jsstring) : list jsstring :=
  match s with
  | [] => [[]]
  | c :: rest =>
      if N.eqb c LF then [] :: split_lines rest
      else match split_lines rest with
           | [] => [[c]]
           | l :: ls => (c :: l) :: ls
           end
  end.

(** The one-character string holding a double quote. *)
Definition dquote : string := String (ascii_of_nat 34) EmptyString.

(** Decimal rendering of a number inside a template literal. *)
Definition string_of_nat (n : nat) : string :=
  NilZero.string_of_uint (Nat.to_uint n).

(** ** IEEE 754 binary64 arithmetic on the values the pipeline computes

    A JavaScript number is a binary64 float.  A finite float is modelled by
    the rational it denotes, and every arithmetic operation rounds its exact
    result to the nearest float with 53 significant bits, ties to even.  The
    exponent range is not modelled: the quantities of this program (bytes,
    string lengths, millisecond counts) stay far inside it. *)
Module Binary64.

Local Open Scope Q_scope.

(** Nearest integer to [n/d], ties to the even one. *)
Definition rne_div (n : Z) (d : positive) : Z :=
  let q := (n / Zpos d)%Z in
  let r := (n mod Zpos d)%Z in
  match (2 * r ?= Zpos d)%Z with
  | Lt => q
  | Gt => (q + 1)%Z
  | Eq => if Z.even q then q else (q + 1)%Z
  end.

Definition rne (x : Q) : Z := rne_div (Qnum x) (Qden x).

Definition pow2 (e : Z) : Q := Qpower 2 e.

(** [floor (log2 x)] for [x > 0]. *)
Definition ilog2 (x : Q) : Z :=
  let l := (Z.log2 (Qnum x) - Z.log2 (Zpos (Qden x)))%Z in
  if Qle_bool (pow2 l) x then l else (l - 1)%Z.

(** Rounding of a positive rational to 53 significant bits. *)
Definition round_pos (x : Q) : Q :=
  let e := (ilog2 x - 52)%Z in
  Qred (inject_Z (rne (x / pow2 e)) * pow2 e).

(** Rounding to the nearest binary64 value. *)
Definition fl (x : Q) : Q :=
  match Qnum x with
  | Z0 => 0
  | Zpos _ => round_pos x
  | Zneg _ => - round_pos (- x)
  end.

Definition add (x y : Q) : Q := fl (x + y).
Definition sub (x y : Q) : Q := fl (x - y).
Definition mul (x y : Q) : Q := fl (x * y).
Definition div (x y : Q) : Q := fl (x / y).

(** [Math.floor] *)
Definition floor (x : Q) : Z := Qfloor x.

(** [Math.round]: nearest integer, ties towards plus infinity. *)
Definition round (x : Q) : Z := Qfloor (x + (1 # 2)).

(** The same expression on the kernel's hardware floats, for cross-checks
    of the rational model on concrete inputs. *)
Definition prim_of_Z (z : Z) : float := PrimFloat.of_uint63 (Uint63.of_Z z).

Definition prim_floor_nonneg (f : float) : Z :=
  match Prim2SF f with
  | SpecFloat.S754_finite false m e =>
      if (0 <=? e)%Z then Z.shiftl (Zpos m) e else Z.shiftr (Zpos m) (- e)
  | _ => 0%Z
  end.

End Binary64.

Open Scope nat_scope.

(** ** [src/webcam/ffmpeg-capture.js] *)
Module FFmpegCapture.

Inductive platform_t := darwin | linux | win32 | other_platform.

(** What the object does to the outside world. *)
Inductive effect :=
| SpawnCheck                                  (* spawn('ffmpeg', ['-version']) *)
| Spawn (pid : nat) (args : list string)      (* spawn('ffmpeg', args, ...) *)
| Kill (pid : nat).                           (* child.kill('SIGTERM') *)

Record t := mk {
  ffmpeg : option nat;
  isRunning : bool;
  width : nat;
  height : nat;
  bytesPerFrame : nat;
  currentBuffer : option bytes;
  frameTimestamp : Z;
  incompleteBuffer : bytes;
  platform : platform_t;
  framesReceived : nat;
  lastLogTime : Z;
  (* bookkeeping of the embedding *)
  clockReads : nat;          (* readings of Date.now() made so far *)
  effects : list effect      (* oldest first *)
}.

Section Methods.
(** [now k] is the value of the (k+1)-th reading of [Date.now()]. *)
Variable now : nat -> Z.

Definition new (p : platform_t) : t :=
  mk None false 600 150 0 None 0 [] p 0 (now 0) 1 [].

Definition _getFFmpegArgs (s : t) (w h : nat) : list string :=
  let outputArgs :=
    ["-vf"; "scale=" ++ string_of_nat w ++ ":" ++ string_of_nat h;
     "-pix_fmt"; "gray"; "-f"; "rawvideo"; "-"]%string in
  match platform s with
  | darwin =>
      ["-hwaccel"; "videotoolbox"; "-f"; "avfoundation"; "-framerate"; "30";
       "-video_size"; "1280x720"; "-i"; "0"]%string ++ outputArgs
  | linux =>
      ["-hwaccel"; "vaapi"; "-hwaccel_device"; "/dev/dri/renderD128";
       "-f"; "v4l2"; "-framerate"; "30"; "-video_size"; "1280x720";
       "-i"; "/dev/video0"]%string ++ outputArgs
  | win32 =>
      ["-hwaccel"; "dxva2"; "-f"; "dshow"; "-framerate"; "30";
       "-video_size"; "1280x720";
       "-i"; "video=" ++ dquote ++ "Integrated Camera" ++ dquote]%string
      ++ outputArgs
  | other_platform =>
      ["-f"; "v4l2"; "-framerate"; "30"; "-video_size"; "1280x720";
       "-i"; "/dev/video0"]%string ++ outputArgs
  end.

(** [initialize(width, height)]; [available] is the outcome of the
    [ffmpeg -version] probe. *)
Definition initialize (w h : nat) (available : bool) (s : t) : t * bool :=
  (mk (ffmpeg s) (isRunning s) w h (w * h) (currentBuffer s)
      (frameTimestamp s) (incompleteBuffer s) (platform s)
      (framesReceived s) (lastLogTime s) (clockReads s)
      (effects s ++ [SpawnCheck]),
   available).

Definition start (s : t) : t :=
  if isRunning s then s
  else
    let pid := length (effects s) in
    mk (Some pid) true (width s) (height s) (bytesPerFrame s)
       (currentBuffer s) (frameTimestamp s) (incompleteBuffer s)
       (platform s) (framesReceived s) (lastLogTime s) (clockReads s)
       (effects s ++ [Spawn pid (_getFFmpegArgs s (width s) (height s))]).

(** The handlers of the child's ['error'] and ['close'] events. *)
Definition on_error (s : t) : t :=
  mk (ffmpeg s) false (width s) (height s) (bytesPerFrame s)
     (currentBuffer s) (frameTimestamp s) (incompleteBuffer s)
     (platform s) (framesReceived s) (lastLogTime s) (clockReads s)
     (effects s).

Definition on_close (s : t) : t := on_error s.

(** One turn of the [while] loop of [_handleFrameData]: publish the first
    [bytesPerFrame] bytes, keep the rest. *)
Definition extractOne (s : t) : t * bytes :=
  let frame := firstn (bytesPerFrame s) (incompleteBuffer s) in
  let stamp := now (clockReads s) in
  let received := S (framesReceived s) in
  let rest := skipn (bytesPerFrame s) (incompleteBuffer s) in
  let now' := now (S (clockReads s)) in
  let reset := (now' - lastLogTime s >? 5000)%Z in
  (mk (ffmpeg s) (isRunning s) (width s) (height s) (bytesPerFrame s)
      (Some frame) stamp rest (platform s)
      (if reset then 0 else received)
      (if reset then now' else lastLogTime s)
      (S (S (clockReads s))) (effects s),
   frame).

(** The loop itself.  It does not end when [bytesPerFrame] is 0, so the
    embedding runs it on fuel: [None] is "still looping". The second
    component lists the frames published, oldest first. *)
Fixpoint extractFrames (fuel : nat) (s : t) : option (t * list bytes) :=
  if bytesPerFrame s <=? length (incompleteBuffer s) then
    match fuel with
    | O => None
    | S fuel' =>
        let (s1, frame) := extractOne s in
        match extractFrames fuel' s1 with
        | Some (s2, frames) => Some (s2, frame :: frames)
        | None => None
        end
    end
  else Some (s, []).

Definition append (chunk : bytes) (s : t) : t :=
  mk (ffmpeg s) (isRunning s) (width s) (height s) (bytesPerFrame s)
     (currentBuffer s) (frameTimestamp s) (incompleteBuffer s ++ chunk)
     (platform s) (framesReceived s) (lastLogTime s) (clockReads s)
     (effects s).

(** [_handleFrameData(chunk)].  One more unit of fuel than there are
    buffered bytes is enough whenever a frame is not empty. *)
Definition _handleFrameData (chunk : bytes) (s : t)
  : option (t * list bytes) :=
  let s0 := append chunk s in
  extractFrames (S (length (incompleteBuffer s0))) s0.

(** The stdout handler applied to the chunks of a stream, in order. *)
Fixpoint feed (chunks : list bytes) (s : t) : option (t * list bytes) :=
  match chunks with
  | [] => Some (s, [])
  | c :: rest =>
      match _handleFrameData c s with
      | None => None
      | Some (s1, fs1) =>
          match feed rest s1 with
          | None => None
          | Some (s2, fs2) => Some (s2, fs1 ++ fs2)
          end
      end
  end.

Definition getLatestFrame (s : t) : option bytes := currentBuffer s.

Definition getFrameTimestamp (s : t) : Z := frameTimestamp s.

Definition stop (s : t) : t :=
  if negb (isRunning s) then s
  else
    mk None false (width s) (height s) (bytesPerFrame s) None
       (frameTimestamp s) [] (platform s) (framesReceived s)
       (lastLogTime s) (clockReads s)
       (match ffmpeg s with
        | Some pid => effects s ++ [Kill pid]
        | None => effects s
        end).

Definition updateResolution (w h : nat) (s : t) : t :=
  if (w =? width s) && (h =? height s) then s
  else
    let s1 := stop s in
    let s2 :=
      mk (ffmpeg s1) (isRunning s1) w h (w * h) (currentBuffer s1)
         (frameTimestamp s1) (incompleteBuffer s1) (platform s1)
         (framesReceived s1) (lastLogTime s1) (clockReads s1)
         (effects s1) in
    start s2.

Definition cleanup (s : t) : t := stop s.

Definition isCapturing (s : t) : bool := isRunning s.

End Methods.

(** The [i]-th consecutive [n]-byte slice of a stream. *)
Definition nth_slice (n i : nat) (stream : bytes) : bytes :=
  firstn n (skipn (i * n) stream).

End FFmpegCapture.

(** *** Histories of a hardware source

    What can happen to an FFmpegCapture object, one call or child-process
    event at a time.  The handlers of ['error'] and ['close'] are not tied to
    the child they were registered on, so an event is not either. *)
Module FFmpegHistory.

Inductive event :=
| Initialize (w h : nat) (available : bool)
| Start
| Stop
| Data (chunk : bytes)
| Failed                       (* the 'error' event of a child *)
| Closed                       (* the 'close' event of a child *)
| UpdateResolution (w h : nat)
| Cleanup.

Section Run.
Variable now : nat -> Z.

Definition step (e : event) (s : FFmpegCapture.t) : option FFmpegCapture.t :=
  match e with
  | Initialize w h a => Some (fst (FFmpegCapture.initialize w h a s))
  | Start => Some (FFmpegCapture.start s)
  | Stop => Some (FFmpegCapture.stop s)
  | Data chunk => option_map fst (FFmpegCapture._handleFrameData now chunk s)
  | Failed => Some (FFmpegCapture.on_error s)
  | Closed => Some (FFmpegCapture.on_close s)
  | UpdateResolution w h => Some (FFmpegCapture.updateResolution w h s)
  | Cleanup => Some (FFmpegCapture.cleanup s)
  end.

(** [None]: a data handler of the history did not return. *)
Fixpoint run (evs : list event) (s : FFmpegCapture.t)
  : option FFmpegCapture.t :=
  match evs with
  | [] => Some s
  | e :: rest =>
      match step e s with
      | Some s1 => run rest s1
      | None => None
      end
  end.

End Run.

(** The children signalled, oldest first. *)
Definition killed (effects : list FFmpegCapture.effect) : list nat :=
  flat_map (fun e => match e with
                     | FFmpegCapture.Kill pid => [pid]
                     | _ => []
                     end) effects.

(** The children spawned, oldest first. *)
Definition spawned (effects : list FFmpegCapture.effect) : list nat :=
  flat_map (fun e => match e with
                     | FFmpegCapture.Spawn pid _ => [pid]
                     | _ => []
                     end) effects.

End FFmpegHistory.

(** ** [src/webcam/config.js] *)
Module Config.

Record t := mk {
  targetFPS : Z;
  width : Z;
  height : Z;
  quality : Z;
  output : string;
  device : option string;
  tmpFile : string
}.

Definition getOptimalCaptureResolution (terminalWidth terminalHeight : nat)
  : nat * nat :=
  let multiplier := 6 in
  let captureWidth := Nat.min (terminalWidth * multiplier) 1024 in
  let captureHeight := Nat.min (terminalHeight * multiplier) 576 in
  (captureWidth / 2 * 2, captureHeight / 2 * 2).

Definition createWebcamConfig (terminalWidth terminalHeight : nat) : t :=
  let (w, h) := getOptimalCaptureResolution terminalWidth terminalHeight in
  mk 20 (Z.of_nat w) (Z.of_nat h) 75 "jpeg" None "/tmp/webcam-frame.jpg".

(** The getter [delay]: [Math.floor(1000 / this.targetFPS)]. *)
Definition delay (c : t) : Z :=
  Binary64.floor (Binary64.div 1000%Q (inject_Z (targetFPS c))).

(** The default export, [createWebcamConfig()]. *)
Definition default : t := createWebcamConfig 100 25.

End Config.

(** ** [src/webcam/capture.js] *)
Module WebcamCapture.

(** The options handed to [NodeWebcam.create]. *)
Record opts := mkOpts {
  o_width : Z;
  o_height : Z;
  o_quality : Z;
  o_output : string;
  o_device : option string;
  o_callbackReturn : string;
  o_verbose : bool
}.

Inductive effect :=
| Create (o : opts)                    (* NodeWebcam.create(opts) *)
| ConsoleLog (w h : Z)                 (* [Webcam] Initialized at WxH *)
| LoopStarted                          (* this._runCaptureLoop() *)
| Capture (file : string)              (* this.webcam.capture(tmpFile, cb) *)
| ReadFile (file : string)             (* fs.readFile(tmpFile) *)
| ConsoleError (msg : string)          (* Continuous capture error: msg *)
| Unlink (file : string).              (* fs.unlink(tmpFile) *)

Record t := mk {
  webcam : option opts;
  isInitialized : bool;
  captureInProgress : bool;
  continuousMode : bool;
  captureLoopRunning : bool;
  lastFramePath : option string;
  lastFrameBuffer : option bytes;
  lastFrameTimestamp : Z;
  config : Config.t;
  (* bookkeeping of the embedding *)
  clockReads : nat;
  effects : list effect
}.

(** What one acquisition attempt of the loop runs into. *)
Inductive outcome :=
| CaptureFailed (msg : string)   (* the driver callback reports [err] *)
| ReadFailed (msg : string)      (* the capture worked, readFile rejects *)
| Acquired (data : bytes).       (* both worked *)

Definition failed (o : outcome) : bool :=
  match o with Acquired _ => false | _ => true end.

(** What else may run while the loop is suspended at an [await]. *)
Inductive call :=
| Iterate (o : outcome)
| CallStop
| CallUpdateResolution (w h : Z).

Section Methods.
Variable now : nat -> Z.

Definition new : t :=
  mk None false false false false None None 0 Config.default 0 [].

Definition set_config (c : Config.t) (s : t) : t :=
  mk (webcam s) (isInitialized s) (captureInProgress s) (continuousMode s)
     (captureLoopRunning s) (lastFramePath s) (lastFrameBuffer s)
     (lastFrameTimestamp s) c (clockReads s) (effects s).

Definition set_dims (w h : Z) (c : Config.t) : Config.t :=
  Config.mk (Config.targetFPS c) w h (Config.quality c) (Config.output c)
            (Config.device c) (Config.tmpFile c).

Definition log (e : list effect) (s : t) : t :=
  mk (webcam s) (isInitialized s) (captureInProgress s) (continuousMode s)
     (captureLoopRunning s) (lastFramePath s) (lastFrameBuffer s)
     (lastFrameTimestamp s) (config s) (clockReads s) (effects s ++ e).

(** [initialize(width = null, height = null)].  The dimensions are
    integers or [null].  [if (width && height)] tests truthiness: [null] and
    0 are falsy, every other integer is truthy, a negative one included, and
    is stored as it is. *)
Definition initialize (w h : option Z) (s : t) : t :=
  if isInitialized s then s
  else
    let c :=
      match w, h with
      | Some w', Some h' =>
          if (w' =? 0)%Z || (h' =? 0)%Z then config s
          else set_dims w' h' (config s)
      | _, _ => config s
      end in
    let o := mkOpts (Config.width c) (Config.height c) (Config.quality c)
                    (Config.output c) (Config.device c) "location" false in
    mk (Some o) true (captureInProgress s) (continuousMode s)
       (captureLoopRunning s) (lastFramePath s) (lastFrameBuffer s)
       (lastFrameTimestamp s) c (clockReads s)
       (effects s ++ [Create o; ConsoleLog (Config.width c) (Config.height c)]).

Definition updateResolution (w h : Z) (s : t) : t :=
  if (w =? Config.width (config s))%Z && (h =? Config.height (config s))%Z
  then s
  else
    let s1 := set_config (set_dims w h (config s)) s in
    let s2 :=
      mk (webcam s1) false (captureInProgress s1) (continuousMode s1)
         (captureLoopRunning s1) (lastFramePath s1) (lastFrameBuffer s1)
         (lastFrameTimestamp s1) (config s1) (clockReads s1) (effects s1) in
    initialize None None s2.

Definition set_loop (continuous running : bool) (s : t) : t :=
  mk (webcam s) (isInitialized s) (captureInProgress s) continuous running
     (lastFramePath s) (lastFrameBuffer s) (lastFrameTimestamp s)
     (config s) (clockReads s) (effects s).

Definition startContinuousCapture (s : t) : t :=
  if captureLoopRunning s then s
  else log [LoopStarted] (set_loop true true s).

Definition stopContinuousCapture (s : t) : t := set_loop false false s.

(** The body of the [while] loop of [_runCaptureLoop], from the test of
    [captureInProgress] to the [finally] clause.  The [try] block assigns
    the three [lastFrame...] fields only after both awaits have resolved;
    a rejection jumps to [catch], which logs, and [finally] clears the
    flag.  A missing [this.webcam] makes the capture call itself throw,
    inside the same [try]. *)
Definition iteration (o : outcome) (s : t) : t :=
  if captureInProgress s then s
  else
    let file := Config.tmpFile (config s) in
    match webcam s with
    | None =>
        log [ConsoleError "Cannot read properties of null (reading 'capture')"] s
    | Some _ =>
        match o with
        | CaptureFailed msg => log [Capture file; ConsoleError msg] s
        | ReadFailed msg =>
            log [Capture file; ReadFile file; ConsoleError msg] s
        | Acquired data =>
            mk (webcam s) (isInitialized s) false (continuousMode s)
               (captureLoopRunning s) (Some file) (Some data)
               (now (clockReads s)) (config s) (S (clockReads s))
               (effects s ++ [Capture file; ReadFile file])
        end
    end.

(** [_runCaptureLoop()] along a finite prefix of what happens to the
    object: the loop's own iterations and the calls that other code makes
    while it is suspended.  When the list is used up the loop is still
    suspended at an [await]. *)
Fixpoint _runCaptureLoop (calls : list call) (s : t) : t :=
  match calls with
  | [] => s
  | Iterate o :: rest =>
      if continuousMode s then _runCaptureLoop rest (iteration o s)
      else
        mk (webcam s) (isInitialized s) (captureInProgress s)
           (continuousMode s) false (lastFramePath s) (lastFrameBuffer s)
           (lastFrameTimestamp s) (config s) (clockReads s) (effects s)
  | CallStop :: rest => _runCaptureLoop rest (stopContinuousCapture s)
  | CallUpdateResolution w h :: rest =>
      _runCaptureLoop rest (updateResolution w h s)
  end.

Definition getLatestFrame (s : t) : option bytes := lastFrameBuffer s.

Definition getLatestFramePath (s : t) : option string := lastFramePath s.

(** [captureFrame()], the single-shot capture.  The promise it returns
    rejects with an error message ([inl]) or resolves to a buffer or to
    [null] ([inr]); the middle component is what it prints with
    [console.error('Frame capture error:', ...)].  [o] is what the
    acquisition runs into, if one is made. *)
Definition captureFrame (o : outcome) (s : t)
  : t * list string * (string + option bytes) :=
  if negb (isInitialized s) then
    (s, [], inl "Webcam not initialized. Call initialize() first."%string)
  else if continuousMode s then (s, [], inr (getLatestFrame s))
  else if captureInProgress s then (s, [], inr None)
  else
    let file := Config.tmpFile (config s) in
    match webcam s with
    | None =>
        (s, ["Cannot read properties of null (reading 'capture')"%string],
         inr None)
    | Some _ =>
        match o with
        | CaptureFailed msg => (log [Capture file] s, [msg], inr None)
        | ReadFailed msg =>
            (log [Capture file; ReadFile file] s, [msg], inr None)
        | Acquired data =>
            (log [Capture file; ReadFile file] s, [], inr (Some data))
        end
    end.

Definition cleanup (s : t) : t :=
  let s1 := stopContinuousCapture s in
  let s2 := log [Unlink (Config.tmpFile (config s1))] s1 in
  mk (webcam s2) (isInitialized s2) (captureInProgress s2)
     (continuousMode s2) (captureLoopRunning s2) (lastFramePath s2) None
     (lastFrameTimestamp s2) (config s2) (clockReads s2) (effects s2).

End Methods.

End WebcamCapture.

(** ** [src/webcam/hybrid-capture.js] *)
Module HybridCapture.

Inductive mode_t := hardware | software.

(** [activeCapture] is a reference to one of the two capture objects: it
    is modelled by the name of the field that holds the object, so that a
    call through it updates that very object. *)
Record t := mk {
  ffmpegCapture : option FFmpegCapture.t;
  softwareCapture : option WebcamCapture.t;
  activeCapture : option mode_t;
  mode : option mode_t;
  width : nat;
  height : nat
}.

Section Methods.
Variable now : nat -> Z.
Variable platform : FFmpegCapture.platform_t.

Definition new : t := mk None None None None 600 150.

(** [initialize(width, height)]; [ffmpegAvailable] is what the probe of
    the new FFmpegCapture answers.  The supervisor and the hardware source
    are modelled for dimensions that are natural numbers. *)
Definition initialize (w h : nat) (ffmpegAvailable : bool) (s : t)
  : t * mode_t :=
  let (ff, available) :=
    FFmpegCapture.initialize w h ffmpegAvailable
      (FFmpegCapture.new now platform) in
  if available then
    (mk (Some (FFmpegCapture.start ff)) (softwareCapture s)
        (Some hardware) (Some hardware) w h,
     hardware)
  else
    let sw :=
      WebcamCapture.startContinuousCapture
        (WebcamCapture.initialize (Some (Z.of_nat w)) (Some (Z.of_nat h))
           WebcamCapture.new) in
    (mk (Some ff) (Some sw) (Some software) (Some software) w h,
     software).

Definition getLatestFrame (s : t) : option bytes :=
  match activeCapture s with
  | None => None
  | Some hardware =>
      match ffmpegCapture s with
      | Some ff => FFmpegCapture.getLatestFrame ff
      | None => None
      end
  | Some software =>
      match softwareCapture s with
      | Some sw => WebcamCapture.getLatestFrame sw
      | None => None
      end
  end.

Definition getLatestFramePath (s : t) : option string :=
  match mode s, softwareCapture s with
  | Some software, Some sw => WebcamCapture.getLatestFramePath sw
  | _, _ => None
  end.

Definition updateResolution (w h : nat) (s : t) : t :=
  if (w =? width s) && (h =? height s) then s
  else
    match activeCapture s with
    | Some hardware =>
        mk (option_map (FFmpegCapture.updateResolution w h)
                       (ffmpegCapture s))
           (softwareCapture s) (activeCapture s) (mode s) w h
    | Some software =>
        mk (ffmpegCapture s)
           (option_map (WebcamCapture.updateResolution
                          (Z.of_nat w) (Z.of_nat h))
                       (softwareCapture s))
           (activeCapture s) (mode s) w h
    | None =>
        mk (ffmpegCapture s) (softwareCapture s) (activeCapture s)
           (mode s) w h
    end.

Definition cleanup (s : t) : t :=
  mk (option_map FFmpegCapture.cleanup (ffmpegCapture s))
     (option_map WebcamCapture.cleanup (softwareCapture s))
     None (mode s) (width s) (height s).

Definition getMode (s : t) : option mode_t := mode s.

Definition isHardwareAccelerated (s : t) : bool :=
  match mode s with Some hardware => true | _ => false end.

(** The events of the child process reach the hardware source. *)
Definition on_data (chunk : bytes) (s : t) : option t :=
  match ffmpegCapture s with
  | None => Some s
  | Some ff =>
      match FFmpegCapture._handleFrameData now chunk ff with
      | None => None
      | Some (ff', _) =>
          Some (mk (Some ff') (softwareCapture s) (activeCapture s)
                   (mode s) (width s) (height s))
      end
  end.

Definition on_close (s : t) : t :=
  mk (option_map FFmpegCapture.on_close (ffmpegCapture s))
     (softwareCapture s) (activeCapture s) (mode s) (width s) (height s).

End Methods.

End HybridCapture.

(** *** Histories of a capture session

    What happens to the supervisor after [initialize]: chunks and the exit
    of the child process reach the hardware source, iterations of the capture
    loop run on the software source, and the terminal is resized. *)
Module HybridHistory.

Inductive event :=
| Data (chunk : bytes)
| Closed
| Acquisition (o : WebcamCapture.outcome)
| UpdateResolution (w h : nat).

Section Run.
Variable now : nat -> Z.

Definition step (e : event) (s : HybridCapture.t) : option HybridCapture.t :=
  match e with
  | Data chunk => HybridCapture.on_data now chunk s
  | Closed => Some (HybridCapture.on_close s)
  | Acquisition o =>
      Some (HybridCapture.mk
              (HybridCapture.ffmpegCapture s)
              (option_map
                 (WebcamCapture._runCaptureLoop now [WebcamCapture.Iterate o])
                 (HybridCapture.softwareCapture s))
              (HybridCapture.activeCapture s) (HybridCapture.mode s)
              (HybridCapture.width s) (HybridCapture.height s))
  | UpdateResolution w h => Some (HybridCapture.updateResolution w h s)
  end.

Fixpoint run (evs : list event) (s : HybridCapture.t)
  : option HybridCapture.t :=
  match evs with
  | [] => Some s
  | e :: rest =>
      match step e s with
      | Some s1 => run rest s1
      | None => None
      end
  end.

End Run.

(** Every resize of the history asks for a positive width and height. *)
Definition positive_resizes (evs : list event) : Prop :=
  Forall (fun e => match e with
                   | UpdateResolution w h => 0 < w /\ 0 < h
                   | _ => True
                   end) evs.

End HybridHistory.

(** ** [src/renderer/converter.js] *)
Module ImageConverter.

Inductive mode_t := auto | raw | sharp_only.

Record t := mk {
  lastWidth : Z;
  lastHeight : Z;
  charRamp : jsstring;
  mode : mode_t;
  (* bookkeeping of the embedding: the messages given to console.error *)
  console : list jsstring
}.

(** The default ramp [' ░▒▓█']. *)
Definition default_ramp : jsstring := [32; 9617; 9618; 9619; 9608]%N.

Definition new (ramp : jsstring) : t := mk 0 0 ramp auto [].

Definition setCharacterRamp (ramp : jsstring) (s : t) : t :=
  mk (lastWidth s) (lastHeight s) ramp (mode s) (console s).

(** [Math.floor((brightness / 255) * (rampLength - 1))] *)
Definition brightnessIndex (brightness rampLength : Z) : Z :=
  Binary64.floor
    (Binary64.mul (Binary64.div (inject_Z brightness) 255%Q)
                  (inject_Z (rampLength - 1))).

(** [this.charRamp[index]], as it ends up in [rowChars.join('')]: an index
    outside the string gives [undefined], which [join] renders as the empty
    string. *)
Definition charAt (ramp : jsstring) (index : Z) : jsstring :=
  if (index <? 0)%Z then []
  else match nth_error ramp (Z.to_nat index) with
       | Some c => [c]
       | None => []
       end.

(** The glyph of one pixel.  Reading past the end of the buffer gives
    [undefined], the index is then [NaN] and the glyph is [undefined]. *)
Definition glyph (ramp : jsstring) (pixel : option byte) : jsstring :=
  match pixel with
  | None => []
  | Some b =>
      charAt ramp
        (brightnessIndex (Z.of_N (Byte.to_N b)) (Z.of_nat (length ramp)))
  end.

(** The inner loop over [x] for a row that has [w] columns: one row of
    glyphs, joined with ['']. *)
Definition rowChars (ramp : jsstring) (pixelData : bytes) (w y : nat)
  : jsstring :=
  concat (map (fun x => glyph ramp (nth_error pixelData (y * w + x)))
              (seq 0 w)).

(** [_pixelsToAscii(pixelData, width, height)] for dimensions that are any
    integers.  The loop [for (y = 0; y < height; y++)] makes [max 0 height]
    turns and the loop over [x] makes [max 0 width] turns; when it makes
    any, [width] is positive and [y * width] is the start of the row. *)
Definition _pixelsToAscii (s : t) (pixelData : bytes) (w h : Z)
  : jsstring :=
  join [LF] (map (rowChars (charRamp s) pixelData (Z.to_nat w))
                 (seq 0 (Z.to_nat h))).

Definition _brightnessToChar (s : t) (brightness : Z) : jsstring :=
  charAt (charRamp s)
         (brightnessIndex brightness (Z.of_nat (length (charRamp s)))).

(** [_createErrorFrame(width, height, errorMsg)].  The first [repeat] gets
    [Math.floor(height / 2)], which is negative for a negative height: the
    method then throws a RangeError ([None]).  The counts of the two other
    calls of [repeat] are maxima with 0. *)
Definition _createErrorFrame (w h : Z) (errorMsg : jsstring)
  : option jsstring :=
  let errorLine := of_ascii "ERROR: " ++ errorMsg in
  let padding := ((w - Z.of_nat (length errorLine)) / 2)%Z in
  let verticalPadding := (h / 2)%Z in
  match repeat_count LF verticalPadding with
  | None => None
  | Some top =>
      Some (top
            ++ (repeat_unit SP (Z.to_nat (Z.max 0 padding))
                ++ errorLine ++ [LF])
            ++ repeat_unit LF
                 (Z.to_nat (Z.max 0 (h - verticalPadding - 1))))
  end.

Definition getDimensions (s : t) : Z * Z := (lastWidth s, lastHeight s).

(** How the promise of [convertToTerminal] settles. *)
Inductive settled :=
| Resolved (frame : jsstring)
| Rejected.                  (* with the RangeError of [_createErrorFrame] *)

Section Methods.
(** The [sharp] pipeline of [_convertWithSharp] (decode, resize,
    grayscale, raw) is an external library: it either throws an error
    with a message or resolves to [{ data, info }]. *)
Variable sharp : bytes -> Z -> Z -> jsstring + (bytes * (Z * Z)).

(** [convertToTerminal(imageSource, width, height)] for dimensions that are
    any integers.  [None] is a [null] or [undefined] source.  Every [throw]
    of the [try] block is caught; the [catch] block logs the message and
    calls [_createErrorFrame], and when that call throws, nothing catches it:
    the promise is rejected. *)
Definition convertToTerminal (imageSource : option bytes) (w h : Z)
           (s : t) : t * settled :=
  match imageSource with
  | None => (s, Resolved [])
  | Some src =>
      let s1 := mk w h (charRamp s) (mode s) (console s) in
      let expectedRawBytes := (w * h)%Z in
      let isRawPixels := (Z.of_nat (length src) =? expectedRawBytes)%Z in
      let not_sharp :=
        match mode s1 with sharp_only => false | _ => true end in
      if isRawPixels && not_sharp then
        (s1, Resolved (_pixelsToAscii s1 src w h))
      else
        match sharp src w h with
        | inr (data, (iw, ih)) => (s1, Resolved (_pixelsToAscii s1 data iw ih))
        | inl msg =>
            (mk w h (charRamp s) (mode s) (console s ++ [msg]),
             match _createErrorFrame w h msg with
             | Some frame => Resolved frame
             | None => Rejected
             end)
        end
  end.

End Methods.

(** A grid of [w] by [h] glyphs in the converter's output format: [h] rows
    of [w] code units each, joined by line feeds. *)
Definition is_grid (w h : nat) (frame : jsstring) : bool :=
  let rows := split_lines frame in
  (length rows =? h) && forallb (fun r => length r =? w) rows.

(** The brightness index computed on hardware floats. *)
Definition brightnessIndex_prim (brightness rampLength : Z) : Z :=
  Binary64.prim_floor_nonneg
    (PrimFloat.mul
       (PrimFloat.div (Binary64.prim_of_Z brightness)
                      (Binary64.prim_of_Z 255))
       (Binary64.prim_of_Z (rampLength - 1))).

(** The index in exact arithmetic: [floor (b * (L - 1) / 255)]. *)
Definition exactIndex (brightness rampLength : Z) : Z :=
  (brightness * (rampLength - 1) / 255)%Z.

End ImageConverter.

(** ** [src/renderer/terminal.js] *)
Module TerminalRenderer.

Record perf := mkPerf {
  captureTime : Q;
  sharpTime : Q;
  totalTime : Q;
  sampleCount : nat
}.

Definition perf_zero : perf := mkPerf 0 0 0 0.

Inductive effect :=
| SetTimeout (id : nat) (delay : Z)        (* setTimeout(cb, config.delay) *)
| ClearTimeout (id : nat)
| GetLatestFrame                           (* this.webcam.getLatestFrame() *)
| GetDimensions                            (* this._getTerminalDimensions() *)
| Convert (w h : Z)                        (* converter.convertToTerminal *)
| OnFrame (frame : jsstring)               (* this.onFrameCallback(frame) *)
| OnStats (fps targetFps : Z) (frames : nat) (dims : Z * Z)
| PerfReport (mode : option HybridCapture.mode_t)
             (capture convert total : Q) (fps : Z)
| ConsoleError.                            (* Render loop error *)

Record t := mk {
  converter : ImageConverter.t;
  config : Config.t;
  isRunning : bool;
  timeoutId : option nat;
  frameCount : nat;
  lastFpsUpdate : Z;
  currentFps : Z;
  onFrameCallback : bool;       (* is a callback installed? *)
  onStatsCallback : bool;
  performanceStats : perf;
  enablePerfLogging : bool;
  (* bookkeeping of the embedding *)
  timers : list nat;            (* timeouts set, neither fired nor cleared *)
  nextTimer : nat;              (* the identity of the next timeout *)
  effects : list effect         (* oldest first *)
}.

(** The readings a tick takes before it suspends at the [await]. *)
Record reading := mkReading {
  frameStart : Q;               (* performance.now() *)
  captureStart : Q;
  captureEnd : Q;
  dimensions : Z * Z;           (* the dimension provider's answer *)
  sharpStart : Q
}.

(** What the tick holds on to while the conversion is awaited, and how
    the awaited promise settles. *)
Record suspended := mkSuspended {
  s_frameStart : Q;
  s_captureTime : Q;
  s_sharpStart : Q;
  s_conversion : ImageConverter.settled
}.

(** What the continuation of a tick meets once the conversion is done. *)
Record resumption := mkResumption {
  sharpEnd : Q;                 (* performance.now() *)
  onFrameThrows : bool;         (* does the display callback throw? *)
  tickEnd : Q;                  (* performance.now() *)
  mode : option HybridCapture.mode_t;   (* this.webcam.getMode?.() *)
  dateNow : Z                   (* Date.now() in _updateFps *)
}.

Definition new (c : Config.t) (dateNow0 : Z) : t :=
  mk (ImageConverter.new ImageConverter.default_ramp) c false None 0
     dateNow0 0 false false perf_zero false [] 0 [].

Definition emit (e : list effect) (s : t) : t :=
  mk (converter s) (config s) (isRunning s) (timeoutId s) (frameCount s)
     (lastFpsUpdate s) (currentFps s) (onFrameCallback s)
     (onStatsCallback s) (performanceStats s) (enablePerfLogging s)
     (timers s) (nextTimer s) (effects s ++ e).

Definition _scheduleNextFrame (s : t) : t :=
  if negb (isRunning s) then s
  else
    let id := nextTimer s in
    mk (converter s) (config s) (isRunning s) (Some id) (frameCount s)
       (lastFpsUpdate s) (currentFps s) (onFrameCallback s)
       (onStatsCallback s) (performanceStats s) (enablePerfLogging s)
       (timers s ++ [id]) (S id)
       (effects s ++ [SetTimeout id (Config.delay (config s))]).

(** [start(onFrame, onStats)] with both callbacks given. *)
Definition start (dateNow0 : Z) (s : t) : t :=
  if isRunning s then s
  else
    _scheduleNextFrame
      (mk (converter s) (config s) true (timeoutId s) 0 dateNow0
          (currentFps s) true true (performanceStats s)
          (enablePerfLogging s) (timers s) (nextTimer s) (effects s)).

Definition stop (s : t) : t :=
  if negb (isRunning s) then s
  else
    match timeoutId s with
    | Some id =>
        mk (converter s) (config s) false None (frameCount s)
           (lastFpsUpdate s) (currentFps s) (onFrameCallback s)
           (onStatsCallback s) (performanceStats s) (enablePerfLogging s)
           (filter (fun i => negb (i =? id)) (timers s)) (nextTimer s)
           (effects s ++ [ClearTimeout id])
    | None =>
        mk (converter s) (config s) false None (frameCount s)
           (lastFpsUpdate s) (currentFps s) (onFrameCallback s)
           (onStatsCallback s) (performanceStats s) (enablePerfLogging s)
           (timers s) (nextTimer s) (effects s)
    end.

Definition set_stats (p : perf) (s : t) : t :=
  mk (converter s) (config s) (isRunning s) (timeoutId s) (frameCount s)
     (lastFpsUpdate s) (currentFps s) (onFrameCallback s)
     (onStatsCallback s) p (enablePerfLogging s)
     (timers s) (nextTimer s) (effects s).

(** [_trackPerformance(captureTime, sharpTime, totalTime)]; [m] is what
    [this.webcam.getMode?.()] answers. *)
Definition _trackPerformance (m : option HybridCapture.mode_t)
           (ct st tt : Q) (s : t) : t :=
  let p := performanceStats s in
  let p1 := mkPerf (Binary64.add (captureTime p) ct)
                   (Binary64.add (sharpTime p) st)
                   (Binary64.add (totalTime p) tt)
                   (S (sampleCount p)) in
  let s1 := set_stats p1 s in
  if enablePerfLogging s1 && (sampleCount p1 mod 100 =? 0) then
    let samples := inject_Z (Z.of_nat (sampleCount p1)) in
    set_stats perf_zero
      (emit [PerfReport m (Binary64.div (captureTime p1) samples)
                        (Binary64.div (sharpTime p1) samples)
                        (Binary64.div (totalTime p1) samples)
                        (currentFps s1)] s1)
  else s1.

Definition _updateFps (dateNow : Z) (s : t) : t :=
  let count := S (frameCount s) in
  let elapsed := (dateNow - lastFpsUpdate s)%Z in
  if (elapsed >=? 1000)%Z then
    let fps :=
      Binary64.round
        (Binary64.div (Binary64.mul (inject_Z (Z.of_nat count)) 1000%Q)
                      (inject_Z elapsed)) in
    let stats :=
      if onStatsCallback s
      then [OnStats fps (Config.targetFPS (config s)) count
                    (ImageConverter.getDimensions (converter s))]
      else [] in
    mk (converter s) (config s) (isRunning s) (timeoutId s) 0 dateNow fps
       (onFrameCallback s) (onStatsCallback s) (performanceStats s)
       (enablePerfLogging s) (timers s) (nextTimer s) (effects s ++ stats)
  else
    mk (converter s) (config s) (isRunning s) (timeoutId s) count
       (lastFpsUpdate s) (currentFps s) (onFrameCallback s)
       (onStatsCallback s) (performanceStats s) (enablePerfLogging s)
       (timers s) (nextTimer s) (effects s).

Definition togglePerfLogging (s : t) : t * bool :=
  (mk (converter s) (config s) (isRunning s) (timeoutId s) (frameCount s)
      (lastFpsUpdate s) (currentFps s) (onFrameCallback s)
      (onStatsCallback s) (performanceStats s) (negb (enablePerfLogging s))
      (timers s) (nextTimer s) (effects s),
   negb (enablePerfLogging s)).

Definition set_converter (c : ImageConverter.t) (s : t) : t :=
  mk c (config s) (isRunning s) (timeoutId s) (frameCount s)
     (lastFpsUpdate s) (currentFps s) (onFrameCallback s)
     (onStatsCallback s) (performanceStats s) (enablePerfLogging s)
     (timers s) (nextTimer s) (effects s).

Definition setCharacterSet (ramp : jsstring) (s : t) : t :=
  set_converter (ImageConverter.setCharacterRamp ramp (converter s)) s.

Section Tick.
Variable sharp : bytes -> Z -> Z -> jsstring + (bytes * (Z * Z)).

(** [_captureAndRender()] from its entry to the [await]: the part that
    runs inside the timer callback.  [frame] is what
    [this.webcam.getLatestFrame()] returns at that moment.  How the
    awaited promise settles is computed here and handed to the continuation
    in the [suspended] record. *)
Definition _captureAndRender (frame : option bytes) (r : reading) (s : t)
  : t * option suspended :=
  if negb (isRunning s) then (s, None)
  else
    let s1 := _scheduleNextFrame s in
    let s2 := emit [GetLatestFrame] s1 in
    let captureTime := Binary64.sub (captureEnd r) (captureStart r) in
    match frame with
    | None => (s2, None)
    | Some _ =>
        let (w, h) := dimensions r in
        let s3 := emit [GetDimensions; Convert w h] s2 in
        let (c, conversion) :=
          ImageConverter.convertToTerminal sharp frame w h (converter s3) in
        (set_converter c s3,
         Some (mkSuspended (frameStart r) captureTime (sharpStart r)
                           conversion))
    end.

(** The continuation of [_captureAndRender] after the [await].  When the
    conversion was rejected the [await] throws: the [catch] block logs
    'Render loop error', and neither the display callback nor the
    statistics are reached.  The same happens, after the callback has been
    called, when the callback throws. *)
Definition resume (k : suspended) (e : resumption) (s : t) : t :=
  match s_conversion k with
  | ImageConverter.Rejected => emit [ConsoleError] s
  | ImageConverter.Resolved terminalFrame =>
      let sharpTime := Binary64.sub (sharpEnd e) (s_sharpStart k) in
      let s1 :=
        if onFrameCallback s then emit [OnFrame terminalFrame] s else s in
      if onFrameCallback s && onFrameThrows e then emit [ConsoleError] s1
      else
        let totalTime := Binary64.sub (tickEnd e) (s_frameStart k) in
        _updateFps (dateNow e)
          (_trackPerformance (mode e) (s_captureTime k) sharpTime totalTime
             s1)
  end.

(** The scheduler inside the event loop: the renderer together with the
    ticks that are suspended at their [await], oldest first. *)
Record loop := mkLoop {
  renderer : t;
  awaiting : list suspended
}.

Inductive event :=
| Fire (frame : option bytes) (r : reading)   (* the pending timeout *)
| Resume (e : resumption)                     (* the oldest conversion *)
| Toggle.                                     (* the 'l' key *)

(** A timeout fires only if it is pending; it is then no longer. *)
Definition fire (frame : option bytes) (r : reading) (l : loop) : loop :=
  match timers (renderer l) with
  | [] => l
  | id :: rest =>
      let s := renderer l in
      let s0 :=
        mk (converter s) (config s) (isRunning s) (timeoutId s)
           (frameCount s) (lastFpsUpdate s) (currentFps s)
           (onFrameCallback s) (onStatsCallback s) (performanceStats s)
           (enablePerfLogging s) rest (nextTimer s) (effects s) in
      match _captureAndRender frame r s0 with
      | (s1, Some k) => mkLoop s1 (awaiting l ++ [k])
      | (s1, None) => mkLoop s1 (awaiting l)
      end
  end.

Definition step (ev : event) (l : loop) : loop :=
  match ev with
  | Fire frame r => fire frame r l
  | Resume e =>
      match awaiting l with
      | [] => l
      | k :: rest => mkLoop (resume k e (renderer l)) rest
      end
  | Toggle => mkLoop (fst (togglePerfLogging (renderer l))) (awaiting l)
  end.

Definition run (evs : list event) (l : loop) : loop :=
  fold_left (fun l ev => step ev l) evs l.

End Tick.

(** Ticks begun: the timeouts that fired while the scheduler was running
    each looked at the frame slot once. *)
Definition ticks (s : t) : nat :=
  length (filter (fun e => match e with GetLatestFrame => true | _ => false end)
                 (effects s)).

End TerminalRenderer.

(** *** Histories of a renderer

    What the application and the event loop do with a renderer: [start] and
    [stop], a change of the ramp, and the events of the scheduler. *)
Module RendererHistory.

Inductive command :=
| Start (dateNow0 : Z)
| Stop
| SetCharacterSet (ramp : jsstring)
| Loop (ev : TerminalRenderer.event).

Section Run.
Variable sharp : bytes -> Z -> Z -> jsstring + (bytes * (Z * Z)).

Definition exec (c : command) (l : TerminalRenderer.loop)
  : TerminalRenderer.loop :=
  match c with
  | Start d =>
      TerminalRenderer.mkLoop
        (TerminalRenderer.start d (TerminalRenderer.renderer l))
        (TerminalRenderer.awaiting l)
  | Stop =>
      TerminalRenderer.mkLoop
        (TerminalRenderer.stop (TerminalRenderer.renderer l))
        (TerminalRenderer.awaiting l)
  | SetCharacterSet ramp =>
      TerminalRenderer.mkLoop
        (TerminalRenderer.setCharacterSet ramp (TerminalRenderer.renderer l))
        (TerminalRenderer.awaiting l)
  | Loop ev => TerminalRenderer.step sharp ev l
  end.

Definition execs (cs : list command) (l : TerminalRenderer.loop)
  : TerminalRenderer.loop :=
  fold_left (fun l c => exec c l) cs l.

End Run.

(** A renderer just constructed, with no tick suspended. *)
Definition fresh (c : Config.t) (dateNow0 : Z) : TerminalRenderer.loop :=
  TerminalRenderer.mkLoop (TerminalRenderer.new c dateNow0) [].

Definition is_SetTimeout (e : TerminalRenderer.effect) : bool :=
  match e with TerminalRenderer.SetTimeout _ _ => true | _ => false end.

Definition is_Convert (e : TerminalRenderer.effect) : bool :=
  match e with TerminalRenderer.Convert _ _ => true | _ => false end.

Definition is_OnFrame (e : TerminalRenderer.effect) : bool :=
  match e with TerminalRenderer.OnFrame _ => true | _ => false end.

Definition is_ConsoleError (e : TerminalRenderer.effect) : bool :=
  match e with TerminalRenderer.ConsoleError => true | _ => false end.

(** No tick of the history is given a negative height by the dimension
    provider. *)
Definition heights_not_negative (cs : list command) : Prop :=
  Forall (fun c => match c with
                   | Loop (TerminalRenderer.Fire _ r) =>
                       (0 <= snd (TerminalRenderer.dimensions r))%Z
                   | _ => True
                   end) cs.

(** What the continuation of a tick reports besides the frame. *)
Definition is_report (e : TerminalRenderer.effect) : bool :=
  match e with
  | TerminalRenderer.OnStats _ _ _ _ => true
  | TerminalRenderer.PerfReport _ _ _ _ _ => true
  | TerminalRenderer.ConsoleError => true
  | _ => false
  end.

(** How many effects of a kind the renderer has had. *)
Definition count (p : TerminalRenderer.effect -> bool)
           (s : TerminalRenderer.t) : nat :=
  length (filter p (TerminalRenderer.effects s)).

(** The renderer at the end of a history from its construction whose last
    command is [stop]. *)
Definition stopped
           (sharp : bytes -> Z -> Z -> jsstring + (bytes * (Z * Z)))
           (c : Config.t) (dateNow0 : Z) (cs : list command)
  : TerminalRenderer.loop :=
  execs sharp (cs ++ [Stop]) (fresh c dateNow0).

End RendererHistory.

(** ** The table of ramps and its manager

    [characterSets] and [CharacterSetManager].  The ramps are given by their
    UTF-16 code units. *)
Module CharacterSets.

Record entry := mkEntry {
  name : string;
  chars : jsstring;
  description : string
}.

Definition characterSets : list entry := [
  mkEntry "Blocks"
     [32; 9617; 9618; 9619; 9608]%N
     "Default block characters";
  mkEntry "Shades"
     [32; 9601; 9602; 9603; 9604; 9605; 9606; 9607; 9608]%N
     "Vertical shade blocks";
  mkEntry "Classic"
     [32; 46; 58; 45; 61; 43; 42; 35; 37; 64]%N
     "Classic ASCII art";
  mkEntry "Simple"
     [32; 46; 111; 79; 64]%N
     "Simple dots";
  mkEntry "Dense"
     [32; 46; 39; 96; 94; 34; 44; 58; 59; 73; 108; 33; 105; 62; 60; 126;
      43; 95; 45; 63; 93; 91; 125; 123; 49; 41; 40; 124; 92; 47;
      116; 102; 106; 114; 120; 110; 117; 118; 99; 122; 88; 89; 85;
      74; 67; 76; 81; 48; 79; 90; 109; 119; 113; 112; 100; 98;
      107; 104; 97; 111; 42; 35; 77; 87; 38; 56; 37; 66; 64; 36]%N
     "High detail (70 levels)";
  mkEntry "Braille"
     [32; 10241; 10243; 10247; 10255; 10271; 10303; 10495]%N
     "Braille-like dots";
  mkEntry "Numeric"
     [32; 49; 50; 51; 52; 53; 54; 55; 56; 57; 64]%N
     "Numbers 1-9";
  mkEntry "Hatching"
     [32; 46; 39; 34; 58; 124; 47; 92; 35]%N
     "Hatching pattern";
  mkEntry "Matrix"
     [32; 9642; 9643; 9725; 9726; 9632]%N
     "Matrix-style squares";
  mkEntry "Minimal"
     [32; 183; 8226]%N
     "Minimal two-tone"
].

End CharacterSets.

Module CharacterSetManager.

Record t := mk { currentIndex : Z }.

Definition new : t := mk 0.

(** [characterSets.length] *)
Definition table_length : Z :=
  Z.of_nat (length CharacterSets.characterSets).

(** [characterSets[this.currentIndex]]: [undefined] unless the index is one
    of the table. *)
Definition getCurrentSet (s : t) : option CharacterSets.entry :=
  if (currentIndex s <? 0)%Z then None
  else nth_error CharacterSets.characterSets (Z.to_nat (currentIndex s)).

(** [%] is the remainder of the truncating division. *)
Definition next (s : t) : t * option CharacterSets.entry :=
  let s1 := mk (Z.rem (currentIndex s + 1) table_length) in
  (s1, getCurrentSet s1).

Definition previous (s : t) : t * option CharacterSets.entry :=
  let s1 := mk (Z.rem (currentIndex s - 1 + table_length) table_length) in
  (s1, getCurrentSet s1).

(** The getters read a property of the current set: on [undefined] they
    throw a TypeError, which is [None] here. *)
Definition getName (s : t) : option string :=
  option_map CharacterSets.name (getCurrentSet s).

Definition getChars (s : t) : option jsstring :=
  option_map CharacterSets.chars (getCurrentSet s).

Definition getDescription (s : t) : option string :=
  option_map CharacterSets.description (getCurrentSet s).

Inductive move := Next | Previous.

Definition step (m : move) (s : t) : t :=
  match m with
  | Next => fst (next s)
  | Previous => fst (previous s)
  end.

Definition run (ms : list move) (s : t) : t :=
  fold_left (fun s m => step m s) ms s.

End CharacterSetManager.

(** ** [src/utils/terminal-size.js] *)
Module TerminalSize.

(** [v || d] for a number that may be absent: [undefined] and 0 give [d]. *)
Definition or_default (v : option Z) (d : Z) : Z :=
  match v with
  | Some x => if (x =? 0)%Z then d else x
  | None => d
  end.

(** [columns] and [rows] are [process.stdout.columns] and
    [process.stdout.rows]. *)
Definition getTerminalSize (columns rows : option Z) : Z * Z :=
  (or_default columns 80, or_default rows 24).

Definition getVideoBoxDimensions (columns rows : option Z) : Z * Z :=
  let (width, height) := getTerminalSize columns rows in
  ((width - 2)%Z, (height - 4)%Z).

End TerminalSize.

(** ** [src/ui/controls.js] *)
Module Controls.

Section Callbacks.
(** The functions given to [setup]. *)
Variable callback : Type.

Inductive action :=
| Call (f : callback)
| EmitHelpToggle (visible : bool).   (* this.screen.emit('help-toggle', v) *)

Record t := mk {
  helpVisible : bool;
  onQuitCallback : option callback;
  onSnapshotCallback : option callback;
  onToggleLogsCallback : option callback;
  onNextCharsetCallback : option callback;
  onPrevCharsetCallback : option callback;
  (* bookkeeping of the embedding: how many times [setup] has registered
     its six key handlers on the screen *)
  registrations : nat
}.

Definition new : t := mk false None None None None None 0.

(** [setup(onQuit, onSnapshot, onToggleLogs, onNextCharset, onPrevCharset)];
    an argument left out is [undefined], here [None]. *)
Definition setup (onQuit onSnapshot onToggleLogs onNextCharset onPrevCharset
                  : option callback) (c : t) : t :=
  mk (helpVisible c) onQuit onSnapshot onToggleLogs onNextCharset
     onPrevCharset (S (registrations c)).

Definition toggleHelp (c : t) : t * list action :=
  let v := negb (helpVisible c) in
  (mk v (onQuitCallback c) (onSnapshotCallback c) (onToggleLogsCallback c)
      (onNextCharsetCallback c) (onPrevCharsetCallback c) (registrations c),
   [EmitHelpToggle v]).

Definition isHelpVisible (c : t) : bool := helpVisible c.

Definition among (key : string) (keys : list string) : bool :=
  existsb (String.eqb key) keys.

(** [if (this.onXCallback) this.onXCallback()] *)
Definition call (f : option callback) : list action :=
  match f with
  | Some g => [Call g]
  | None => []
  end.

(** The six handlers that one [setup] registers, in the order of their
    registration, on one key press. *)
Definition handlers (key : string) (c : t) : t * list action :=
  let a1 :=
    if among key ["q"; "Q"; "escape"; "C-c"]%string
    then call (onQuitCallback c) else [] in
  let (c2, a2) :=
    if among key ["h"; "H"; "?"]%string then toggleHelp c else (c, []) in
  let a3 :=
    if among key ["s"; "S"]%string
    then call (onSnapshotCallback c2) else [] in
  let a4 :=
    if among key ["l"; "L"]%string
    then call (onToggleLogsCallback c2) else [] in
  let a5 :=
    if among key ["right"; "."; ">"]%string
    then call (onNextCharsetCallback c2) else [] in
  let a6 :=
    if among key ["left"; ","; "<"]%string
    then call (onPrevCharsetCallback c2) else [] in
  (c2, a1 ++ a2 ++ a3 ++ a4 ++ a5 ++ a6).

Fixpoint handlers_n (n : nat) (key : string) (c : t) : t * list action :=
  match n with
  | O => (c, [])
  | S n' =>
      let (c1, a1) := handlers key c in
      let (c2, a2) := handlers_n n' key c1 in
      (c2, a1 ++ a2)
  end.

(** A key press reaches every handler registered for the key. *)
Definition press (key : string) (c : t) : t * list action :=
  handlers_n (registrations c) key c.

End Callbacks.

(** The keys the help text gives for the character sets, and those bound
    with them. *)
Definition charset_keys : list string :=
  ["right"; "."; ">"; "left"; ","; "<"]%string.

End Controls.

(** ** [src/ui/screen.js]: the batching of renders

    The blessed widgets are modelled by their content; the colours of the
    status bar are left out. *)
Module Screen.

Record stats_t := mkStats {
  fps : Z;
  targetFps : Z;
  frameCount : nat;
  dimensions : nat * nat;
  charsetName : string
}.

(** The text of the status bar, by its variable parts. *)
Record status := mkStatus {
  fpsText : option (Z * Z);          (* None: 'Starting...' *)
  dimText : option (nat * nat);      (* None: '--' *)
  charsetText : string
}.

Record t := mk {
  screen : bool;                     (* this.screen is not null *)
  videoBox : option jsstring;        (* the content of the video box *)
  statusBar : option status;         (* the content of the status bar *)
  stats : stats_t;
  renderScheduled : bool;
  pendingVideo : bool;
  pendingStats : bool;
  (* bookkeeping of the embedding *)
  immediates : nat;                  (* setImmediate callbacks not yet run *)
  renders : list (option jsstring * option status)
                                     (* what each screen.render() painted *)
}.

Definition new : t :=
  mk false None None (mkStats 0 0 0 (0, 0) "Blocks") false false false 0 [].

Definition _getStatusText (s : t) : status :=
  let st := stats s in
  mkStatus
    (if (0 <? fps st)%Z then Some (fps st, targetFps st) else None)
    (if 0 <? fst (dimensions st) then Some (dimensions st) else None)
    (if String.eqb (charsetName st) EmptyString then "Blocks"%string
     else charsetName st).

Definition render (s : t) : t :=
  if screen s then
    mk (screen s) (videoBox s) (statusBar s) (stats s) (renderScheduled s)
       (pendingVideo s) (pendingStats s) (immediates s)
       (renders s ++ [(videoBox s, statusBar s)])
  else s.

(** [initialize()], with blessed creating its screen and widgets. *)
Definition initialize (s : t) : t :=
  render
    (mk true (Some (of_ascii "Initializing webcam..."))
        (Some (_getStatusText s)) (stats s) (renderScheduled s)
        (pendingVideo s) (pendingStats s) (immediates s) (renders s)).

Definition _scheduleRender (s : t) : t :=
  if renderScheduled s then s
  else
    mk (screen s) (videoBox s) (statusBar s) (stats s) true
       (pendingVideo s) (pendingStats s) (S (immediates s)) (renders s).

Definition _performRender (s : t) : t :=
  let s1 := render s in
  mk (screen s1) (videoBox s1) (statusBar s1) (stats s1) false false false
     (immediates s1) (renders s1).

Definition updateVideo (content : jsstring) (s : t) : t :=
  match videoBox s with
  | Some _ =>
      _scheduleRender
        (mk (screen s) (Some content) (statusBar s) (stats s)
            (renderScheduled s) true (pendingStats s) (immediates s)
            (renders s))
  | None => s
  end.

(** [updateStats(stats)] with the object the renderer reports: it has the
    four properties [fps], [targetFps], [frameCount] and [dimensions].
    Without a status bar the call throws a TypeError: [None]. *)
Definition updateStats (f tf : Z) (fc : nat) (dims : nat * nat) (s : t)
  : option t :=
  let st := mkStats f tf fc dims (charsetName (stats s)) in
  let s1 :=
    mk (screen s) (videoBox s) (statusBar s) st (renderScheduled s)
       (pendingVideo s) (pendingStats s) (immediates s) (renders s) in
  match statusBar s with
  | None => None
  | Some _ =>
      Some (_scheduleRender
              (mk (screen s1) (videoBox s1) (Some (_getStatusText s1)) st
                  (renderScheduled s1) (pendingVideo s1) true
                  (immediates s1) (renders s1)))
  end.

Definition getVideoDimensions (columns rows : option Z) : Z * Z :=
  TerminalSize.getVideoBoxDimensions columns rows.

Inductive event :=
| UpdateVideo (content : jsstring)
| UpdateStats (f tf : Z) (fc : nat) (dims : nat * nat)
| Immediate          (* the event loop runs the pending setImmediate *)
| Render.            (* a direct render: help, notification, resize *)

Definition step (e : event) (s : t) : option t :=
  match e with
  | UpdateVideo content => Some (updateVideo content s)
  | UpdateStats f tf fc dims => updateStats f tf fc dims s
  | Immediate =>
      match immediates s with
      | O => Some s
      | S n =>
          Some (_performRender
                  (mk (screen s) (videoBox s) (statusBar s) (stats s)
                      (renderScheduled s) (pendingVideo s) (pendingStats s)
                      n (renders s)))
      end
  | Render => Some (render s)
  end.

Fixpoint run (evs : list event) (s : t) : option t :=
  match evs with
  | [] => Some s
  | e :: rest =>
      match step e s with
      | Some s1 => run rest s1
      | None => None
      end
  end.

(** The turns of the event loop in a history that can paint the screen. *)
Definition paints (evs : list event) : nat :=
  length (filter (fun e => match e with
                           | Immediate | Render => true
                           | _ => false
                           end) evs).

End Screen.

(** ** The application ([TerminalWebcamApp])

    The application object with the calls it makes on its screen, its
    renderer and its capture supervisor as effects.  [start] and [quit] are
    asynchronous: each is modelled by the part that runs before its [await]
    and the part that runs after it.  [saveSnapshot] is modelled by the fact
    that it is called. *)
Module App.

(** The functions [start] gives to [controls.setup]. *)
Inductive handler := Quit | SaveSnapshot | ToggleLogs.

Inductive effect :=
| ScreenInitialize
| WebcamInitialize (w h : Z)
| RendererStart
| ScreenRender
| ScreenUpdateVideo (frame : jsstring)
| ScreenUpdateStats
| ScreenToggleHelp
| TogglePerfLogging
| SaveSnapshotCalled
| RendererStop
| WebcamCleanup
| ScreenDestroy
| ProcessExit (code : Z)
| ConsoleError.

Record t := mk {
  renderer : bool;                        (* this.renderer is not null *)
  controls : option (Controls.t handler);
  isRunning : bool;
  captureMode : option HybridCapture.mode_t;
  (* bookkeeping of the embedding *)
  starting : bool;       (* start() waits for webcam.initialize() *)
  quitting : option Z;   (* quit(code) waits for webcam.cleanup() *)
  exited : option Z;     (* process.exit(code) has been called *)
  effects : list effect  (* oldest first *)
}.

Definition new : t := mk false None false None false None None [].

Definition emit (es : list effect) (a : t) : t :=
  mk (renderer a) (controls a) (isRunning a) (captureMode a) (starting a)
     (quitting a) (exited a) (effects a ++ es).

(** [quit(exitCode)] up to [await this.webcam.cleanup()]. *)
Definition quit_begin (code : Z) (a : t) : t :=
  if negb (isRunning a) then a
  else
    mk (renderer a) (controls a) false (captureMode a) (starting a)
       (Some code) (exited a)
       (effects a
        ++ (if renderer a then [RendererStop] else []) ++ [WebcamCleanup]).

(** The rest of [quit] once the cleanup has settled.  If it was rejected,
    so is the promise of [quit], which nobody awaits: the handler of
    ['unhandledRejection'] logs it and calls [quit(1)]. *)
Definition quit_finish (ok : bool) (a : t) : t :=
  match quitting a with
  | None => a
  | Some code =>
      if ok then
        mk (renderer a) (controls a) (isRunning a) (captureMode a)
           (starting a) None (Some code)
           (effects a ++ [ScreenDestroy; ProcessExit code])
      else
        quit_begin 1
          (mk (renderer a) (controls a) (isRunning a) (captureMode a)
              (starting a) None (exited a) (effects a ++ [ConsoleError]))
  end.

(** [start()] up to [await this.webcam.initialize(...)]; [screenOk] tells
    whether [screen.initialize()] returns or throws, [dims] is what
    [screen.getVideoDimensions()] answers. *)
Definition start_begin (screenOk : bool) (dims : Z * Z) (a : t) : t :=
  if screenOk then
    mk (renderer a)
       (Some (Controls.setup handler (Some Quit) (Some SaveSnapshot)
                (Some ToggleLogs) None None (Controls.new handler)))
       (isRunning a) (captureMode a) true (quitting a) (exited a)
       (effects a ++ [ScreenInitialize; WebcamInitialize (fst dims) (snd dims)])
  else
    quit_begin 1 (emit [ScreenInitialize; ConsoleError] a).

(** The rest of [start] once [webcam.initialize] has settled: with the
    capture mode, or rejected ([None]); [renderOk] tells whether the final
    [screen.render()] returns or throws. *)
Definition start_resume (result : option HybridCapture.mode_t)
           (renderOk : bool) (a : t) : t :=
  if negb (starting a) then a
  else
    match result with
    | None =>
        quit_begin 1
          (mk (renderer a) (controls a) (isRunning a) (captureMode a) false
              (quitting a) (exited a) (effects a ++ [ConsoleError]))
    | Some m =>
        let a1 :=
          mk true (controls a) true (Some m) false (quitting a) (exited a)
             (effects a ++ [RendererStart; ScreenRender]) in
        if renderOk then a1 else quit_begin 1 (emit [ConsoleError] a1)
    end.

Definition onFrame (frame : jsstring) (a : t) : t :=
  if negb (isRunning a) then a else emit [ScreenUpdateVideo frame] a.

Definition onStats (a : t) : t :=
  if negb (isRunning a) then a else emit [ScreenUpdateStats] a.

Definition toggleLogs (a : t) : t :=
  if renderer a then emit [TogglePerfLogging] a else a.

(** What a key handler of the controls sets off in the application. *)
Definition perform (act : Controls.action handler) (a : t) : t :=
  match act with
  | Controls.Call _ Quit => quit_begin 0 a
  | Controls.Call _ SaveSnapshot => emit [SaveSnapshotCalled] a
  | Controls.Call _ ToggleLogs => toggleLogs a
  | Controls.EmitHelpToggle _ _ => emit [ScreenToggleHelp] a
  end.

Definition key (k : string) (a : t) : t :=
  match controls a with
  | None => a
  | Some c =>
      let (c1, acts) := Controls.press handler k c in
      fold_left (fun a act => perform act a) acts
        (mk (renderer a) (Some c1) (isRunning a) (captureMode a)
            (starting a) (quitting a) (exited a) (effects a))
  end.

Inductive event :=
| Key (k : string)
| Signal                  (* SIGINT or SIGTERM *)
| Uncaught                (* uncaughtException or unhandledRejection *)
| InitDone (result : option HybridCapture.mode_t) (renderOk : bool)
| CleanupDone (ok : bool)
| Frame (frame : jsstring)   (* the renderer delivers a frame *)
| Stats.                     (* the renderer reports its statistics *)

(** Nothing runs after [process.exit]. *)
Definition step (ev : event) (a : t) : t :=
  match exited a with
  | Some _ => a
  | None =>
      match ev with
      | Key k => key k a
      | Signal => quit_begin 0 a
      | Uncaught => quit_begin 1 (emit [ConsoleError] a)
      | InitDone result renderOk => start_resume result renderOk a
      | CleanupDone ok => quit_finish ok a
      | Frame frame => onFrame frame a
      | Stats => onStats a
      end
  end.

Definition run (evs : list event) (a : t) : t :=
  fold_left (fun a ev => step ev a) evs a.

(** The calls by which the application shuts down. *)
Definition is_shutdown (e : effect) : bool :=
  match e with
  | RendererStop | WebcamCleanup | ScreenDestroy | ProcessExit _ => true
  | _ => false
  end.

End App.

(** ** Concrete inputs used by the examples below *)
Module Examples.

(** A clock that stands still. *)
Definition clock : nat -> Z := fun _ => 0%Z.

(** A hardware source initialised for frames of 2 by 2 pixels and
    started, as [HybridCapture.initialize] does it. *)
Definition source_2x2 : FFmpegCapture.t :=
  FFmpegCapture.start
    (fst (FFmpegCapture.initialize 2 2 true
            (FFmpegCapture.new clock FFmpegCapture.linux))).

(** Eight bytes in chunks of 3 and 5. *)
Definition chunks_3_5 : list bytes :=
  [[x01; x02; x03]; [x04; x05; x06; x07; x08]].

(** A ramp of 52 distinct glyphs: the code units 0 to 51. *)
Definition ramp_52 : jsstring := map N.of_nat (seq 0 52).

(** The lengths of the ramps of [characterSets]. *)
Definition shipped_lengths : list Z := [5; 9; 10; 5; 70; 8; 11; 9; 6; 3]%Z.

Definition all_bytes : list Z := map Z.of_nat (seq 0 256).

(** The supervisor after [initialize(2, 2)] found ffmpeg. *)
Definition hybrid_started : HybridCapture.t :=
  fst (HybridCapture.initialize clock FFmpegCapture.linux 2 2 true
         HybridCapture.new).

(** One frame of 2 by 2 arrives, the child process exits, and the terminal
    is then resized to 3 by 3. *)
Definition hybrid_crashed_resized : option HybridCapture.t :=
  option_map
    (fun s => HybridCapture.updateResolution 3 3 (HybridCapture.on_close s))
    (HybridCapture.on_data clock [x01; x02; x03; x04] hybrid_started).

(** The same without the exit of the child process. *)
Definition hybrid_resized : option HybridCapture.t :=
  option_map (HybridCapture.updateResolution 3 3)
    (HybridCapture.on_data clock [x01; x02; x03; x04] hybrid_started).

(** Two resizes in a row: after the first one the 'close' event of the
    killed child arrives, the new child delivers a frame of 3 by 3, and the
    terminal is resized again, to 4 by 4. *)
Definition hybrid_resized_twice : option HybridCapture.t :=
  match hybrid_resized with
  | None => None
  | Some s =>
      option_map (HybridCapture.updateResolution 4 4)
        (HybridCapture.on_data clock
           [x01; x02; x03; x04; x05; x06; x07; x08; x09]
           (HybridCapture.on_close s))
  end.

(** A history of a hardware source: two resizes, with the 'close' event of
    the first child in between. *)
Definition history : list FFmpegHistory.event :=
  [FFmpegHistory.Initialize 2 2 true; FFmpegHistory.Start;
   FFmpegHistory.Data [x01; x02; x03; x04];
   FFmpegHistory.UpdateResolution 3 3; FFmpegHistory.Closed;
   FFmpegHistory.Data [x01; x02; x03; x04; x05; x06; x07; x08; x09];
   FFmpegHistory.UpdateResolution 4 4; FFmpegHistory.Cleanup].

Definition history_end : FFmpegCapture.t :=
  match FFmpegHistory.run clock history
          (FFmpegCapture.new clock FFmpegCapture.linux) with
  | Some s => s
  | None => FFmpegCapture.new clock FFmpegCapture.linux
  end.

(** A software source that is initialised and capturing. *)
Definition software_started : WebcamCapture.t :=
  WebcamCapture.startContinuousCapture
    (WebcamCapture.initialize (Some 80%Z) (Some 24%Z) WebcamCapture.new).

(** A [sharp] that rejects whatever it is given. *)
Definition failing_sharp : bytes -> Z -> Z -> jsstring + (bytes * (Z * Z)) :=
  fun _ _ _ => inl (of_ascii "bad").

(** Two bytes that are not an image. *)
Definition malformed : bytes := [xff; xd8].

(** A converter as [TerminalRenderer] constructs it. *)
Definition fresh_converter : ImageConverter.t :=
  ImageConverter.new ImageConverter.default_ramp.

(** A tick that sees a raw frame of one pixel and takes no time. *)
Definition reading0 : TerminalRenderer.reading :=
  TerminalRenderer.mkReading 0 0 0 (1, 1)%Z 0.

Definition resumption0 : TerminalRenderer.resumption :=
  TerminalRenderer.mkResumption 0 false 0 (Some HybridCapture.hardware) 0.

(** The scheduler right after [start], with the default configuration. *)
Definition loop0 : TerminalRenderer.loop :=
  TerminalRenderer.mkLoop
    (TerminalRenderer.start 0 (TerminalRenderer.new Config.default 0)) [].



(** Three timeouts fire while no conversion has completed yet. *)
Definition overlapping_events : list TerminalRenderer.event :=
  repeat (TerminalRenderer.Fire (Some malformed) reading0) 3.

(** A tick in a terminal of six columns and three rows: the dimension
    provider of the application answers 6 - 2 by 3 - 4. *)
Definition reading_negative : TerminalRenderer.reading :=
  TerminalRenderer.mkReading 0 0 0 (4, -1)%Z 0.

(** A renderer is started, one timeout fires in that terminal with a frame
    that is not an image, and the conversion settles. *)
Definition lossy_history : list RendererHistory.command :=
  [RendererHistory.Start 0;
   RendererHistory.Loop (TerminalRenderer.Fire (Some malformed)
                           reading_negative);
   RendererHistory.Loop (TerminalRenderer.Resume resumption0)].

End Examples.

(** ** Vocabulary of the statements *)

(** [chopped n buf frames rest]: [buf] is [frames], each of [n] bytes,
    followed by fewer than [n] bytes. *)
Definition chopped (n : nat) (buf : bytes) (frames : list bytes)
           (rest : bytes) : Prop :=
  buf = concat frames ++ rest
  /\ Forall (fun f => length f = n) frames
  /\ length rest < n.

(** What the demultiplexing loop leaves alone. *)
Definition same_process (s s' : FFmpegCapture.t) : Prop :=
  FFmpegCapture.ffmpeg s' = FFmpegCapture.ffmpeg s
  /\ FFmpegCapture.isRunning s' = FFmpegCapture.isRunning s
  /\ FFmpegCapture.width s' = FFmpegCapture.width s
  /\ FFmpegCapture.height s' = FFmpegCapture.height s
  /\ FFmpegCapture.bytesPerFrame s' = FFmpegCapture.bytesPerFrame s
  /\ FFmpegCapture.effects s' = FFmpegCapture.effects s.

(** The frame slot of the hardware source agrees with its dimensions: the
    frame length is [width * height] and a published frame has that
    length. *)
Definition frame_ok (s : FFmpegCapture.t) : Prop :=
  FFmpegCapture.bytesPerFrame s = FFmpegCapture.width s * FFmpegCapture.height s
  /\ forall f, FFmpegCapture.getLatestFrame s = Some f ->
               length f = FFmpegCapture.width s * FFmpegCapture.height s.

(** The number of timeouts that fire in a list of events. *)
Definition fires (evs : list TerminalRenderer.event) : nat :=
  length (filter (fun ev => match ev with
                            | TerminalRenderer.Fire _ _ => true
                            | _ => false
                            end) evs).

(** The scheduler is alive: it is running and a timeout is pending. *)
Definition alive (s : TerminalRenderer.t) : Prop :=
  TerminalRenderer.isRunning s = true /\ TerminalRenderer.timers s <> [].

(** Process hygiene of a hardware source: child handles are fresh (each is
    below the length of the effect list) and never reused, no child is
    signalled twice, every signal goes to a child spawned before it, and the
    handle the object holds is that of a child spawned and not signalled. *)
Definition hygienic (s : FFmpegCapture.t) : Prop :=
  (forall pid, In pid (FFmpegHistory.spawned (FFmpegCapture.effects s)) ->
               pid < length (FFmpegCapture.effects s))
  /\ NoDup (FFmpegHistory.spawned (FFmpegCapture.effects s))
  /\ NoDup (FFmpegHistory.killed (FFmpegCapture.effects s))
  /\ (forall i pid,
         nth_error (FFmpegCapture.effects s) i = Some (FFmpegCapture.Kill pid) ->
         In pid (FFmpegHistory.spawned (firstn i (FFmpegCapture.effects s))))
  /\ (forall pid,
         FFmpegCapture.ffmpeg s = Some pid ->
         In pid (FFmpegHistory.spawned (FFmpegCapture.effects s))
         /\ ~ In pid (FFmpegHistory.killed (FFmpegCapture.effects s))).

(** The buffer that a list of calls leaves published: that of the last
    successful acquisition, or the one published before. *)
Definition last_acquired (calls : list WebcamCapture.call)
           (before : option bytes) : option bytes :=
  fold_left (fun acc c => match c with
                          | WebcamCapture.Iterate (WebcamCapture.Acquired data) =>
                              Some data
                          | _ => acc
                          end) calls before.

(** No call of the list asks the loop to stop. *)
Definition never_stopped (calls : list WebcamCapture.call) : Prop :=
  Forall (fun c => c <> WebcamCapture.CallStop) calls.

(** The capture loop can make an acquisition: it has not been asked to stop,
    none is outstanding and there is a driver. *)
Definition loop_ready (s : WebcamCapture.t) : Prop :=
  WebcamCapture.continuousMode s = true
  /\ WebcamCapture.captureInProgress s = false
  /\ WebcamCapture.webcam s <> None.


(** A hardware session in order: the supervisor is in hardware mode, holds
    no software source, and its hardware source has the supervisor's
    dimensions, both positive, and their product as frame length. *)
Definition hardware_session (s : HybridCapture.t) : Prop :=
  HybridCapture.mode s = Some HybridCapture.hardware
  /\ HybridCapture.activeCapture s = Some HybridCapture.hardware
  /\ HybridCapture.softwareCapture s = None
  /\ 0 < HybridCapture.width s /\ 0 < HybridCapture.height s
  /\ exists ff,
      HybridCapture.ffmpegCapture s = Some ff
      /\ FFmpegCapture.width ff = HybridCapture.width s
      /\ FFmpegCapture.height ff = HybridCapture.height s
      /\ FFmpegCapture.bytesPerFrame ff
         = HybridCapture.width s * HybridCapture.height s.

(** [s'] has the schedule of [s]: the same running flag, pending timeouts
    and number of ticks begun. *)
Definition same_schedule (s s' : TerminalRenderer.t) : Prop :=
  TerminalRenderer.isRunning s' = TerminalRenderer.isRunning s
  /\ TerminalRenderer.timers s' = TerminalRenderer.timers s
  /\ TerminalRenderer.timeoutId s' = TerminalRenderer.timeoutId s
  /\ TerminalRenderer.ticks s' = TerminalRenderer.ticks s.

(** The renderer holds at most one pending timeout: a running one holds
    exactly the one whose identity it remembers, a stopped one holds none. *)
Definition single_timer (s : TerminalRenderer.t) : Prop :=
  match TerminalRenderer.timeoutId s with
  | Some id =>
      TerminalRenderer.isRunning s = true /\ TerminalRenderer.timers s = [id]
  | None =>
      TerminalRenderer.isRunning s = false /\ TerminalRenderer.timers s = []
  end.

(** [s'] is [s] after the effects [ex], with the same schedule and the
    same display callback. *)
Definition adds (ex : list TerminalRenderer.effect)
           (s s' : TerminalRenderer.t) : Prop :=
  TerminalRenderer.effects s' = TerminalRenderer.effects s ++ ex
  /\ TerminalRenderer.isRunning s' = TerminalRenderer.isRunning s
  /\ TerminalRenderer.timers s' = TerminalRenderer.timers s
  /\ TerminalRenderer.timeoutId s' = TerminalRenderer.timeoutId s
  /\ TerminalRenderer.onFrameCallback s' = TerminalRenderer.onFrameCallback s.

(** What the continuation of a suspended tick hands to the display
    callback. *)
Definition delivery (k : TerminalRenderer.suspended) (s : TerminalRenderer.t)
  : list TerminalRenderer.effect :=
  match TerminalRenderer.s_conversion k with
  | ImageConverter.Resolved frame =>
      if TerminalRenderer.onFrameCallback s
      then [TerminalRenderer.OnFrame frame] else []
  | ImageConverter.Rejected => []
  end.

(** Every conversion begun is accounted for: the frames handed to the
    display callback and the ticks still suspended are at most the
    conversions begun, the conversions that are neither are at most the
    errors logged, and no tick converts more than once. *)
Definition accounted (l : TerminalRenderer.loop) : Prop :=
  RendererHistory.count RendererHistory.is_OnFrame (TerminalRenderer.renderer l)
  + length (TerminalRenderer.awaiting l)
  <= RendererHistory.count RendererHistory.is_Convert
       (TerminalRenderer.renderer l)
  /\ RendererHistory.count RendererHistory.is_Convert
       (TerminalRenderer.renderer l)
     <= RendererHistory.count RendererHistory.is_OnFrame
          (TerminalRenderer.renderer l)
        + length (TerminalRenderer.awaiting l)
        + RendererHistory.count RendererHistory.is_ConsoleError
            (TerminalRenderer.renderer l)
  /\ RendererHistory.count RendererHistory.is_Convert
       (TerminalRenderer.renderer l)
     <= TerminalRenderer.ticks (TerminalRenderer.renderer l).

(** No conversion has been lost: every suspended tick holds a frame, and
    the frames handed to the display callback and the ticks still suspended
    are exactly the conversions begun. *)
Definition none_lost (l : TerminalRenderer.loop) : Prop :=
  Forall (fun k => TerminalRenderer.s_conversion k
                   <> ImageConverter.Rejected)
         (TerminalRenderer.awaiting l)
  /\ RendererHistory.count RendererHistory.is_OnFrame
       (TerminalRenderer.renderer l)
     + length (TerminalRenderer.awaiting l)
     = RendererHistory.count RendererHistory.is_Convert
         (TerminalRenderer.renderer l).

(** The manager's index is one of the table. *)
Definition in_table (s : CharacterSetManager.t) : Prop :=
  (0 <= CharacterSetManager.currentIndex s
   < CharacterSetManager.table_length)%Z.

(** A ramp the converter can draw grids with: not empty, of a length that
    is a binary64 integer, and without a line feed. *)
Definition drawable (ramp : jsstring) : bool :=
  (1 <=? length ramp) && (Z.of_nat (length ramp) <=? 2 ^ 53)%Z
  && negb (existsb (N.eqb LF) ramp).

(** The screen is in order: its widgets exist, a render is scheduled exactly
    when one [setImmediate] callback is pending, and when none is scheduled
    nothing is pending and the last render painted what the widgets hold. *)
Definition batched (s : Screen.t) : Prop :=
  Screen.screen s = true
  /\ Screen.videoBox s <> None
  /\ Screen.statusBar s <> None
  /\ Screen.immediates s = (if Screen.renderScheduled s then 1 else 0)
  /\ (Screen.renderScheduled s = false ->
      Screen.pendingVideo s = false /\ Screen.pendingStats s = false
      /\ last (Screen.renders s) (None, None)
         = (Screen.videoBox s, Screen.statusBar s)).

(** The controls as the application sets them up: no callback for the keys
    of the character sets. *)
Definition no_charset_callbacks (a : App.t) : Prop :=
  match App.controls a with
  | None => True
  | Some c =>
      Controls.onNextCharsetCallback App.handler c = None
      /\ Controls.onPrevCharsetCallback App.handler c = None
  end.

(** The application is not running, has no renderer, waits for nothing and
    has neither exited nor made any of the calls of a shutdown. *)
Definition stuck (a : App.t) : Prop :=
  App.isRunning a = false /\ App.renderer a = false
  /\ App.starting a = false /\ App.quitting a = None
  /\ App.exited a = None
  /\ filter App.is_shutdown (App.effects a) = [].

(** The glyph of a pixel as a single code unit. *)
Definition glyph_unit (ramp : jsstring) (pixelData : bytes) (i : nat) : N :=
  hd SP (ImageConverter.glyph ramp (nth_error pixelData i)).

(** * Properties *)

(** ** The demultiplexer of the hardware source *)
Section Demux.
Import FFmpegCapture.
Variable now : nat -> Z.

Lemma chopped_app n a b f1 r1 f2 r2 :
  chopped n a f1 r1 -> chopped n (r1 ++ b) f2 r2 ->
  chopped n (a ++ b) (f1 ++ f2) r2.
Proof.
  intros (Ha & Hf1 & _) (Hb & Hf2 & Hr2).
  repeat split; auto using Forall_app.
  - rewrite Ha, concat_app, <- !app_assoc. now rewrite <- Hb, app_assoc.
  - apply Forall_app; auto.
Qed.

Lemma concat_uniform_length n (frames : list bytes) :
  Forall (fun f => length f = n) frames ->
  length (concat frames) = length frames * n.
Proof.
  induction 1 as [|f fs Hf _ IH]; simpl; auto.
  rewrite length_app, IH, Hf. reflexivity.
Qed.

Lemma chopped_exact n k buf frames rest :
  chopped n buf frames rest -> length buf = k * n ->
  length frames = k /\ rest = [].
Proof.
  intros (Hbuf & Hf & Hr) Hlen.
  rewrite Hbuf, length_app, (concat_uniform_length n frames Hf) in Hlen.
  assert (Hk : length frames = k) by nia.
  split; auto. subst k.
  destruct rest; auto. simpl in Hlen. lia.
Qed.

Lemma nth_slice_0 n (f l : bytes) :
  length f = n -> nth_slice n 0 (f ++ l) = f.
Proof.
  intros H. unfold nth_slice. simpl.
  rewrite firstn_app, <- H, firstn_all, Nat.sub_diag. simpl.
  apply app_nil_r.
Qed.

Lemma nth_slice_S n i (f l : bytes) :
  length f = n -> nth_slice n (S i) (f ++ l) = nth_slice n i l.
Proof.
  intros H. unfold nth_slice.
  replace (S i * n) with (length f + i * n) by (simpl; lia).
  now rewrite skipn_app, skipn_all2, Nat.add_comm, Nat.add_sub by lia.
Qed.

Lemma slices_of_concat n (frames : list bytes) rest :
  Forall (fun f => length f = n) frames ->
  map (fun i => nth_slice n i (concat frames ++ rest))
      (seq 0 (length frames)) = frames.
Proof.
  induction 1 as [|f fs Hf _ IH]; simpl; auto.
  rewrite <- app_assoc, nth_slice_0 by exact Hf. f_equal.
  rewrite <- seq_shift, map_map.
  rewrite <- IH at 2. apply map_ext. intros i.
  apply nth_slice_S, Hf.
Qed.

Lemma last_nonempty {A} (l : list A) : forall x d d',
  last (x :: l) d = last (x :: l) d'.
Proof.
  induction l as [|y l IH]; intros x d d'; [reflexivity|].
  change (last (y :: l) d = last (y :: l) d'). apply IH.
Qed.

Lemma last_append {A} (l1 l2 : list A) : forall d,
  last (l1 ++ l2) d = last l2 (last l1 d).
Proof.
  induction l1 as [|x l1 IH]; intros d; [reflexivity|].
  destruct l1 as [|y l1].
  - destruct l2 as [|a l2]; [reflexivity|].
    change (last (a :: l2) d = last (a :: l2) x). apply last_nonempty.
  - change (last ((y :: l1) ++ l2) d = last l2 (last (y :: l1) d)).
    apply IH.
Qed.

Lemma extractFrames_more fuel s :
  bytesPerFrame s <= length (incompleteBuffer s) ->
  extractFrames now (S fuel) s =
  match extractFrames now fuel (fst (extractOne now s)) with
  | Some (s2, frames) => Some (s2, snd (extractOne now s) :: frames)
  | None => None
  end.
Proof.
  intros H. apply Nat.leb_le in H. simpl. rewrite H. reflexivity.
Qed.

Lemma extractFrames_done fuel s :
  length (incompleteBuffer s) < bytesPerFrame s ->
  extractFrames now fuel s = Some (s, []).
Proof.
  intros H. apply Nat.leb_gt in H. destruct fuel; simpl; now rewrite H.
Qed.

Lemma extractFrames_chopped fuel : forall s,
  0 < bytesPerFrame s ->
  length (incompleteBuffer s) < fuel ->
  exists s' frames,
    extractFrames now fuel s = Some (s', frames)
    /\ chopped (bytesPerFrame s) (incompleteBuffer s) frames
               (incompleteBuffer s')
    /\ same_process s s'
    /\ currentBuffer s' = last (map Some frames) (currentBuffer s).
Proof.
  induction fuel as [|fuel IH]; intros s Hpos Hfuel; [lia|].
  destruct (Nat.le_gt_cases (bytesPerFrame s) (length (incompleteBuffer s)))
    as [Hle|Hlt].
  - rewrite (extractFrames_more fuel s Hle).
    destruct (IH (fst (extractOne now s)))
      as (s' & fs & Hrun & (Hbuf & Hall & Hrest) & Hsame & Hcur).
    + exact Hpos.
    + cbn [extractOne fst incompleteBuffer]. rewrite length_skipn. lia.
    + rewrite Hrun. cbn [extractOne fst snd] in *.
      cbn [incompleteBuffer bytesPerFrame currentBuffer] in *.
      exists s', (firstn (bytesPerFrame s) (incompleteBuffer s) :: fs).
      split; [reflexivity|].
      split; [split; [|split]|split].
      * cbn [concat]. rewrite <- app_assoc, <- Hbuf.
        symmetry. apply firstn_skipn.
      * constructor; auto. rewrite length_firstn. lia.
      * exact Hrest.
      * exact Hsame.
      * rewrite Hcur. destruct fs as [|f fs]; [reflexivity|].
        cbn [map].
        change (last (Some f :: map Some fs)
                     (Some (firstn (bytesPerFrame s) (incompleteBuffer s)))
                = last (Some f :: map Some fs) (currentBuffer s)).
        apply last_nonempty.
  - rewrite (extractFrames_done (S fuel) s Hlt).
    exists s, []. repeat split; auto.
Qed.

Lemma handleFrameData_chopped chunk s :
  0 < bytesPerFrame s ->
  exists s' frames,
    _handleFrameData now chunk s = Some (s', frames)
    /\ chopped (bytesPerFrame s) (incompleteBuffer s ++ chunk) frames
               (incompleteBuffer s')
    /\ same_process s s'
    /\ currentBuffer s' = last (map Some frames) (currentBuffer s).
Proof.
  intros Hpos. unfold _handleFrameData.
  destruct (extractFrames_chopped
              (S (length (incompleteBuffer (append chunk s)))) (append chunk s))
    as (s' & fs & H); simpl; auto.
  exists s', fs. exact H.
Qed.

Lemma feed_chopped chunks : forall s,
  0 < bytesPerFrame s ->
  length (incompleteBuffer s) < bytesPerFrame s ->
  exists s' frames,
    feed now chunks s = Some (s', frames)
    /\ chopped (bytesPerFrame s) (incompleteBuffer s ++ concat chunks) frames
               (incompleteBuffer s')
    /\ same_process s s'
    /\ currentBuffer s' = last (map Some frames) (currentBuffer s).
Proof.
  induction chunks as [|c rest IH]; intros s Hpos Hcarry.
  - exists s, []. simpl. rewrite app_nil_r.
    repeat split; auto.
  - destruct (handleFrameData_chopped c s Hpos)
      as (s1 & f1 & Hrun1 & Hch1 & Hsame1 & Hcur1).
    assert (Hbpf : bytesPerFrame s1 = bytesPerFrame s) by apply Hsame1.
    destruct (IH s1) as (s2 & f2 & Hrun2 & Hch2 & Hsame2 & Hcur2).
    + lia.
    + rewrite Hbpf. apply Hch1.
    + exists s2, (f1 ++ f2). simpl. rewrite Hrun1, Hrun2.
      split; [reflexivity|]. rewrite Hbpf in Hch2.
      split; [|split].
      * rewrite app_assoc. eapply chopped_app; eauto.
      * unfold same_process in *. intuition congruence.
      * rewrite Hcur2, Hcur1, map_app. symmetry. apply last_append.
Qed.

(** Publishing keeps the slot in agreement with the dimensions. *)
Lemma handleFrameData_frame_ok chunk s :
  0 < bytesPerFrame s -> frame_ok s ->
  exists s' frames,
    _handleFrameData now chunk s = Some (s', frames) /\ frame_ok s'.
Proof.
  intros Hpos [Hbpf Hslot].
  destruct (handleFrameData_chopped chunk s Hpos)
    as (s' & frames & Hrun & (_ & Hall & _) & Hsame & Hcur).
  exists s', frames. split; [exact Hrun|].
  destruct Hsame as (_ & _ & Hw & Hh & Hb & _).
  split; [congruence|]. intros f Hf.
  unfold getLatestFrame in *. rewrite Hcur in Hf. rewrite Hw, Hh, <- Hbpf.
  destruct frames as [|f0 fs].
  - cbn in Hf. rewrite Hbpf. apply Hslot, Hf.
  - destruct (@exists_last _ (f0 :: fs)) as (front & lastf & E);
      [discriminate|].
    rewrite E, map_app, last_append in Hf. cbn in Hf.
    injection Hf as <-. rewrite E, Forall_app in Hall.
    destruct Hall as [_ Hl]. now inversion Hl.
Qed.

(** Without a frame length the loop never ends. *)
Lemma extractFrames_zero_diverges fuel : forall s,
  bytesPerFrame s = 0 -> extractFrames now fuel s = None.
Proof.
  induction fuel as [|fuel IH]; intros s H0; simpl; rewrite H0; simpl; auto.
  rewrite IH; auto.
Qed.

End Demux.

(** C1. For all [w, h > 0], [initialize] sets the frame length to [w * h];
    a hardware source with that frame length and an empty carry-over buffer
    that receives a stream of exactly [k * w * h] bytes, cut into chunks in
    any way, publishes exactly [k] frames, the [i]-th one being the [i]-th
    consecutive slice of [w * h] bytes of the stream, keeps the last one in
    its frame slot and ends with an empty carry-over buffer; and after any
    single chunk, from any state, fewer than [w * h] bytes are carried
    over. *)
Theorem demux_any_chunking (now : nat -> Z) (w h k : nat)
        (s : FFmpegCapture.t) (chunks : list bytes) :
  0 < w -> 0 < h ->
  FFmpegCapture.bytesPerFrame s = w * h ->
  FFmpegCapture.incompleteBuffer s = [] ->
  length (concat chunks) = k * (w * h) ->
  (forall a s0,
      FFmpegCapture.bytesPerFrame (fst (FFmpegCapture.initialize w h a s0))
      = w * h)
  /\ (exists s',
         FFmpegCapture.feed now chunks s
         = Some (s', map (fun i => FFmpegCapture.nth_slice (w * h) i
                                     (concat chunks)) (seq 0 k))
         /\ FFmpegCapture.incompleteBuffer s' = []
         /\ (0 < k ->
             FFmpegCapture.getLatestFrame s'
             = Some (FFmpegCapture.nth_slice (w * h) (k - 1) (concat chunks))))
  /\ (forall i, i < k ->
         length (FFmpegCapture.nth_slice (w * h) i (concat chunks)) = w * h)
  /\ (forall chunk s1,
         FFmpegCapture.bytesPerFrame s1 = w * h ->
         exists s2 frames,
           FFmpegCapture._handleFrameData now chunk s1 = Some (s2, frames)
           /\ length (FFmpegCapture.incompleteBuffer s2) < w * h).
Proof.
  intros Hw Hh Hbpf Hempty Hlen.
  assert (Hpos : 0 < w * h) by nia.
  split; [reflexivity|].
  destruct (feed_chopped now chunks s) as (s' & frames & Hrun & Hch & _ & Hcur);
    try (rewrite ?Hbpf, ?Hempty; simpl; lia).
  rewrite Hbpf, Hempty in Hch. simpl in Hch.
  destruct (chopped_exact _ _ _ _ _ Hch Hlen) as [Hk Hrest].
  destruct Hch as (Hbuf & Hall & _).
  assert (Hframes :
            map (fun i => FFmpegCapture.nth_slice (w * h) i (concat chunks))
                (seq 0 k) = frames).
  { rewrite Hbuf, <- Hk. apply slices_of_concat, Hall. }
  split; [|split].
  - exists s'. rewrite Hframes. repeat split; auto.
    intros Hk0. unfold FFmpegCapture.getLatestFrame. rewrite Hcur.
    rewrite <- Hframes, map_map.
    replace k with (S (k - 1)) at 1 by lia.
    rewrite seq_S, map_app. simpl. now rewrite last_append.
  - intros i Hi.
    assert (Hin : In (FFmpegCapture.nth_slice (w * h) i (concat chunks)) frames).
    { rewrite <- Hframes. apply in_map_iff. exists i. split; auto.
      apply in_seq. lia. }
    rewrite Forall_forall in Hall. apply Hall, Hin.
  - intros chunk s1 Hbpf1.
    destruct (handleFrameData_chopped now chunk s1)
      as (s2 & fs & Hrun2 & (_ & _ & Hlt) & _); [lia|].
    exists s2, fs. split; auto. now rewrite <- Hbpf1.
Qed.

(** The example of the specification: frames of 4 bytes, a chunk of 3 bytes
    and then one of 5. *)
Lemma demux_any_chunking_witness :
  exists s',
    FFmpegCapture.feed Examples.clock Examples.chunks_3_5 Examples.source_2x2
    = Some (s', [[x01; x02; x03; x04]; [x05; x06; x07; x08]])
    /\ FFmpegCapture.incompleteBuffer s' = [].
Proof.
  destruct (demux_any_chunking Examples.clock 2 2 2 Examples.source_2x2
                               Examples.chunks_3_5)
    as (_ & (s' & Hrun & Hrest & _) & _);
    [lia | lia | reflexivity | reflexivity | reflexivity |].
  exists s'. split; [exact Hrun | exact Hrest].
Defined.

(** ** Rounding to binary64 *)
Section Rounding.
Import Binary64.
Local Open Scope Z_scope.
Local Open Scope Q_scope.

Lemma rne_div_spec n d :
  (- Zpos d <= 2 * (rne_div n d * Zpos d - n) <= Zpos d)%Z
  /\ ((2 * (rne_div n d * Zpos d - n) = Zpos d
       \/ 2 * (rne_div n d * Zpos d - n) = - Zpos d)%Z ->
      Z.even (rne_div n d) = true).
Proof.
  unfold rne_div.
  pose proof (Z.div_mod n (Zpos d) ltac:(lia)) as Hdm.
  pose proof (Z.mod_pos_bound n (Zpos d) ltac:(lia)) as Hr.
  set (q := (n / Zpos d)%Z) in *. set (r := (n mod Zpos d)%Z) in *.
  destruct (Z.compare_spec (2 * r) (Zpos d)) as [He|Hl|Hg].
  - destruct (Z.even q) eqn:Ev.
    + split; [nia|]. intros _. exact Ev.
    + split; [nia|]. intros _. rewrite Z.even_add, Ev. reflexivity.
  - split; [nia|]. intros [H|H]; exfalso; nia.
  - split; [nia|]. intros [H|H]; exfalso; nia.
Qed.

Lemma rne_monotone x y : x <= y -> (rne x <= rne y)%Z.
Proof.
  destruct x as [n1 d1], y as [n2 d2]. unfold Qle, rne. simpl. intros Hle.
  destruct (rne_div_spec n1 d1) as [[_ Hu1] Ht1].
  destruct (rne_div_spec n2 d2) as [[Hl2 _] Ht2].
  set (a1 := rne_div n1 d1) in *. set (a2 := rne_div n2 d2) in *.
  destruct (Z_le_gt_dec a1 a2) as [|Hgt]; auto. exfalso.
  assert (H1 : (2 * a1 * Zpos d1 * Zpos d2 - 2 * n1 * Zpos d2 <= Zpos d1 * Zpos d2)%Z) by nia.
  assert (H2 : (2 * n2 * Zpos d1 - 2 * a2 * Zpos d1 * Zpos d2 <= Zpos d1 * Zpos d2)%Z) by nia.
  assert (Hd : (0 < Zpos d1 * Zpos d2)%Z) by lia.
  assert (Ha : (a1 = a2 + 1)%Z) by nia.
  assert (E1 : (2 * (a1 * Zpos d1 - n1) = Zpos d1)%Z) by nia.
  assert (E2 : (2 * (a2 * Zpos d2 - n2) = - Zpos d2)%Z) by nia.
  specialize (Ht1 (or_introl E1)). specialize (Ht2 (or_intror E2)).
  rewrite Ha, Z.even_add, Ht2 in Ht1. discriminate.
Qed.

Lemma rne_integer x k : x == inject_Z k -> rne x = k.
Proof.
  destruct x as [n d]. unfold Qeq, rne. simpl. intros He.
  destruct (rne_div_spec n d) as [[Hl Hu] _].
  set (a := rne_div n d) in *. nia.
Qed.

Lemma pow2_pos e : 0 < pow2 e.
Proof. apply Qpower_0_lt. reflexivity. Qed.

Lemma pow2_add a b : pow2 (a + b) == pow2 a * pow2 b.
Proof. apply Qpower_plus. discriminate. Qed.

Lemma pow2_sub a b : pow2 (a - b) == pow2 a / pow2 b.
Proof. apply Qpower_minus. discriminate. Qed.

Lemma pow2_Z a : (0 <= a)%Z -> pow2 a == inject_Z (2 ^ a).
Proof. intros H. unfold pow2. now rewrite Zpower_Qpower. Qed.

Lemma pow2_le a b : (a <= b)%Z -> pow2 a <= pow2 b.
Proof. intros H. apply Qpower_le_compat_l; auto. discriminate. Qed.

Lemma pow2_lt a b : (a < b)%Z -> pow2 a < pow2 b.
Proof. intros H. apply Qpower_lt_compat_l; auto. reflexivity. Qed.

Lemma pow2_lt_inv a b : pow2 a < pow2 b -> (a < b)%Z.
Proof.
  intros H. destruct (Z_lt_le_dec a b) as [|Hge]; auto.
  apply pow2_le in Hge. lra.
Qed.

Lemma pow2_succ a : pow2 (a + 1) == 2 * pow2 a.
Proof. rewrite pow2_add. change (pow2 1) with 2. ring. Qed.

(** Comparison of a dyadic ratio with a fraction, on integers. *)
Lemma pow2_ratio_le a b n d :
  (0 <= a)%Z -> (0 <= b)%Z ->
  (2 ^ a * Zpos d <= n * 2 ^ b)%Z -> pow2 (a - b) <= n # d.
Proof.
  intros Ha Hb H. rewrite pow2_sub, !pow2_Z by auto.
  assert (Hp : (0 < 2 ^ b)%Z) by (apply Z.pow_pos_nonneg; lia).
  apply Qle_shift_div_r.
  - change 0 with (inject_Z 0). rewrite <- Zlt_Qlt. exact Hp.
  - unfold Qle, Qmult, inject_Z. simpl. lia.
Qed.

Lemma pow2_ratio_gt a b n d :
  (0 <= a)%Z -> (0 <= b)%Z ->
  (n * 2 ^ b < 2 ^ a * Zpos d)%Z -> n # d < pow2 (a - b).
Proof.
  intros Ha Hb H. rewrite pow2_sub, !pow2_Z by auto.
  assert (Hp : (0 < 2 ^ b)%Z) by (apply Z.pow_pos_nonneg; lia).
  apply Qlt_shift_div_l.
  - change 0 with (inject_Z 0). rewrite <- Zlt_Qlt. exact Hp.
  - unfold Qlt, Qmult, inject_Z. simpl. lia.
Qed.

Lemma ilog2_spec x : 0 < x -> pow2 (ilog2 x) <= x /\ x < pow2 (ilog2 x + 1).
Proof.
  destruct x as [n d]. intros Hx.
  assert (Hn : (0 < n)%Z) by (unfold Qlt in Hx; simpl in Hx; lia).
  unfold ilog2. cbn [Qnum Qden].
  pose proof (Z.log2_spec n Hn) as [Hn1 Hn2].
  pose proof (Z.log2_spec (Zpos d) ltac:(lia)) as [Hd1 Hd2].
  pose proof (Z.log2_nonneg n) as Hln.
  pose proof (Z.log2_nonneg (Zpos d)) as Hld.
  set (ln := Z.log2 n) in *. set (ld := Z.log2 (Zpos d)) in *.
  assert (Hup : n # d < pow2 (ln - ld + 1)).
  { replace (ln - ld + 1)%Z with (ln + 1 - ld)%Z by lia.
    apply pow2_ratio_gt; try lia.
    replace (ln + 1)%Z with (Z.succ ln) by lia. nia. }
  assert (Hlow : pow2 (ln - ld - 1) <= n # d).
  { replace (ln - ld - 1)%Z with (ln - (ld + 1))%Z by lia.
    apply pow2_ratio_le; try lia.
    replace (ld + 1)%Z with (Z.succ ld) by lia. nia. }
  destruct (Qle_bool (pow2 (ln - ld)) (n # d)) eqn:E.
  - apply Qle_bool_iff in E. split; auto.
  - split; auto.
    replace (ln - ld - 1 + 1)%Z with (ln - ld)%Z by lia.
    apply Qnot_le_lt. intros H. apply Qle_bool_iff in H. congruence.
Qed.

Lemma ilog2_unique x e : pow2 e <= x -> x < pow2 (e + 1) -> ilog2 x = e.
Proof.
  intros H1 H2.
  assert (Hx : 0 < x) by (pose proof (pow2_pos e); lra).
  destruct (ilog2_spec x Hx) as [H3 H4].
  assert (e < ilog2 x + 1)%Z by (apply pow2_lt_inv; lra).
  assert (ilog2 x < e + 1)%Z by (apply pow2_lt_inv; lra).
  lia.
Qed.

Lemma ilog2_monotone x y : 0 < x -> x <= y -> (ilog2 x <= ilog2 y)%Z.
Proof.
  intros Hx Hxy.
  destruct (ilog2_spec x Hx) as [H1 _].
  destruct (ilog2_spec y ltac:(lra)) as [_ H2].
  assert (ilog2 x < ilog2 y + 1)%Z by (apply pow2_lt_inv; lra).
  lia.
Qed.

Lemma rne_near x : - (1 # 2) <= inject_Z (rne x) - x <= 1 # 2.
Proof.
  destruct x as [n d]. unfold rne. cbn [Qnum Qden].
  destruct (rne_div_spec n d) as [[Hl Hu] _].
  set (a := rne_div n d) in *.
  unfold Qle, Qminus, Qplus, Qopp, inject_Z. simpl. split; nia.
Qed.

Lemma scaled_bounds x :
  0 < x ->
  pow2 52 <= x / pow2 (ilog2 x - 52) /\ x / pow2 (ilog2 x - 52) < pow2 53.
Proof.
  intros Hx. destruct (ilog2_spec x Hx) as [H1 H2].
  pose proof (pow2_pos (ilog2 x - 52)) as HP.
  assert (E1 : pow2 (ilog2 x) == pow2 52 * pow2 (ilog2 x - 52)).
  { rewrite <- pow2_add. now replace (52 + (ilog2 x - 52))%Z with (ilog2 x) by lia. }
  assert (E2 : pow2 (ilog2 x + 1) == pow2 53 * pow2 (ilog2 x - 52)).
  { rewrite <- pow2_add. now replace (53 + (ilog2 x - 52))%Z with (ilog2 x + 1)%Z by lia. }
  split.
  - apply Qle_shift_div_l; auto. now rewrite <- E1.
  - apply Qlt_shift_div_r; auto. now rewrite <- E2.
Qed.

Lemma rne_scaled x :
  0 < x -> (2 ^ 52 <= rne (x / pow2 (ilog2 x - 52)) <= 2 ^ 53)%Z.
Proof.
  intros Hx. destruct (scaled_bounds x Hx) as [H1 H2].
  rewrite (pow2_Z 52) in H1 by lia. rewrite (pow2_Z 53) in H2 by lia.
  pose proof (rne_monotone _ _ H1) as R1.
  pose proof (rne_monotone _ _ (Qlt_le_weak _ _ H2)) as R2.
  rewrite (rne_integer (inject_Z (2 ^ 52)) (2 ^ 52)) in R1 by reflexivity.
  rewrite (rne_integer (inject_Z (2 ^ 53)) (2 ^ 53)) in R2 by reflexivity.
  split; assumption.
Qed.

Lemma round_pos_eq x :
  round_pos x
  == inject_Z (rne (x / pow2 (ilog2 x - 52))) * pow2 (ilog2 x - 52).
Proof. unfold round_pos. apply Qred_correct. Qed.

Lemma round_pos_bounds x :
  0 < x ->
  pow2 (ilog2 x) <= round_pos x /\ round_pos x <= pow2 (ilog2 x + 1).
Proof.
  intros Hx. rewrite round_pos_eq.
  destruct (rne_scaled x Hx) as [H1 H2].
  pose proof (pow2_pos (ilog2 x - 52)) as HP.
  rewrite Zle_Qle in H1, H2.
  rewrite <- (pow2_Z 52) in H1 by lia. rewrite <- (pow2_Z 53) in H2 by lia.
  assert (E1 : pow2 (ilog2 x) == pow2 52 * pow2 (ilog2 x - 52)).
  { rewrite <- pow2_add. now replace (52 + (ilog2 x - 52))%Z with (ilog2 x) by lia. }
  assert (E2 : pow2 (ilog2 x + 1) == pow2 53 * pow2 (ilog2 x - 52)).
  { rewrite <- pow2_add. now replace (53 + (ilog2 x - 52))%Z with (ilog2 x + 1)%Z by lia. }
  rewrite E1, E2. split; apply Qmult_le_compat_r; auto; lra.
Qed.

Lemma round_pos_positive x : 0 < x -> 0 < round_pos x.
Proof.
  intros Hx. destruct (round_pos_bounds x Hx) as [H _].
  pose proof (pow2_pos (ilog2 x)). lra.
Qed.

Lemma round_pos_monotone x y : 0 < x -> x <= y -> round_pos x <= round_pos y.
Proof.
  intros Hx Hxy. assert (Hy : 0 < y) by lra.
  pose proof (ilog2_monotone x y Hx Hxy) as Hl.
  destruct (Z.eq_dec (ilog2 x) (ilog2 y)) as [E|N].
  - rewrite !round_pos_eq, E.
    pose proof (pow2_pos (ilog2 y - 52)) as HP.
    apply Qmult_le_compat_r; [|lra].
    rewrite <- Zle_Qle. apply rne_monotone.
    apply Qmult_le_compat_r; auto.
    apply Qlt_le_weak, Qinv_lt_0_compat, HP.
  - destruct (round_pos_bounds x Hx) as [_ H1].
    destruct (round_pos_bounds y Hy) as [H2 _].
    assert (pow2 (ilog2 x + 1) <= pow2 (ilog2 y)) by (apply pow2_le; lia).
    lra.
Qed.

Lemma round_pos_error x :
  0 < x ->
  Qabs (round_pos x - x) <= pow2 (ilog2 x - 53)
  /\ pow2 (ilog2 x - 53) <= x * pow2 (-53).
Proof.
  intros Hx. destruct (ilog2_spec x Hx) as [H1 _].
  pose proof (pow2_pos (ilog2 x - 52)) as HP.
  pose proof (pow2_pos (-53)) as HQ.
  assert (E1 : pow2 (ilog2 x - 53) == (1 # 2) * pow2 (ilog2 x - 52)).
  { replace (ilog2 x - 52)%Z with (ilog2 x - 53 + 1)%Z by lia.
    rewrite pow2_succ. ring. }
  assert (E2 : pow2 (ilog2 x - 53) == pow2 (ilog2 x) * pow2 (-53)).
  { rewrite <- pow2_add. now replace (ilog2 x + -53)%Z with (ilog2 x - 53)%Z by lia. }
  split.
  - rewrite round_pos_eq, E1.
    pose proof (rne_near (x / pow2 (ilog2 x - 52))) as [Hl Hu].
    set (a := inject_Z (rne (x / pow2 (ilog2 x - 52)))) in *.
    assert (Ex : x == (x / pow2 (ilog2 x - 52)) * pow2 (ilog2 x - 52)).
    { field. lra. }
    set (s := x / pow2 (ilog2 x - 52)) in *.
    set (P := pow2 (ilog2 x - 52)) in *.
    apply Qabs_Qle_condition. split.
    + rewrite Ex at 1. nra.
    + rewrite Ex at 1. nra.
  - rewrite E2. apply Qmult_le_compat_r; lra.
Qed.

Lemma fl_positive x : 0 < x -> fl x = round_pos x.
Proof.
  destruct x as [[|n|n] d]; intros H; try reflexivity;
    unfold Qlt in H; simpl in H; lia.
Qed.

Lemma fl_zero x : x == 0 -> fl x = 0.
Proof.
  destruct x as [[|n|n] d]; intros H; try reflexivity;
    unfold Qeq in H; simpl in H; lia.
Qed.

Lemma fl_negative x : x < 0 -> fl x = - round_pos (- x).
Proof.
  destruct x as [[|n|n] d]; intros H; try reflexivity;
    unfold Qlt in H; simpl in H; lia.
Qed.

Lemma fl_monotone x y : x <= y -> fl x <= fl y.
Proof.
  intros Hxy.
  destruct (Q_dec x 0) as [[Hx|Hx]|Hx], (Q_dec y 0) as [[Hy|Hy]|Hy];
    rewrite ?(fl_negative x), ?(fl_negative y), ?(fl_positive x),
            ?(fl_positive y), ?(fl_zero x), ?(fl_zero y) by assumption;
    try lra.
  - apply Qopp_le_compat, round_pos_monotone; lra.
  - pose proof (round_pos_positive (- x)). pose proof (round_pos_positive y). lra.
  - pose proof (round_pos_positive (- x)). lra.
  - now apply round_pos_monotone.
  - pose proof (round_pos_positive y). lra.
Qed.

Lemma fl_integer k : (0 <= k < 2 ^ 53)%Z -> fl (inject_Z k) == inject_Z k.
Proof.
  intros [H0 H53].
  destruct (Z.eq_dec k 0) as [->|Hk]; [reflexivity|].
  assert (Hx : 0 < inject_Z k).
  { change 0 with (inject_Z 0). rewrite <- Zlt_Qlt. lia. }
  rewrite fl_positive, round_pos_eq by exact Hx.
  destruct (ilog2_spec _ Hx) as [H1 _].
  assert (Hl : (ilog2 (inject_Z k) < 53)%Z).
  { apply pow2_lt_inv. rewrite (pow2_Z 53) by lia.
    rewrite Zlt_Qlt in H53. lra. }
  set (e := (ilog2 (inject_Z k) - 52)%Z) in *.
  assert (He : pow2 e == / pow2 (- e)).
  { unfold pow2. rewrite <- Qpower_opp. now rewrite Z.opp_involutive. }
  assert (Hs : inject_Z k / pow2 e == inject_Z (k * 2 ^ (- e))).
  { rewrite inject_Z_mult, <- pow2_Z by lia. rewrite He. field.
    pose proof (pow2_pos (- e)). lra. }
  rewrite (rne_integer _ _ Hs), inject_Z_mult, <- pow2_Z by lia.
  rewrite He. field. pose proof (pow2_pos (- e)). lra.
Qed.

Lemma fl_nonneg x : 0 <= x -> 0 <= fl x.
Proof. intros H. apply (fl_monotone 0 x H). Qed.

Lemma fl_error x : 0 <= x -> Qabs (fl x - x) <= x * pow2 (-53).
Proof.
  intros H. destruct (Qle_lt_or_eq _ _ H) as [Hx|Hx].
  - rewrite fl_positive by exact Hx.
    destruct (round_pos_error x Hx) as [H1 H2]. lra.
  - rewrite fl_zero by (now symmetry). rewrite <- Hx.
    setoid_replace (0 - 0) with 0 by ring. simpl. lra.
Qed.

End Rounding.

(** ** The brightness ramp *)
Section Ramp.
Import Binary64 ImageConverter.
Local Open Scope Z_scope.
Local Open Scope Q_scope.

Lemma brightnessIndex_unfold b L :
  brightnessIndex b L = Qfloor (fl (fl (inject_Z b / 255) * inject_Z (L - 1))).
Proof. reflexivity. Qed.

Lemma quotient_unit_interval b :
  (0 <= b <= 255)%Z -> 0 <= fl (inject_Z b / 255) <= 1.
Proof.
  intros [H0 H255]. rewrite Zle_Qle in H0, H255.
  change (inject_Z 0) with 0 in H0. change (inject_Z 255) with 255 in H255.
  assert (Hx : 0 <= inject_Z b / 255 <= 1).
  { split.
    - apply Qle_shift_div_l; lra.
    - apply Qle_shift_div_r; lra. }
  split.
  - apply fl_nonneg, Hx.
  - rewrite <- (fl_integer 1) by lia. apply fl_monotone, Hx.
Qed.

Lemma brightnessIndex_range b L :
  (0 <= b <= 255)%Z -> (1 <= L <= 2 ^ 53)%Z ->
  (0 <= brightnessIndex b L <= L - 1)%Z.
Proof.
  intros Hb HL. rewrite brightnessIndex_unfold.
  destruct (quotient_unit_interval b Hb) as [Hq0 Hq1].
  set (q := fl (inject_Z b / 255)) in *.
  assert (Hk : 0 <= inject_Z (L - 1)).
  { change 0 with (inject_Z 0). rewrite <- Zle_Qle. lia. }
  split.
  - rewrite <- (Qfloor_Z 0). apply Qfloor_resp_le, fl_nonneg. nra.
  - rewrite <- (Qfloor_Z (L - 1)) at 2. apply Qfloor_resp_le.
    rewrite <- (fl_integer (L - 1)) at 2 by lia.
    apply fl_monotone. nra.
Qed.

Lemma brightnessIndex_monotone b b' L :
  (b <= b')%Z -> (1 <= L)%Z ->
  (brightnessIndex b L <= brightnessIndex b' L)%Z.
Proof.
  intros Hb HL. rewrite !brightnessIndex_unfold.
  apply Qfloor_resp_le, fl_monotone.
  assert (Hk : 0 <= inject_Z (L - 1)).
  { change 0 with (inject_Z 0). rewrite <- Zle_Qle. lia. }
  apply Qmult_le_compat_r; auto.
  apply fl_monotone. rewrite Zle_Qle in Hb.
  apply Qmult_le_compat_r; auto. discriminate.
Qed.

Lemma Qfloor_unique x f : inject_Z f <= x -> x < inject_Z (f + 1) -> Qfloor x = f.
Proof.
  intros H1 H2.
  pose proof (Qfloor_le x) as H3. pose proof (Qlt_floor x) as H4.
  assert (Qfloor x < f + 1)%Z by (rewrite Zlt_Qlt; lra).
  assert (f < Qfloor x + 1)%Z by (rewrite Zlt_Qlt; lra).
  lia.
Qed.

Lemma brightnessIndex_close b L :
  (0 <= b <= 255)%Z -> (1 <= L <= 2 ^ 32)%Z ->
  Qabs (fl (fl (inject_Z b / 255) * inject_Z (L - 1))
        - inject_Z (b * (L - 1)) / 255) <= 1 # 1000.
Proof.
  intros Hb HL.
  destruct (quotient_unit_interval b Hb) as [Hq0 Hq1].
  assert (Hx0 : 0 <= inject_Z b / 255 <= 1).
  { destruct Hb as [H0 H255]. rewrite Zle_Qle in H0, H255.
    change (inject_Z 0) with 0 in H0. change (inject_Z 255) with 255 in H255.
    split; [apply Qle_shift_div_l | apply Qle_shift_div_r]; lra. }
  pose proof (fl_error (inject_Z b / 255) (proj1 Hx0)) as E1.
  set (x0 := inject_Z b / 255) in *. set (q := fl x0) in *.
  assert (Hk : 0 <= inject_Z (L - 1) <= 4294967296).
  { change 0 with (inject_Z 0). change 4294967296 with (inject_Z (2 ^ 32)).
    rewrite <- !Zle_Qle. lia. }
  set (k := inject_Z (L - 1)) in *.
  assert (Hy : 0 <= q * k) by nra.
  pose proof (fl_error (q * k) Hy) as E2.
  set (p := fl (q * k)) in *.
  assert (Ev : inject_Z (b * (L - 1)) / 255 == x0 * k).
  { unfold x0, k. rewrite inject_Z_mult. field. }
  rewrite Ev.
  assert (Eu : pow2 (-53) == 1 # 9007199254740992) by reflexivity.
  rewrite Eu in E1, E2.
  apply Qabs_Qle_condition in E1. apply Qabs_Qle_condition in E2.
  apply Qabs_Qle_condition.
  destruct E1 as [E1l E1u], E2 as [E2l E2u].
  assert (Hqk : q * k <= 2 * k) by nra.
  assert (Hd : - (k * (1 # 9007199254740992)) <= q * k - x0 * k
               <= k * (1 # 9007199254740992)) by (split; nra).
  assert (He : - (2 * k * (1 # 9007199254740992)) <= p - q * k
               <= 2 * k * (1 # 9007199254740992)) by (split; nra).
  split; lra.
Qed.

Lemma brightnessIndex_exact b L :
  (0 <= b <= 255)%Z -> (1 <= L <= 2 ^ 32)%Z ->
  brightnessIndex b L = exactIndex b L
  \/ (((b * (L - 1)) mod 255 = 0)%Z
      /\ brightnessIndex b L = (exactIndex b L - 1)%Z).
Proof.
  intros Hb HL. pose proof (brightnessIndex_close b L Hb HL) as Hc.
  rewrite brightnessIndex_unfold. unfold exactIndex.
  set (p := fl (fl (inject_Z b / 255) * inject_Z (L - 1))) in *.
  pose proof (Z.div_mod (b * (L - 1)) 255 ltac:(lia)) as Hdm.
  pose proof (Z.mod_pos_bound (b * (L - 1)) 255 ltac:(lia)) as Hr.
  set (F := (b * (L - 1) / 255)%Z) in *.
  set (r := ((b * (L - 1)) mod 255)%Z) in *.
  assert (Ev : inject_Z (b * (L - 1)) / 255
               == inject_Z F + inject_Z r * (1 # 255)).
  { rewrite Hdm, inject_Z_plus, inject_Z_mult. change (inject_Z 255) with 255.
    field. }
  rewrite Ev in Hc. apply Qabs_Qle_condition in Hc. destruct Hc as [Hl Hu].
  assert (Hr' : 0 <= inject_Z r <= 254).
  { change 0 with (inject_Z 0). change 254 with (inject_Z 254).
    rewrite <- !Zle_Qle. lia. }
  destruct (Z.eq_dec r 0) as [E0|N0].
  - rewrite E0 in Hl, Hu. change (inject_Z 0) with 0 in Hl, Hu.
    destruct (Qlt_le_dec p (inject_Z F)) as [Hlt|Hge].
    + right. split; auto. apply Qfloor_unique.
      * assert (E : inject_Z (F - 1) == inject_Z F - 1).
        { unfold Z.sub. rewrite inject_Z_plus. reflexivity. }
        rewrite E. lra.
      * replace (F - 1 + 1)%Z with F by lia. exact Hlt.
    + left. apply Qfloor_unique; auto.
      rewrite inject_Z_plus. change (inject_Z 1) with 1. lra.
  - left. assert (Hr1 : 1 <= inject_Z r).
    { change 1 with (inject_Z 1). rewrite <- Zle_Qle. lia. }
    apply Qfloor_unique.
    + lra.
    + rewrite inject_Z_plus. change (inject_Z 1) with 1. lra.
Qed.

Lemma byte_range (b : byte) : (0 <= Z.of_N (Byte.to_N b) <= 255)%Z.
Proof. pose proof (Byte.to_N_bounded b). lia. Qed.

(** With a ramp that is not empty every byte has a glyph of one code unit,
    the ramp entry at the byte's index. *)
Lemma glyph_defined (ramp : jsstring) (b : byte) :
  (1 <= Z.of_nat (length ramp) <= 2 ^ 53)%Z ->
  exists c,
    glyph ramp (Some b) = [c]
    /\ nth_error ramp
         (Z.to_nat (brightnessIndex (Z.of_N (Byte.to_N b))
                                    (Z.of_nat (length ramp)))) = Some c.
Proof.
  intros HL. pose proof (byte_range b) as Hb.
  pose proof (brightnessIndex_range _ _ Hb HL) as Hrange.
  unfold glyph, charAt.
  set (i := brightnessIndex _ _) in *.
  destruct (Z.ltb_spec i 0) as [Hneg|_]; [lia|].
  destruct (nth_error ramp (Z.to_nat i)) as [c|] eqn:E.
  - exists c. split; reflexivity.
  - apply nth_error_None in E. lia.
Qed.

End Ramp.

(** On the ramps the program ships, the double-precision index is the exact
    one for every byte, and the hardware floats agree with the rational
    model. *)
Lemma shipped_ramps_exact :
  forallb (fun L =>
    forallb (fun b =>
      Z.eqb (ImageConverter.brightnessIndex b L) (ImageConverter.exactIndex b L)
      && Z.eqb (ImageConverter.brightnessIndex_prim b L)
               (ImageConverter.brightnessIndex b L))
      Examples.all_bytes) Examples.shipped_lengths = true.
Proof. vm_compute. reflexivity. Qed.

(** C4, as stated, fails: with a ramp of 52 glyphs the exact value of
    [155 / 255 * 51] is 31, but the converter, computing in double
    precision, selects the glyph at index 30 (on hardware floats too). *)
Lemma brightness_index_not_exact :
  ImageConverter.exactIndex 155 52 = 31%Z
  /\ ImageConverter.brightnessIndex 155 52 = 30%Z
  /\ ImageConverter.brightnessIndex_prim 155 52 = 30%Z
  /\ ImageConverter.glyph Examples.ramp_52 (Some x9b) = [30%N]
  /\ nth_error Examples.ramp_52
       (Z.to_nat (ImageConverter.exactIndex 155 52)) = Some 31%N.
Proof. vm_compute. repeat split; reflexivity. Qed.

(** C4, amended. For every brightness byte [b] and every ramp of length
    [2 <= L < 2^53], the converter maps the pixel to the ramp glyph at the
    index [floor (fl (fl (b / 255) * (L - 1)))], every operation rounded to
    double precision; that index lies in [0, L-1] and is monotonically
    non-decreasing in [b]; for ramps of at most [2^32] glyphs it is
    [floor (b * (L-1) / 255)] or, only when 255 divides [b * (L-1)], one less;
    for the ramp [" ░▒▓█"] the bytes 0, 128 and 255 give [' '], ['▒'] and
    ['█']. *)
Theorem brightness_to_glyph (ramp : jsstring) (b b' : byte) :
  2 <= length ramp ->
  (Z.of_nat (length ramp) <= 2 ^ 53)%Z ->
  (exists c,
      ImageConverter.glyph ramp (Some b) = [c]
      /\ nth_error ramp
           (Z.to_nat (ImageConverter.brightnessIndex
                        (Z.of_N (Byte.to_N b)) (Z.of_nat (length ramp))))
         = Some c)
  /\ (0 <= ImageConverter.brightnessIndex
             (Z.of_N (Byte.to_N b)) (Z.of_nat (length ramp))
       <= Z.of_nat (length ramp) - 1)%Z
  /\ ((Byte.to_N b <= Byte.to_N b')%N ->
      (ImageConverter.brightnessIndex
         (Z.of_N (Byte.to_N b)) (Z.of_nat (length ramp))
       <= ImageConverter.brightnessIndex
            (Z.of_N (Byte.to_N b')) (Z.of_nat (length ramp)))%Z)
  /\ ((Z.of_nat (length ramp) <= 2 ^ 32)%Z ->
      ImageConverter.brightnessIndex
        (Z.of_N (Byte.to_N b)) (Z.of_nat (length ramp))
      = ImageConverter.exactIndex
          (Z.of_N (Byte.to_N b)) (Z.of_nat (length ramp))
      \/ ((Z.of_N (Byte.to_N b) * (Z.of_nat (length ramp) - 1)) mod 255 = 0
          /\ ImageConverter.brightnessIndex
               (Z.of_N (Byte.to_N b)) (Z.of_nat (length ramp))
             = ImageConverter.exactIndex
                 (Z.of_N (Byte.to_N b)) (Z.of_nat (length ramp)) - 1)%Z)
  /\ ImageConverter.glyph ImageConverter.default_ramp (Some x00) = [32%N]
  /\ ImageConverter.glyph ImageConverter.default_ramp (Some x80) = [9618%N]
  /\ ImageConverter.glyph ImageConverter.default_ramp (Some xff) = [9608%N].
Proof.
  intros HL2 HL53.
  pose proof (byte_range b) as Hb.
  assert (Hrange :
            (0 <= ImageConverter.brightnessIndex
                    (Z.of_N (Byte.to_N b)) (Z.of_nat (length ramp))
             <= Z.of_nat (length ramp) - 1)%Z)
    by (apply brightnessIndex_range; lia).
  split; [|split; [exact Hrange|split; [|split]]].
  - apply glyph_defined. lia.
  - intros Hle. apply brightnessIndex_monotone; lia.
  - intros HL32. apply brightnessIndex_exact; lia.
  - vm_compute. repeat split; reflexivity.
Qed.

Lemma brightness_to_glyph_witness :
  exists c,
    ImageConverter.glyph ImageConverter.default_ramp (Some x80) = [c]
    /\ nth_error ImageConverter.default_ramp
         (Z.to_nat (ImageConverter.brightnessIndex 128 5)) = Some c.
Proof.
  apply (brightness_to_glyph ImageConverter.default_ramp x80 xff);
    [simpl; lia | simpl; lia].
Defined.

(** ** The converter *)
Section Converter.
Import ImageConverter.
Variable sharp : bytes -> Z -> Z -> jsstring + (bytes * (Z * Z)).

(** No method of the converter assigns [mode]: it stays ['auto']. *)
Lemma mode_never_changes (s : t) (src : option bytes) (w h : Z)
      (ramp : jsstring) :
  mode (new ramp) = auto
  /\ mode (setCharacterRamp ramp s) = mode s
  /\ mode (fst (convertToTerminal sharp src w h s)) = mode s.
Proof.
  repeat split. unfold convertToTerminal.
  destruct src as [src|]; [|reflexivity]. cbn [mode].
  destruct (_ && _); [reflexivity|].
  destruct (sharp src w h) as [msg|[data [iw ih]]]; reflexivity.
Qed.

Lemma concat_singletons {A B} (f : A -> list B) (g : A -> B) (l : list A) :
  (forall a, In a l -> f a = [g a]) -> concat (map f l) = map g l.
Proof.
  induction l as [|a l IH]; intros H; [reflexivity|].
  cbn [map concat]. rewrite (H a (or_introl eq_refl)), IH.
  - reflexivity.
  - intros a' Ha'. apply H. now right.
Qed.

Lemma rowChars_units (ramp : jsstring) (pixelData : bytes) (w h y : nat) :
  (1 <= Z.of_nat (length ramp) <= 2 ^ 53)%Z ->
  length pixelData = w * h -> y < h ->
  rowChars ramp pixelData w y
  = map (fun x => glyph_unit ramp pixelData (y * w + x)) (seq 0 w).
Proof.
  intros HL Hlen Hy. unfold rowChars. apply concat_singletons.
  intros x Hx. apply in_seq in Hx. unfold glyph_unit.
  destruct (nth_error pixelData (y * w + x)) as [b|] eqn:E.
  - destruct (glyph_defined ramp b HL) as (c & Hc & _). now rewrite Hc.
  - apply nth_error_None in E. nia.
Qed.



Lemma split_lines_line (line rest : jsstring) :
  ~ In LF line ->
  split_lines (line ++ LF :: rest) = line :: split_lines rest.
Proof.
  induction line as [|c line IH]; intros Hno; [reflexivity|].
  cbn [app split_lines].
  destruct (N.eqb_spec c LF) as [->|_]; [exfalso; apply Hno; now left|].
  rewrite IH; [reflexivity|]. intros Hin. apply Hno. now right.
Qed.

(** The error frame exists exactly when the height is not negative. *)
Lemma createErrorFrame_some (w h : Z) (msg : jsstring) :
  (0 <= h)%Z ->
  _createErrorFrame w h msg
  = Some (repeat_unit LF (Z.to_nat (h / 2))
          ++ (repeat_unit SP
                (Z.to_nat (Z.max 0 ((w - Z.of_nat (length (of_ascii "ERROR: "
                                                            ++ msg))) / 2)))
              ++ (of_ascii "ERROR: " ++ msg) ++ [LF])
          ++ repeat_unit LF (Z.to_nat (Z.max 0 (h - h / 2 - 1)))).
Proof.
  intros Hh. unfold _createErrorFrame, repeat_count.
  destruct (Z.ltb_spec (h / 2) 0) as [Hneg|_]; [|reflexivity].
  pose proof (Z.div_pos h 2 Hh ltac:(lia)). lia.
Qed.


Lemma createErrorFrame_not_empty (w h : Z) (msg : jsstring) :
  _createErrorFrame w h msg <> Some [].
Proof.
  unfold _createErrorFrame. destruct (repeat_count LF (h / 2)); [|discriminate].
  intros H. injection H as H.
  apply app_eq_nil in H. destruct H as [_ H].
  apply app_eq_nil in H. destruct H as [H _].
  apply app_eq_nil in H. destruct H as [_ H]. discriminate.
Qed.


(** With a height that is not negative no conversion is rejected. *)
Lemma convertToTerminal_resolves (s : t) (src : option bytes) (w h : Z) :
  (0 <= h)%Z ->
  snd (convertToTerminal sharp src w h s) <> Rejected.
Proof.
  intros Hh. unfold convertToTerminal.
  destruct src as [src|]; [|discriminate].
  destruct (_ && _); [discriminate|].
  destruct (sharp src w h) as [msg|[data [iw ih]]]; [|discriminate].
  cbn [snd]. rewrite createErrorFrame_some by exact Hh. discriminate.
Qed.

End Converter.

(** C5. A raw frame of exactly [w * h] bytes is mapped to glyphs directly,
    whatever the image library would do with it: the result is [h] rows of
    [w] glyphs, row [y] holding the glyphs of the bytes [y*w .. y*w + w-1] in
    order, joined by line feeds; each glyph is the ramp entry at the byte's
    brightness index.  (The converter is in the mode it is constructed in and
    its ramp is not empty.) *)
Theorem raw_frame_direct
        (sharp : bytes -> Z -> Z -> jsstring + (bytes * (Z * Z)))
        (s : ImageConverter.t) (src : bytes) (w h : nat) :
  ImageConverter.mode s <> ImageConverter.sharp_only ->
  length src = w * h ->
  (1 <= Z.of_nat (length (ImageConverter.charRamp s)) <= 2 ^ 53)%Z ->
  exists rows,
    ImageConverter.convertToTerminal sharp (Some src)
      (Z.of_nat w) (Z.of_nat h) s
    = (ImageConverter.mk (Z.of_nat w) (Z.of_nat h) (ImageConverter.charRamp s)
                         (ImageConverter.mode s) (ImageConverter.console s),
       ImageConverter.Resolved (join [LF] rows))
    /\ rows = map (fun y =>
                     map (fun x => glyph_unit (ImageConverter.charRamp s) src
                                              (y * w + x)) (seq 0 w))
                  (seq 0 h)
    /\ length rows = h
    /\ Forall (fun r => length r = w) rows
    /\ (forall i b,
          nth_error src i = Some b ->
          nth_error (ImageConverter.charRamp s)
            (Z.to_nat (ImageConverter.brightnessIndex
                         (Z.of_N (Byte.to_N b))
                         (Z.of_nat (length (ImageConverter.charRamp s)))))
          = Some (glyph_unit (ImageConverter.charRamp s) src i)).
Proof.
  intros Hmode Hlen HL.
  eexists. split; [|split; [reflexivity|split; [|split]]].
  - unfold ImageConverter.convertToTerminal. cbn [ImageConverter.mode].
    rewrite Hlen, Nat2Z.inj_mul, Z.eqb_refl.
    destruct (ImageConverter.mode s) eqn:Em; try congruence; cbn [andb];
      unfold ImageConverter._pixelsToAscii; cbn [ImageConverter.charRamp];
      rewrite !Nat2Z.id;
      f_equal; f_equal; f_equal; apply map_ext_in; intros y Hy;
      apply in_seq in Hy; apply rowChars_units with (h := h); auto; lia.
  - now rewrite length_map, length_seq.
  - apply Forall_forall. intros r Hr. apply in_map_iff in Hr.
    destruct Hr as (y & <- & _). now rewrite length_map, length_seq.
  - intros i b Hb. unfold glyph_unit. rewrite Hb.
    destruct (glyph_defined (ImageConverter.charRamp s) b HL) as (c & Hc & Hn).
    now rewrite Hc, Hn.
Qed.

Lemma raw_frame_direct_witness :
  exists rows,
    ImageConverter.convertToTerminal Examples.failing_sharp
      (Some [x00; x80; xff; x80]) 2 2 Examples.fresh_converter
    = (ImageConverter.mk 2 2 ImageConverter.default_ramp ImageConverter.auto [],
       ImageConverter.Resolved (join [LF] rows))
    /\ rows = [[32; 9618]; [9608; 9618]]%N.
Proof.
  destruct (raw_frame_direct Examples.failing_sharp Examples.fresh_converter
                             [x00; x80; xff; x80] 2 2)
    as (rows & Hrun & Hrows & _); [discriminate | reflexivity | simpl; lia |].
  exists rows. split; [exact Hrun|]. rewrite Hrows. vm_compute. reflexivity.
Defined.

(** C10. For an absent image source [convertToTerminal] returns the empty
    string and leaves the converter as it was (nothing is logged, the cached
    dimensions are not touched); the empty string is not an error frame,
    which is never empty. *)
Theorem absent_source_empty
        (sharp : bytes -> Z -> Z -> jsstring + (bytes * (Z * Z)))
        (s : ImageConverter.t) (w h : Z) :
  ImageConverter.convertToTerminal sharp None w h s
  = (s, ImageConverter.Resolved [])
  /\ (forall w' h' msg,
         ImageConverter._createErrorFrame w' h' msg <> Some []).
Proof.
  split; [reflexivity|]. intros w' h' msg. apply createErrorFrame_not_empty.
Qed.




(** ** The frame sources *)

(** C8. For the hardware source, the software source and the supervisor,
    [updateResolution] called with the dimensions the component currently
    holds returns the component unchanged: every field is as before and no
    effect (kill, spawn, driver creation, log line) is added. *)
Theorem updateResolution_same_is_noop :
  (forall s : FFmpegCapture.t,
      FFmpegCapture.updateResolution
        (FFmpegCapture.width s) (FFmpegCapture.height s) s = s)
  /\ (forall s : WebcamCapture.t,
         WebcamCapture.updateResolution
           (Config.width (WebcamCapture.config s))
           (Config.height (WebcamCapture.config s)) s = s)
  /\ (forall s : HybridCapture.t,
         HybridCapture.updateResolution
           (HybridCapture.width s) (HybridCapture.height s) s = s).
Proof.
  repeat split; intros s.
  - unfold FFmpegCapture.updateResolution. now rewrite !Nat.eqb_refl.
  - unfold WebcamCapture.updateResolution. now rewrite !Z.eqb_refl.
  - unfold HybridCapture.updateResolution. now rewrite !Nat.eqb_refl.
Qed.





(** Where the hardware source does clear its slot: a resolution change on a
    source whose process is running leaves no frame and no carried-over
    bytes behind. *)
Lemma updateResolution_running_clears (w h : nat) (s : FFmpegCapture.t) :
  FFmpegCapture.isRunning s = true ->
  (w =? FFmpegCapture.width s) && (h =? FFmpegCapture.height s) = false ->
  FFmpegCapture.getLatestFrame (FFmpegCapture.updateResolution w h s) = None
  /\ FFmpegCapture.incompleteBuffer (FFmpegCapture.updateResolution w h s) = []
  /\ FFmpegCapture.bytesPerFrame (FFmpegCapture.updateResolution w h s) = w * h.
Proof.
  intros Hrun Hdiff. unfold FFmpegCapture.updateResolution. rewrite Hdiff.
  unfold FFmpegCapture.stop, FFmpegCapture.start. rewrite Hrun.
  repeat split.
Qed.

(** On a source whose process has exited, [stop] returns at once and the
    slot survives the resolution change. *)
Lemma updateResolution_stopped_keeps (w h : nat) (s : FFmpegCapture.t) :
  FFmpegCapture.isRunning s = false ->
  (w =? FFmpegCapture.width s) && (h =? FFmpegCapture.height s) = false ->
  FFmpegCapture.getLatestFrame (FFmpegCapture.updateResolution w h s)
  = FFmpegCapture.getLatestFrame s
  /\ FFmpegCapture.incompleteBuffer (FFmpegCapture.updateResolution w h s)
     = FFmpegCapture.incompleteBuffer s
  /\ FFmpegCapture.bytesPerFrame (FFmpegCapture.updateResolution w h s) = w * h.
Proof.
  intros Hrun Hdiff. unfold FFmpegCapture.updateResolution. rewrite Hdiff.
  unfold FFmpegCapture.stop. rewrite Hrun. cbn [negb].
  unfold FFmpegCapture.start. cbn [FFmpegCapture.isRunning]. rewrite Hrun.
  repeat split.
Qed.

(** So a resolution change keeps the slot in agreement with the dimensions
    as long as the process is running or nothing is published. *)
Lemma updateResolution_frame_ok (w h : nat) (s : FFmpegCapture.t) :
  FFmpegCapture.isRunning s = true \/ FFmpegCapture.getLatestFrame s = None ->
  frame_ok s -> frame_ok (FFmpegCapture.updateResolution w h s).
Proof.
  intros Hcase Hok.
  destruct ((w =? FFmpegCapture.width s) && (h =? FFmpegCapture.height s))
    eqn:Hdiff.
  - unfold FFmpegCapture.updateResolution. now rewrite Hdiff.
  - destruct (FFmpegCapture.isRunning s) eqn:Hrun.
    + destruct (updateResolution_running_clears w h s Hrun Hdiff)
        as (Hnone & _ & Hbpf).
      unfold frame_ok. rewrite Hnone.
      unfold FFmpegCapture.updateResolution, FFmpegCapture.stop,
        FFmpegCapture.start. rewrite Hdiff, Hrun.
      split; [reflexivity | discriminate].
    + destruct Hcase as [Hc|Hnone]; [discriminate|].
      destruct (updateResolution_stopped_keeps w h s Hrun Hdiff)
        as (Hkeep & _ & Hbpf).
      unfold frame_ok. rewrite Hkeep, Hnone.
      unfold FFmpegCapture.updateResolution, FFmpegCapture.stop,
        FFmpegCapture.start. rewrite Hdiff, Hrun. cbn [negb].
      cbn [FFmpegCapture.isRunning]. rewrite Hrun.
      split; [reflexivity | discriminate].
Qed.

(** C2 at the failing input: the supervisor is initialised at 2 by 2, one
    frame of 4 bytes is published, the child process exits, and the
    resolution is changed to 3 by 3.  The hardware source is restarted with
    the new dimensions and a frame length of 9, yet [getLatestFrame] still
    returns the 4 bytes of the old frame.  Without the exit of the process
    the same calls leave an empty slot.  The 'close' event of a child that
    [stop] itself killed has the same effect on the next resize: the frame of
    3 by 3 survives the change to 4 by 4, and the second child is never
    killed. *)
Lemma stale_frame_after_crash :
  (exists s ff,
      Examples.hybrid_crashed_resized = Some s
      /\ HybridCapture.ffmpegCapture s = Some ff
      /\ HybridCapture.activeCapture s = Some HybridCapture.hardware
      /\ (HybridCapture.width s, HybridCapture.height s) = (3, 3)
      /\ (FFmpegCapture.width ff, FFmpegCapture.height ff) = (3, 3)
      /\ FFmpegCapture.bytesPerFrame ff = 9
      /\ FFmpegCapture.isRunning ff = true
      /\ HybridCapture.getLatestFrame s = Some [x01; x02; x03; x04])
  /\ (exists s,
         Examples.hybrid_resized = Some s
         /\ HybridCapture.getLatestFrame s = None)
  /\ (exists s ff,
         Examples.hybrid_resized_twice = Some s
         /\ HybridCapture.ffmpegCapture s = Some ff
         /\ (FFmpegCapture.width ff, FFmpegCapture.height ff) = (4, 4)
         /\ FFmpegCapture.bytesPerFrame ff = 16
         /\ HybridCapture.getLatestFrame s
            = Some [x01; x02; x03; x04; x05; x06; x07; x08; x09]
         /\ filter (fun e => match e with
                             | FFmpegCapture.Kill _ => true
                             | _ => false
                             end) (FFmpegCapture.effects ff)
            = [FFmpegCapture.Kill 1]).
Proof.
  split; [|split].
  - eexists. eexists. vm_compute. repeat split; reflexivity.
  - eexists. vm_compute. repeat split; reflexivity.
  - eexists. eexists. vm_compute. repeat split; reflexivity.
Qed.

(** ** The render scheduler *)
Section Scheduler.
Import TerminalRenderer.
Variable sharp : bytes -> Z -> Z -> jsstring + (bytes * (Z * Z)).

(** What a tick does before it suspends, on a running scheduler. *)
Lemma captureAndRender_running (frame : option bytes) (r : reading) (s : t) :
  isRunning s = true ->
  exists work,
    effects (fst (_captureAndRender sharp frame r s))
    = effects s
      ++ SetTimeout (nextTimer s) (Config.delay (config s))
      :: GetLatestFrame :: work
    /\ (work = []
        \/ work = [GetDimensions;
                   Convert (fst (dimensions r)) (snd (dimensions r))])
    /\ timers (fst (_captureAndRender sharp frame r s))
       = timers s ++ [nextTimer s]
    /\ timeoutId (fst (_captureAndRender sharp frame r s))
       = Some (nextTimer s)
    /\ isRunning (fst (_captureAndRender sharp frame r s)) = true.
Proof.
  intros Hrun. unfold _captureAndRender, _scheduleNextFrame.
  rewrite Hrun. cbn [negb].
  destruct frame as [src|].
  - destruct (dimensions r) as [w h]. cbn [fst snd].
    destruct (ImageConverter.convertToTerminal _ _ _ _ _) as [c out].
    cbn [fst set_converter emit effects timers timeoutId isRunning].
    exists [GetDimensions; Convert w h].
    rewrite <- !app_assoc. cbn [app]. repeat split. now right.
  - cbn [fst emit effects timers timeoutId isRunning].
    exists []. rewrite <- !app_assoc. cbn [app]. repeat split. now left.
Qed.

Lemma ticks_emit (e : list effect) (s : t) :
  ticks (emit e s)
  = ticks s
    + length (filter (fun x => match x with GetLatestFrame => true | _ => false end) e).
Proof.
  unfold ticks, emit. cbn [effects]. now rewrite filter_app, length_app.
Qed.

Lemma same_schedule_refl (s : t) : same_schedule s s.
Proof. repeat split. Qed.

Lemma same_schedule_trans (s1 s2 s3 : t) :
  same_schedule s1 s2 -> same_schedule s2 s3 -> same_schedule s1 s3.
Proof. unfold same_schedule. intuition congruence. Qed.

Lemma emit_same_schedule (e : list effect) (s : t) :
  Forall (fun x => x <> GetLatestFrame) e -> same_schedule s (emit e s).
Proof.
  intros He. repeat split. rewrite ticks_emit.
  induction He as [|x e Hx _ IH]; [cbn; lia|].
  cbn [filter]. destruct x; cbn [length]; try exact IH. congruence.
Qed.

Lemma set_stats_same_schedule (p : perf) (s : t) :
  same_schedule s (set_stats p s).
Proof. repeat split. Qed.

Lemma trackPerformance_same_schedule
      (m : option HybridCapture.mode_t) (ct st tt : Q) (s : t) :
  same_schedule s (_trackPerformance m ct st tt s).
Proof.
  unfold _trackPerformance.
  destruct (_ && _); [|apply set_stats_same_schedule].
  eapply same_schedule_trans; [apply set_stats_same_schedule|].
  eapply same_schedule_trans; [|apply set_stats_same_schedule].
  apply emit_same_schedule. repeat constructor. discriminate.
Qed.

Lemma updateFps_same_schedule (dateNow : Z) (s : t) :
  same_schedule s (_updateFps dateNow s).
Proof.
  unfold _updateFps. destruct (_ >=? _)%Z; [|repeat split].
  repeat split. unfold ticks. cbn [effects].
  rewrite filter_app, length_app.
  destruct (onStatsCallback s); cbn; lia.
Qed.

(** The continuation of a tick touches neither the timers nor the running
    flag, and looks at no frame. *)
Lemma resume_keeps_schedule (k : suspended) (e : resumption) (s : t) :
  isRunning (resume k e s) = isRunning s
  /\ timers (resume k e s) = timers s
  /\ timeoutId (resume k e s) = timeoutId s
  /\ ticks (resume k e s) = ticks s.
Proof.
  change (same_schedule s (resume k e s)). unfold resume.
  destruct (s_conversion k) as [terminalFrame|];
    [|apply emit_same_schedule; repeat constructor; discriminate].
  assert (H1 : same_schedule s
                 (if onFrameCallback s
                  then emit [OnFrame terminalFrame] s else s)).
  { destruct (onFrameCallback s); [|apply same_schedule_refl].
    apply emit_same_schedule. repeat constructor. discriminate. }
  destruct (onFrameCallback s && onFrameThrows e).
  - eapply same_schedule_trans; [exact H1|].
    apply emit_same_schedule. repeat constructor. discriminate.
  - eapply same_schedule_trans; [exact H1|].
    eapply same_schedule_trans; [apply trackPerformance_same_schedule|].
    apply updateFps_same_schedule.
Qed.

Lemma fire_alive (frame : option bytes) (r : reading) (l : loop) :
  alive (renderer l) ->
  alive (renderer (fire sharp frame r l))
  /\ ticks (renderer (fire sharp frame r l)) = S (ticks (renderer l)).
Proof.
  intros [Hrun Htimers]. unfold fire.
  destruct (timers (renderer l)) as [|id rest] eqn:Et; [congruence|].
  set (s0 := mk _ _ _ _ _ _ _ _ _ _ _ rest _ _).
  assert (Hrun0 : isRunning s0 = true) by exact Hrun.
  destruct (captureAndRender_running frame r s0 Hrun0)
    as (work & Heff & Hwork & Htim & _ & Hrun1).
  assert (Hticks : ticks (fst (_captureAndRender sharp frame r s0))
                   = S (ticks (renderer l))).
  { unfold ticks. rewrite Heff, filter_app, length_app.
    cbn [effects s0 filter length].
    destruct Hwork as [->| ->]; cbn [filter length]; lia. }
  destruct (_captureAndRender sharp frame r s0) as [s1 [k|]];
    cbn [fst renderer] in *; (split; [split|]); auto;
    rewrite Htim; intros E; now apply app_eq_nil in E.
Qed.

Lemma step_alive (ev : event) (l : loop) :
  alive (renderer l) ->
  alive (renderer (step sharp ev l))
  /\ ticks (renderer (step sharp ev l))
     = ticks (renderer l) + fires [ev].
Proof.
  intros Halive. destruct ev as [frame r|e|]; cbn [step fires filter length].
  - destruct (fire_alive frame r l Halive) as [H1 H2]. split; auto. lia.
  - destruct (awaiting l) as [|k rest]; [split; auto; lia|].
    cbn [renderer].
    destruct (resume_keeps_schedule k e (renderer l)) as (H1 & H2 & _ & H4).
    destruct Halive as [Hrun Htim]. unfold alive.
    rewrite H1, H2, H4. repeat split; auto; lia.
  - cbn [renderer togglePerfLogging fst]. destruct Halive as [Hrun Htim].
    split; [split; assumption|]. unfold ticks. cbn [effects]. lia.
Qed.

Lemma run_alive (evs : list event) : forall l : loop,
  alive (renderer l) ->
  alive (renderer (run sharp evs l))
  /\ ticks (renderer (run sharp evs l)) = ticks (renderer l) + fires evs.
Proof.
  induction evs as [|ev evs IH]; intros l Halive.
  - split; auto.
  - destruct (step_alive ev l Halive) as [H1 H2].
    destruct (IH (step sharp ev l) H1) as [H3 H4].
    change (run sharp (ev :: evs) l) with (run sharp evs (step sharp ev l)).
    split; auto. rewrite H4, H2. unfold fires. cbn [filter].
    destruct ev; cbn [length]; lia.
Qed.

Lemma start_alive (dateNow0 : Z) (s : t) :
  isRunning s = false -> alive (start dateNow0 s).
Proof.
  intros H. unfold start, _scheduleNextFrame. rewrite H.
  cbn [isRunning negb]. split; [reflexivity|].
  cbn [timers]. intros E. now apply app_eq_nil in E.
Qed.

End Scheduler.

(** C3. Whatever has happened to a running scheduler with a pending timeout
    (timeouts firing, conversions completing or not, whatever the readings of
    the clock, hence however long a tick takes), it is still running with a
    timeout pending, and every timeout that fired began a tick; when the
    pending timeout fires, the first thing the tick does is to set the next
    timeout, with the configured delay, before it reads the frame slot, asks
    for the dimensions or starts the conversion (the display callback runs
    in the continuation, later still), and that timeout is pending when the
    timer callback returns. *)
Theorem next_tick_scheduled_first
        (sharp : bytes -> Z -> Z -> jsstring + (bytes * (Z * Z)))
        (evs : list TerminalRenderer.event) (l : TerminalRenderer.loop)
        (frame : option bytes) (r : TerminalRenderer.reading) :
  alive (TerminalRenderer.renderer l) ->
  alive (TerminalRenderer.renderer (TerminalRenderer.run sharp evs l))
  /\ TerminalRenderer.ticks
       (TerminalRenderer.renderer (TerminalRenderer.run sharp evs l))
     = TerminalRenderer.ticks (TerminalRenderer.renderer l) + fires evs
  /\ exists id rest work,
      TerminalRenderer.timers
        (TerminalRenderer.renderer (TerminalRenderer.run sharp evs l))
      = id :: rest
      /\ TerminalRenderer.effects
           (TerminalRenderer.renderer
              (TerminalRenderer.fire sharp frame r
                 (TerminalRenderer.run sharp evs l)))
         = TerminalRenderer.effects
             (TerminalRenderer.renderer (TerminalRenderer.run sharp evs l))
           ++ TerminalRenderer.SetTimeout
                (TerminalRenderer.nextTimer
                   (TerminalRenderer.renderer
                      (TerminalRenderer.run sharp evs l)))
                (Config.delay
                   (TerminalRenderer.config
                      (TerminalRenderer.renderer
                         (TerminalRenderer.run sharp evs l))))
           :: TerminalRenderer.GetLatestFrame :: work
      /\ (work = []
          \/ work = [TerminalRenderer.GetDimensions;
                     TerminalRenderer.Convert
                       (fst (TerminalRenderer.dimensions r))
                       (snd (TerminalRenderer.dimensions r))])
      /\ TerminalRenderer.timers
           (TerminalRenderer.renderer
              (TerminalRenderer.fire sharp frame r
                 (TerminalRenderer.run sharp evs l)))
         = rest
           ++ [TerminalRenderer.nextTimer
                 (TerminalRenderer.renderer
                    (TerminalRenderer.run sharp evs l))].
Proof.
  intros Halive.
  destruct (run_alive sharp evs l Halive) as [Hlive Hticks].
  split; [exact Hlive|]. split; [exact Hticks|].
  set (l1 := TerminalRenderer.run sharp evs l) in *.
  destruct Hlive as [Hrun Htimers].
  destruct (TerminalRenderer.timers (TerminalRenderer.renderer l1))
    as [|id rest] eqn:Et; [congruence|].
  exists id, rest.
  unfold TerminalRenderer.fire. rewrite Et.
  set (s0 := TerminalRenderer.mk _ _ _ _ _ _ _ _ _ _ _ rest _ _).
  destruct (captureAndRender_running sharp frame r s0 Hrun)
    as (work & Heff & Hwork & Htim & _).
  exists work.
  destruct (TerminalRenderer._captureAndRender sharp frame r s0) as [s1 [k|]];
    cbn [fst TerminalRenderer.renderer] in *;
    repeat split; auto.
Qed.

(** Three timeouts in a row fire although no conversion has completed. *)
Lemma next_tick_scheduled_first_witness :
  TerminalRenderer.ticks
    (TerminalRenderer.renderer
       (TerminalRenderer.run Examples.failing_sharp
          Examples.overlapping_events Examples.loop0))
  = TerminalRenderer.ticks (TerminalRenderer.renderer Examples.loop0) + 3.
Proof.
  apply (next_tick_scheduled_first Examples.failing_sharp
           Examples.overlapping_events Examples.loop0 None Examples.reading0).
  split; [reflexivity | discriminate].
Defined.

(** The delay of the default configuration: 1000 / 20 milliseconds. *)
Lemma default_delay : Config.delay Config.default = 50%Z.
Proof. vm_compute. reflexivity. Qed.




(** * Further properties of the sources *)

(** ** The hardware source: demultiplexing *)
Section DemuxMore.
Import FFmpegCapture.
Variable now : nat -> Z.

Lemma extractFrames_clock fuel : forall s s' frames,
  extractFrames now fuel s = Some (s', frames) ->
  clockReads s' = clockReads s + 2 * length frames
  /\ platform s' = platform s.
Proof.
  induction fuel as [|fuel IH]; intros s s' frames; cbn [extractFrames].
  - destruct (_ <=? _); [discriminate|].
    intros E. injection E as <- <-. cbn. split; [lia | reflexivity].
  - destruct (_ <=? _).
    + destruct (extractFrames now fuel (fst (extractOne now s)))
        as [[s2 fs]|] eqn:E2.
      * cbn [extractOne fst] in *. rewrite E2. intros E.
        injection E as <- <-. apply IH in E2. cbn in *.
        destruct E2 as [-> ->]. split; [lia | reflexivity].
      * cbn [extractOne fst] in *. rewrite E2. discriminate.
    + intros E. injection E as <- <-. cbn. split; [lia | reflexivity].
Qed.










End DemuxMore.



(** X2. With a positive frame length [n], a chunk of [m] bytes arriving on
    [c] carried-over bytes publishes [(c + m) / n] frames and carries
    [(c + m) mod n] bytes over, the last ones received; the clock is read
    twice per frame; the process handle, the running flag and the
    dimensions are untouched. *)
Theorem handleFrameData_counts (now : nat -> Z) (chunk : bytes)
        (s : FFmpegCapture.t) :
  0 < FFmpegCapture.bytesPerFrame s ->
  exists s' frames,
    FFmpegCapture._handleFrameData now chunk s = Some (s', frames)
    /\ length frames
       = (length (FFmpegCapture.incompleteBuffer s) + length chunk)
         / FFmpegCapture.bytesPerFrame s
    /\ length (FFmpegCapture.incompleteBuffer s')
       = (length (FFmpegCapture.incompleteBuffer s) + length chunk)
         mod FFmpegCapture.bytesPerFrame s
    /\ FFmpegCapture.incompleteBuffer s'
       = skipn (length frames * FFmpegCapture.bytesPerFrame s)
               (FFmpegCapture.incompleteBuffer s ++ chunk)
    /\ FFmpegCapture.clockReads s'
       = FFmpegCapture.clockReads s + 2 * length frames
    /\ same_process s s'.
Proof.
  intros Hpos.
  destruct (handleFrameData_chopped now chunk s Hpos)
    as (s' & frames & E & (Hbuf & Hall & Hlt) & Hsame & _).
  exists s', frames. split; [exact E|].
  pose proof (concat_uniform_length _ _ Hall) as Hlen.
  assert (Htotal : length (FFmpegCapture.incompleteBuffer s) + length chunk
                   = FFmpegCapture.bytesPerFrame s * length frames
                     + length (FFmpegCapture.incompleteBuffer s')).
  { rewrite <- length_app, Hbuf, length_app, Hlen. lia. }
  split; [|split; [|split; [|split]]].
  - eapply Nat.div_unique; [exact Hlt | exact Htotal].
  - eapply Nat.mod_unique; [exact Hlt | exact Htotal].
  - rewrite Hbuf, skipn_app, <- Hlen, skipn_all, Nat.sub_diag. reflexivity.
  - unfold FFmpegCapture._handleFrameData in E.
    apply extractFrames_clock in E. apply E.
  - exact Hsame.
Qed.

Lemma handleFrameData_counts_witness :
  exists s' frames,
    FFmpegCapture._handleFrameData Examples.clock
      [x01; x02; x03; x04; x05; x06; x07] Examples.source_2x2
    = Some (s', frames)
    /\ length frames = 1
    /\ FFmpegCapture.incompleteBuffer s' = [x05; x06; x07].
Proof.
  destruct (handleFrameData_counts Examples.clock
              [x01; x02; x03; x04; x05; x06; x07] Examples.source_2x2)
    as (s' & frames & E & Hn & _ & Hrest & _); [cbn; lia|].
  exists s', frames. split; [exact E|]. split; [exact Hn|].
  rewrite Hrest, Hn. reflexivity.
Defined.

(** X3. A source whose frame length is zero (a width or a height of 0) never
    returns from its data handler: whatever the fuel, the extraction loop is
    still running, on any chunk, the empty one included, so no later chunk is
    ever handled. *)
Theorem zero_frame_length_hangs (now : nat -> Z) (w h : nat) (a : bool)
        (s0 : FFmpegCapture.t) (chunk : bytes) (rest : list bytes) :
  w = 0 \/ h = 0 ->
  (forall fuel,
      FFmpegCapture.extractFrames now fuel
        (FFmpegCapture.append chunk
           (FFmpegCapture.start (fst (FFmpegCapture.initialize w h a s0))))
      = None)
  /\ FFmpegCapture.feed now (chunk :: rest)
       (FFmpegCapture.start (fst (FFmpegCapture.initialize w h a s0)))
     = None.
Proof.
  intros Hzero.
  assert (Hb : FFmpegCapture.bytesPerFrame
                 (FFmpegCapture.start (fst (FFmpegCapture.initialize w h a s0)))
               = 0).
  { unfold FFmpegCapture.start. cbn [FFmpegCapture.initialize fst].
    destruct (FFmpegCapture.isRunning _); cbn; nia. }
  assert (Hloop : forall fuel,
             FFmpegCapture.extractFrames now fuel
               (FFmpegCapture.append chunk
                  (FFmpegCapture.start
                     (fst (FFmpegCapture.initialize w h a s0)))) = None)
    by (intros fuel; apply extractFrames_zero_diverges; exact Hb).
  split; [exact Hloop|].
  cbn [FFmpegCapture.feed]. unfold FFmpegCapture._handleFrameData.
  now rewrite Hloop.
Qed.

Lemma zero_frame_length_hangs_witness :
  FFmpegCapture.feed Examples.clock [[]; [x01]]
    (FFmpegCapture.start
       (fst (FFmpegCapture.initialize 0 24 true
               (FFmpegCapture.new Examples.clock FFmpegCapture.linux))))
  = None.
Proof.
  apply (zero_frame_length_hangs Examples.clock 0 24 true
           (FFmpegCapture.new Examples.clock FFmpegCapture.linux) [] [[x01]]).
  now left.
Defined.

(** ** The hardware source: child processes *)
Section Hygiene.
Import FFmpegCapture FFmpegHistory.
Variable now : nat -> Z.

Lemma spawned_app e1 e2 : spawned (e1 ++ e2) = spawned e1 ++ spawned e2.
Proof. apply flat_map_app. Qed.

Lemma killed_app e1 e2 : killed (e1 ++ e2) = killed e1 ++ killed e2.
Proof. apply flat_map_app. Qed.

Lemma spawned_firstn_in i e pid :
  In pid (spawned (firstn i e)) -> In pid (spawned e).
Proof.
  intros H. rewrite <- (firstn_skipn i e), spawned_app.
  apply in_or_app. now left.
Qed.

Lemma killed_spawned e :
  (forall i pid, nth_error e i = Some (Kill pid) ->
                 In pid (spawned (firstn i e))) ->
  forall pid, In pid (killed e) -> In pid (spawned e).
Proof.
  intros H pid Hin. unfold killed in Hin. apply in_flat_map in Hin.
  destruct Hin as (x & Hx & Hpid). destruct x; cbn in Hpid; try tauto.
  destruct Hpid as [->|[]].
  apply In_nth_error in Hx. destruct Hx as [i Hi].
  eapply spawned_firstn_in, H, Hi.
Qed.

(** Appending an effect that is neither a spawn nor a kill. *)
Lemma order_app e x :
  (forall i pid, nth_error e i = Some (Kill pid) ->
                 In pid (spawned (firstn i e))) ->
  (forall pid, x = Kill pid -> In pid (spawned e)) ->
  forall i pid, nth_error (e ++ [x]) i = Some (Kill pid) ->
                In pid (spawned (firstn i (e ++ [x]))).
Proof.
  intros H Hx i pid Hi.
  destruct (Nat.lt_ge_cases i (length e)) as [Hlt|Hge].
  - rewrite nth_error_app1 in Hi by exact Hlt.
    rewrite firstn_app. replace (i - length e) with 0 by lia.
    cbn. rewrite app_nil_r. now apply H.
  - rewrite nth_error_app2 in Hi by exact Hge.
    destruct (i - length e) as [|k] eqn:Ek; cbn in Hi.
    + injection Hi as ->. replace i with (length e) by lia.
      rewrite firstn_app, firstn_all, Nat.sub_diag. cbn.
      rewrite app_nil_r. now apply Hx.
    + destruct k; discriminate.
Qed.

Lemma hygienic_effects_ffmpeg s s' :
  effects s' = effects s -> ffmpeg s' = ffmpeg s ->
  hygienic s -> hygienic s'.
Proof. unfold hygienic. intros -> ->. auto. Qed.

Lemma start_hygienic s : hygienic s -> hygienic (start s).
Proof.
  intros (Hfresh & Hs & Hk & Horder & Hheld). unfold start.
  destruct (isRunning s); [repeat split; auto; apply Hheld; auto|].
  unfold hygienic. cbn [effects ffmpeg].
  rewrite spawned_app, killed_app, length_app. cbn.
  rewrite app_nil_r.
  assert (Hnew : ~ In (length (effects s)) (spawned (effects s)))
    by (intros Hin; apply Hfresh in Hin; lia).
  split; [|split; [|split; [|split]]].
  - intros pid Hin. apply in_app_or in Hin.
    destruct Hin as [Hin|[<-|[]]]; [apply Hfresh in Hin|]; lia.
  - apply NoDup_app; [exact Hs | repeat constructor; tauto |].
    intros pid Hin [<-|[]]. exact (Hnew Hin).
  - exact Hk.
  - apply order_app; [exact Horder | discriminate].
  - intros pid E. injection E as <-. split.
    + apply in_or_app. right. now left.
    + intros Hin. apply Hnew. now apply (killed_spawned _ Horder).
Qed.

Lemma stop_hygienic s : hygienic s -> hygienic (stop s).
Proof.
  intros (Hfresh & Hs & Hk & Horder & Hheld). unfold stop.
  destruct (isRunning s); cbn [negb];
    [|repeat split; auto; apply Hheld; auto].
  unfold hygienic. cbn [effects ffmpeg].
  destruct (ffmpeg s) as [pid|] eqn:Ef.
  - destruct (Hheld pid eq_refl) as [Hsp Hnk].
    rewrite spawned_app, killed_app, length_app. cbn. rewrite app_nil_r.
    split; [|split; [|split; [|split]]].
    + intros p Hin. apply Hfresh in Hin. lia.
    + exact Hs.
    + apply NoDup_app; [exact Hk | repeat constructor; tauto |].
      intros p Hin [<-|[]]. exact (Hnk Hin).
    + apply order_app; [exact Horder|]. intros p E. now injection E as <-.
    + discriminate.
  - repeat split; auto. discriminate. discriminate.
Qed.

Lemma retarget_hygienic s w h :
  hygienic s ->
  hygienic (mk (ffmpeg s) (isRunning s) w h (w * h) (currentBuffer s)
               (frameTimestamp s) (incompleteBuffer s) (platform s)
               (framesReceived s) (lastLogTime s) (clockReads s) (effects s)).
Proof. apply hygienic_effects_ffmpeg; reflexivity. Qed.

Lemma step_hygienic e s s' :
  step now e s = Some s' -> hygienic s -> hygienic s'.
Proof.
  destruct e; cbn [step]; intros E Hs; try (injection E as <-).
  - destruct Hs as (Hfresh & Hsp & Hk & Horder & Hheld).
    unfold hygienic. cbn [initialize fst effects ffmpeg].
    rewrite spawned_app, killed_app, length_app. cbn. rewrite !app_nil_r.
    repeat split; auto; try (apply Hheld; auto).
    + intros pid Hin. apply Hfresh in Hin. lia.
    + apply order_app; [exact Horder | discriminate].
  - now apply start_hygienic.
  - now apply stop_hygienic.
  - destruct (_handleFrameData now chunk s) as [[s1 fs]|] eqn:E1;
      [|discriminate].
    cbn in E. injection E as <-.
    destruct (Nat.eq_dec (bytesPerFrame s) 0) as [E0|N0].
    + unfold _handleFrameData in E1.
      rewrite extractFrames_zero_diverges in E1 by exact E0. discriminate.
    + destruct (handleFrameData_chopped now chunk s ltac:(lia))
        as (s2 & f2 & E2 & _ & Hsame & _).
      rewrite E1 in E2. injection E2 as <- <-.
      apply (hygienic_effects_ffmpeg s); [apply Hsame | apply Hsame | exact Hs].
  - now apply (hygienic_effects_ffmpeg s).
  - now apply (hygienic_effects_ffmpeg s).
  - unfold updateResolution. destruct (_ && _); [exact Hs|].
    apply start_hygienic.
    apply (retarget_hygienic (stop s)), stop_hygienic, Hs.
  - now apply stop_hygienic.
Qed.

Lemma run_hygienic evs : forall s s',
  run now evs s = Some s' -> hygienic s -> hygienic s'.
Proof.
  induction evs as [|e evs IH]; intros s s' E Hs; cbn [run] in E.
  - now injection E as <-.
  - destruct (step now e s) as [s1|] eqn:E1; [|discriminate].
    eapply IH; [exact E | eapply step_hygienic; eauto].
Qed.

Lemma new_hygienic p : hygienic (new now p).
Proof.
  unfold hygienic. cbn. repeat split; try tauto; try constructor;
    try discriminate.
  intros i pid H. destruct i; discriminate.
Qed.

End Hygiene.

(** X4. Whatever calls and child-process events a new hardware source goes
    through (as long as its data handlers return), the handles of the
    children it spawned are pairwise distinct, no child is sent a signal
    twice, every signal goes to a child spawned before it, and the handle it
    holds belongs to a child it spawned and has not signalled. *)
Theorem child_processes_hygienic (now : nat -> Z)
        (p : FFmpegCapture.platform_t) (evs : list FFmpegHistory.event)
        (s : FFmpegCapture.t) :
  FFmpegHistory.run now evs (FFmpegCapture.new now p) = Some s ->
  NoDup (FFmpegHistory.spawned (FFmpegCapture.effects s))
  /\ NoDup (FFmpegHistory.killed (FFmpegCapture.effects s))
  /\ (forall i pid,
         nth_error (FFmpegCapture.effects s) i = Some (FFmpegCapture.Kill pid) ->
         In pid (FFmpegHistory.spawned (firstn i (FFmpegCapture.effects s))))
  /\ (forall pid,
         FFmpegCapture.ffmpeg s = Some pid ->
         In pid (FFmpegHistory.spawned (FFmpegCapture.effects s))
         /\ ~ In pid (FFmpegHistory.killed (FFmpegCapture.effects s))).
Proof.
  intros E.
  destruct (run_hygienic now evs _ _ E (new_hygienic now p))
    as (_ & H1 & H2 & H3 & H4).
  repeat split; auto; apply H4; auto.
Qed.

Lemma child_processes_hygienic_witness :
  FFmpegHistory.spawned (FFmpegCapture.effects Examples.history_end) = [1; 3; 4]
  /\ FFmpegHistory.killed (FFmpegCapture.effects Examples.history_end) = [1; 4]
  /\ NoDup (FFmpegHistory.spawned (FFmpegCapture.effects Examples.history_end)).
Proof.
  split; [vm_compute; reflexivity|]. split; [vm_compute; reflexivity|].
  assert (E : FFmpegHistory.run Examples.clock Examples.history
                (FFmpegCapture.new Examples.clock FFmpegCapture.linux)
              = Some Examples.history_end) by (vm_compute; reflexivity).
  exact (proj1 (child_processes_hygienic Examples.clock FFmpegCapture.linux
                  Examples.history Examples.history_end E)).
Defined.

(** [x] is none of the elements of an explicit list. *)
Ltac not_among :=
  let H := fresh "H" in
  intros H; cbn [In] in H;
  repeat (destruct H as [H|H]; [discriminate H|]); exact H.

(** X5. On every platform the ffmpeg command line reads the camera with a
    single [-i] option, which comes after every other input option: on
    darwin, linux and win32 the [-hwaccel] option precedes it, elsewhere
    there is none; what follows [-i] and its device is always the scaling
    to the requested [w:h], gray pixels, raw video, written to stdout. *)
Theorem ffmpeg_args_shape (s : FFmpegCapture.t) (w h : nat) :
  exists pre device,
    FFmpegCapture._getFFmpegArgs s w h
    = pre ++ ["-i"; device; "-vf";
              "scale=" ++ string_of_nat w ++ ":" ++ string_of_nat h;
              "-pix_fmt"; "gray"; "-f"; "rawvideo"; "-"]%string
    /\ ~ In "-i"%string pre
    /\ (FFmpegCapture.platform s <> FFmpegCapture.other_platform ->
        exists before method after,
          pre = before ++ ["-hwaccel"; method]%string ++ after)
    /\ (FFmpegCapture.platform s = FFmpegCapture.other_platform ->
        ~ In "-hwaccel"%string pre).
Proof.
  unfold FFmpegCapture._getFFmpegArgs.
  destruct (FFmpegCapture.platform s).
  - exists ["-hwaccel"; "videotoolbox"; "-f"; "avfoundation"; "-framerate";
            "30"; "-video_size"; "1280x720"]%string, "0"%string.
    split; [reflexivity|]. split; [not_among|].
    split; [|congruence]. intros _.
    now exists [], "videotoolbox"%string,
      ["-f"; "avfoundation"; "-framerate"; "30"; "-video_size";
       "1280x720"]%string.
  - exists ["-hwaccel"; "vaapi"; "-hwaccel_device"; "/dev/dri/renderD128";
            "-f"; "v4l2"; "-framerate"; "30"; "-video_size";
            "1280x720"]%string, "/dev/video0"%string.
    split; [reflexivity|]. split; [not_among|].
    split; [|congruence]. intros _.
    now exists [], "vaapi"%string,
      ["-hwaccel_device"; "/dev/dri/renderD128"; "-f"; "v4l2"; "-framerate";
       "30"; "-video_size"; "1280x720"]%string.
  - exists ["-hwaccel"; "dxva2"; "-f"; "dshow"; "-framerate"; "30";
            "-video_size"; "1280x720"]%string,
      ("video=" ++ dquote ++ "Integrated Camera" ++ dquote)%string.
    split; [reflexivity|]. split; [not_among|].
    split; [|congruence]. intros _.
    now exists [], "dxva2"%string,
      ["-f"; "dshow"; "-framerate"; "30"; "-video_size"; "1280x720"]%string.
  - exists ["-f"; "v4l2"; "-framerate"; "30"; "-video_size";
            "1280x720"]%string, "/dev/video0"%string.
    split; [reflexivity|]. split; [not_among|].
    split; [congruence|]. intros _. not_among.
Qed.

(** X6. A change of resolution on a running source first signals the child
    it holds and then spawns exactly one new child, with a fresh handle and
    the command line for the new dimensions; the source is running again with
    the new dimensions and frame length, an empty slot and nothing carried
    over. *)
Theorem resize_restarts_child (w h pid : nat) (s : FFmpegCapture.t) :
  FFmpegCapture.isRunning s = true ->
  FFmpegCapture.ffmpeg s = Some pid ->
  (w =? FFmpegCapture.width s) && (h =? FFmpegCapture.height s) = false ->
  FFmpegCapture.effects (FFmpegCapture.updateResolution w h s)
  = FFmpegCapture.effects s
    ++ [FFmpegCapture.Kill pid;
        FFmpegCapture.Spawn (S (length (FFmpegCapture.effects s)))
                            (FFmpegCapture._getFFmpegArgs s w h)]
  /\ FFmpegCapture.ffmpeg (FFmpegCapture.updateResolution w h s)
     = Some (S (length (FFmpegCapture.effects s)))
  /\ FFmpegCapture.isRunning (FFmpegCapture.updateResolution w h s) = true
  /\ (FFmpegCapture.width (FFmpegCapture.updateResolution w h s),
      FFmpegCapture.height (FFmpegCapture.updateResolution w h s),
      FFmpegCapture.bytesPerFrame (FFmpegCapture.updateResolution w h s))
     = (w, h, w * h)
  /\ FFmpegCapture.getLatestFrame (FFmpegCapture.updateResolution w h s) = None
  /\ FFmpegCapture.incompleteBuffer (FFmpegCapture.updateResolution w h s) = [].
Proof.
  intros Hrun Hpid Hdiff. unfold FFmpegCapture.updateResolution.
  rewrite Hdiff. unfold FFmpegCapture.stop. rewrite Hrun, Hpid. cbn [negb].
  unfold FFmpegCapture.start.
  cbn [FFmpegCapture.isRunning FFmpegCapture.effects FFmpegCapture.ffmpeg
       FFmpegCapture.width FFmpegCapture.height FFmpegCapture.bytesPerFrame
       FFmpegCapture.getLatestFrame FFmpegCapture.currentBuffer
       FFmpegCapture.incompleteBuffer].
  rewrite length_app, <- app_assoc. cbn [length app].
  rewrite Nat.add_1_r. repeat split.
Qed.

Lemma resize_restarts_child_witness :
  FFmpegHistory.killed
    (FFmpegCapture.effects
       (FFmpegCapture.updateResolution 3 3 Examples.source_2x2)) = [1]
  /\ FFmpegCapture.ffmpeg
       (FFmpegCapture.updateResolution 3 3 Examples.source_2x2) = Some 3.
Proof.
  destruct (resize_restarts_child 3 3 1 Examples.source_2x2)
    as (Heff & Hpid & _); [reflexivity | reflexivity | reflexivity |].
  rewrite Heff. split; [reflexivity | exact Hpid].
Defined.

(** ** The software source *)

(** X7. A change of resolution on the software source stores the new
    dimensions in its configuration and creates a new driver with them
    (every other option as configured), logging it; it neither stops nor
    restarts the capture loop and leaves the published frame, its path and
    its timestamp where they are. *)
Theorem software_resize_recreates_driver (w h : Z) (s : WebcamCapture.t) :
  (w =? Config.width (WebcamCapture.config s))%Z
  && (h =? Config.height (WebcamCapture.config s))%Z = false ->
  WebcamCapture.webcam (WebcamCapture.updateResolution w h s)
  = Some (WebcamCapture.mkOpts w h
            (Config.quality (WebcamCapture.config s))
            (Config.output (WebcamCapture.config s))
            (Config.device (WebcamCapture.config s)) "location" false)
  /\ (Config.width (WebcamCapture.config (WebcamCapture.updateResolution w h s)),
      Config.height (WebcamCapture.config (WebcamCapture.updateResolution w h s)))
     = (w, h)
  /\ WebcamCapture.isInitialized (WebcamCapture.updateResolution w h s) = true
  /\ (exists o,
         WebcamCapture.effects (WebcamCapture.updateResolution w h s)
         = WebcamCapture.effects s
           ++ [WebcamCapture.Create o; WebcamCapture.ConsoleLog w h])
  /\ WebcamCapture.getLatestFrame (WebcamCapture.updateResolution w h s)
     = WebcamCapture.getLatestFrame s
  /\ WebcamCapture.getLatestFramePath (WebcamCapture.updateResolution w h s)
     = WebcamCapture.getLatestFramePath s
  /\ WebcamCapture.lastFrameTimestamp (WebcamCapture.updateResolution w h s)
     = WebcamCapture.lastFrameTimestamp s
  /\ (WebcamCapture.continuousMode (WebcamCapture.updateResolution w h s),
      WebcamCapture.captureLoopRunning (WebcamCapture.updateResolution w h s),
      WebcamCapture.captureInProgress (WebcamCapture.updateResolution w h s))
     = (WebcamCapture.continuousMode s, WebcamCapture.captureLoopRunning s,
        WebcamCapture.captureInProgress s).
Proof.
  intros Hdiff. unfold WebcamCapture.updateResolution. rewrite Hdiff.
  unfold WebcamCapture.initialize. cbn.
  repeat split. eexists. reflexivity.
Qed.

Lemma software_resize_recreates_driver_witness :
  WebcamCapture.webcam
    (WebcamCapture.updateResolution 100 0 Examples.software_started)
  = Some (WebcamCapture.mkOpts 100 0 75 "jpeg" None "location" false).
Proof.
  apply (software_resize_recreates_driver 100%Z 0%Z
           Examples.software_started).
  reflexivity.
Defined.

Section SoftwareLoop.
Import WebcamCapture.
Variable now : nat -> Z.

Lemma iteration_ready o s :
  loop_ready s ->
  loop_ready (iteration now o s)
  /\ getLatestFrame (iteration now o s)
     = match o with Acquired data => Some data | _ => getLatestFrame s end.
Proof.
  intros (Hmode & Hbusy & Hcam). unfold iteration, loop_ready.
  rewrite Hbusy. destruct (webcam s) as [cam|] eqn:Ecam; [|congruence].
  destruct o; cbn; rewrite ?Ecam; repeat split; auto; discriminate.
Qed.

Lemma updateResolution_ready w h s :
  loop_ready s ->
  loop_ready (updateResolution w h s)
  /\ getLatestFrame (updateResolution w h s) = getLatestFrame s.
Proof.
  intros (Hmode & Hbusy & Hcam). unfold updateResolution, loop_ready.
  destruct (_ && _); [repeat split; auto|].
  unfold initialize. cbn. repeat split; auto. discriminate.
Qed.

Lemma runCaptureLoop_last calls : forall s,
  loop_ready s -> never_stopped calls ->
  getLatestFrame (_runCaptureLoop now calls s)
  = last_acquired calls (getLatestFrame s)
  /\ loop_ready (_runCaptureLoop now calls s).
Proof.
  induction calls as [|c calls IH]; intros s Hready Hns.
  - split; [reflexivity | exact Hready].
  - inversion Hns as [|? ? Hc Hns']; subst.
    destruct c as [o| |w h]; [| congruence |].
    + cbn [_runCaptureLoop]. destruct Hready as (Hmode & Hbusy & Hcam).
      rewrite Hmode.
      destruct (iteration_ready o s (conj Hmode (conj Hbusy Hcam)))
        as [Hr Hf].
      destruct (IH _ Hr Hns') as [H1 H2]. split; [|exact H2].
      rewrite H1, Hf. unfold last_acquired. cbn [fold_left].
      destruct o; reflexivity.
    + cbn [_runCaptureLoop].
      destruct (updateResolution_ready w h s Hready) as [Hr Hf].
      destruct (IH _ Hr Hns') as [H1 H2]. split; [|exact H2].
      rewrite H1, Hf. reflexivity.
Qed.

End SoftwareLoop.

(** X8. While the capture loop is not asked to stop, the published frame
    is always that of the most recent successful acquisition (or the one
    published before, if none succeeded): failures and changes of
    resolution in between never replace or remove it, and the loop stays
    able to acquire. *)
Theorem latest_frame_is_last_acquired (now : nat -> Z)
        (calls : list WebcamCapture.call) (s : WebcamCapture.t) :
  loop_ready s -> never_stopped calls ->
  WebcamCapture.getLatestFrame (WebcamCapture._runCaptureLoop now calls s)
  = last_acquired calls (WebcamCapture.getLatestFrame s)
  /\ loop_ready (WebcamCapture._runCaptureLoop now calls s).
Proof. intros Hready Hns. now apply runCaptureLoop_last. Qed.

Lemma latest_frame_is_last_acquired_witness :
  WebcamCapture.getLatestFrame
    (WebcamCapture._runCaptureLoop Examples.clock
       [WebcamCapture.Iterate (WebcamCapture.Acquired [x01]);
        WebcamCapture.Iterate (WebcamCapture.Acquired [x02]);
        WebcamCapture.CallUpdateResolution 40 12;
        WebcamCapture.Iterate (WebcamCapture.ReadFailed "ENOENT")]
       Examples.software_started)
  = Some [x02].
Proof.
  refine (proj1 (latest_frame_is_last_acquired Examples.clock _
                   Examples.software_started _ _)).
  - repeat split. discriminate.
  - repeat constructor; discriminate.
Defined.

(** X9. On an initialised source the single-shot [captureFrame] never
    rejects and never changes the published frame, its path or the loop
    flags; in continuous mode it touches neither the device nor the console
    and returns the latest frame; outside it, a failed acquisition (or one
    that cannot start because another is outstanding) gives [null]. *)
Theorem captureFrame_contained (o : WebcamCapture.outcome)
        (s : WebcamCapture.t) :
  WebcamCapture.isInitialized s = true ->
  (exists r, snd (WebcamCapture.captureFrame o s) = inr r)
  /\ WebcamCapture.getLatestFrame (fst (fst (WebcamCapture.captureFrame o s)))
     = WebcamCapture.getLatestFrame s
  /\ WebcamCapture.getLatestFramePath
       (fst (fst (WebcamCapture.captureFrame o s)))
     = WebcamCapture.getLatestFramePath s
  /\ (WebcamCapture.continuousMode (fst (fst (WebcamCapture.captureFrame o s))),
      WebcamCapture.captureInProgress
        (fst (fst (WebcamCapture.captureFrame o s))))
     = (WebcamCapture.continuousMode s, WebcamCapture.captureInProgress s)
  /\ (WebcamCapture.continuousMode s = true ->
      WebcamCapture.captureFrame o s
      = (s, [], inr (WebcamCapture.getLatestFrame s)))
  /\ (WebcamCapture.continuousMode s = false ->
      WebcamCapture.failed o = true
      \/ WebcamCapture.captureInProgress s = true ->
      snd (WebcamCapture.captureFrame o s) = inr None).
Proof.
  intros Hinit. unfold WebcamCapture.captureFrame. rewrite Hinit. cbn [negb].
  destruct (WebcamCapture.continuousMode s) eqn:Hmode;
    [|destruct (WebcamCapture.captureInProgress s) eqn:Hbusy;
      [|destruct (WebcamCapture.webcam s); [destruct o|]]];
    cbn; rewrite ?Hmode, ?Hbusy;
    repeat split; eauto; try discriminate;
    intros _ [H|H]; discriminate.
Qed.

Lemma captureFrame_contained_witness :
  WebcamCapture.captureFrame (WebcamCapture.CaptureFailed "device busy")
    Examples.software_started
  = (Examples.software_started, [],
     inr (WebcamCapture.getLatestFrame Examples.software_started)).
Proof.
  apply (captureFrame_contained (WebcamCapture.CaptureFailed "device busy")
           Examples.software_started); reflexivity.
Defined.

(** ** The supervisor *)
Section Supervisor.
Variable now : nat -> Z.

Lemma ffmpeg_updateResolution_dims w h ff :
  FFmpegCapture.bytesPerFrame ff
  = FFmpegCapture.width ff * FFmpegCapture.height ff ->
  FFmpegCapture.width (FFmpegCapture.updateResolution w h ff) = w
  /\ FFmpegCapture.height (FFmpegCapture.updateResolution w h ff) = h
  /\ FFmpegCapture.bytesPerFrame (FFmpegCapture.updateResolution w h ff)
     = w * h.
Proof.
  intros Hb. unfold FFmpegCapture.updateResolution.
  destruct ((w =? _) && (h =? _)) eqn:E.
  - apply andb_true_iff in E. destruct E as [Ew Eh].
    apply Nat.eqb_eq in Ew, Eh. subst. auto.
  - unfold FFmpegCapture.start, FFmpegCapture.stop.
    destruct (FFmpegCapture.isRunning ff) eqn:Hrun; cbn [negb];
      cbn [FFmpegCapture.isRunning]; rewrite ?Hrun; cbn; auto.
Qed.

Lemma step_hardware_session e s :
  hardware_session s ->
  match e with
  | HybridHistory.UpdateResolution w h => 0 < w /\ 0 < h
  | _ => True
  end ->
  exists s', HybridHistory.step now e s = Some s' /\ hardware_session s'.
Proof.
  intros (Hmode & Hact & Hsw & Hw & Hh & ff & Hff & Hfw & Hfh & Hfb) Hpos.
  destruct e as [chunk| |o|w h]; cbn [HybridHistory.step].
  - unfold HybridCapture.on_data. rewrite Hff.
    destruct (handleFrameData_chopped now chunk ff ltac:(nia))
      as (ff' & frames & E & _ & (_ & _ & Hw' & Hh' & Hb' & _) & _).
    rewrite E. eexists. split; [reflexivity|].
    unfold hardware_session. cbn. repeat split; auto.
    exists ff'. repeat split; congruence.
  - eexists. split; [reflexivity|].
    unfold hardware_session, HybridCapture.on_close. cbn. rewrite Hff.
    repeat split; auto. eexists. split; [reflexivity|]. cbn. auto.
  - eexists. split; [reflexivity|].
    unfold hardware_session. cbn. rewrite Hsw, Hff.
    repeat split; auto. exists ff. auto.
  - eexists. split; [reflexivity|].
    unfold HybridCapture.updateResolution.
    destruct ((w =? _) && (h =? _)) eqn:E.
    + unfold hardware_session. repeat split; auto. exists ff. auto.
    + rewrite Hact. unfold hardware_session. cbn. rewrite Hff. cbn.
      destruct Hpos as [Hpw Hph].
      destruct (ffmpeg_updateResolution_dims w h ff) as (H1 & H2 & H3);
        [congruence|].
      repeat split; auto. eexists. split; [reflexivity|]. auto.
Qed.

Lemma run_hardware_session evs : forall s,
  hardware_session s -> HybridHistory.positive_resizes evs ->
  exists s', HybridHistory.run now evs s = Some s' /\ hardware_session s'.
Proof.
  induction evs as [|e evs IH]; intros s Hs Hpos.
  - exists s. split; [reflexivity | exact Hs].
  - inversion Hpos as [|? ? He Hpos']; subst.
    destruct (step_hardware_session e s Hs He) as (s1 & E1 & Hs1).
    destruct (IH s1 Hs1 Hpos') as (s' & E' & Hs').
    exists s'. cbn [HybridHistory.run]. rewrite E1. auto.
Qed.

End Supervisor.

(** X10. A session that [initialize] started in hardware mode with positive
    dimensions stays in order whatever follows, as long as every resize
    asks for positive dimensions: every data handler returns, the mode stays
    ['hardware'] also after the child process has exited (no software source
    is ever created), the hardware source always has the supervisor's
    dimensions and their product as frame length, and there is never a frame
    path. *)
Theorem hardware_session_kept (now : nat -> Z)
        (p : FFmpegCapture.platform_t) (w h : nat)
        (evs : list HybridHistory.event) :
  0 < w -> 0 < h -> HybridHistory.positive_resizes evs ->
  exists s,
    HybridHistory.run now evs
      (fst (HybridCapture.initialize now p w h true HybridCapture.new))
    = Some s
    /\ hardware_session s
    /\ HybridCapture.getMode s = Some HybridCapture.hardware
    /\ HybridCapture.getLatestFramePath s = None.
Proof.
  intros Hw Hh Hpos.
  destruct (run_hardware_session now evs
              (fst (HybridCapture.initialize now p w h true HybridCapture.new)))
    as (s & E & Hs); [|exact Hpos|].
  - unfold hardware_session. cbn. repeat split; auto.
    eexists. split; [reflexivity|]. cbn. auto.
  - exists s. split; [exact E|]. split; [exact Hs|].
    destruct Hs as (Hmode & _). unfold HybridCapture.getMode,
      HybridCapture.getLatestFramePath. rewrite Hmode. auto.
Qed.

Lemma hardware_session_kept_witness :
  exists s,
    HybridHistory.run Examples.clock
      [HybridHistory.Data [x01; x02; x03; x04]; HybridHistory.Closed;
       HybridHistory.UpdateResolution 3 3]
      (fst (HybridCapture.initialize Examples.clock FFmpegCapture.linux 2 2
              true HybridCapture.new))
    = Some s
    /\ HybridCapture.getMode s = Some HybridCapture.hardware.
Proof.
  destruct (hardware_session_kept Examples.clock FFmpegCapture.linux 2 2
              [HybridHistory.Data [x01; x02; x03; x04]; HybridHistory.Closed;
               HybridHistory.UpdateResolution 3 3])
    as (s & E & _ & Hmode & _); [lia | lia | |].
  - repeat constructor; lia.
  - exists s. split; [exact E | exact Hmode].
Defined.

(** X11. When the probe finds no ffmpeg, [initialize] returns ['software']:
    the software source is created and its loop started, the probed
    hardware source is kept but never started (no child is spawned), and no
    frame is available yet.  For dimensions that are natural numbers, the
    software source is configured with the requested ones exactly when
    neither is 0; with a 0 it keeps the default 600 by 150 while the
    supervisor records the dimensions asked for.  The test being one of
    truthiness, [WebcamCapture.initialize] itself stores every pair of
    integers without a 0, negative ones included. *)
Theorem software_fallback (now : nat -> Z) (p : FFmpegCapture.platform_t)
        (w h : nat) :
  snd (HybridCapture.initialize now p w h false HybridCapture.new)
  = HybridCapture.software
  /\ HybridCapture.getMode
       (fst (HybridCapture.initialize now p w h false HybridCapture.new))
     = Some HybridCapture.software
  /\ (HybridCapture.width
        (fst (HybridCapture.initialize now p w h false HybridCapture.new)),
      HybridCapture.height
        (fst (HybridCapture.initialize now p w h false HybridCapture.new)))
     = (w, h)
  /\ HybridCapture.getLatestFrame
       (fst (HybridCapture.initialize now p w h false HybridCapture.new))
     = None
  /\ (exists ff sw,
      HybridCapture.ffmpegCapture
        (fst (HybridCapture.initialize now p w h false HybridCapture.new))
      = Some ff
      /\ HybridCapture.softwareCapture
           (fst (HybridCapture.initialize now p w h false HybridCapture.new))
         = Some sw
      /\ FFmpegCapture.isRunning ff = false
      /\ FFmpegHistory.spawned (FFmpegCapture.effects ff) = []
      /\ WebcamCapture.continuousMode sw = true
      /\ WebcamCapture.isInitialized sw = true
      /\ (Config.width (WebcamCapture.config sw),
          Config.height (WebcamCapture.config sw))
         = match w, h with
           | S _, S _ => (Z.of_nat w, Z.of_nat h)
           | _, _ => (600, 150)%Z
           end)
  /\ (forall w' h' : Z,
         (Config.width
            (WebcamCapture.config
               (WebcamCapture.initialize (Some w') (Some h')
                  WebcamCapture.new)),
          Config.height
            (WebcamCapture.config
               (WebcamCapture.initialize (Some w') (Some h')
                  WebcamCapture.new)))
         = if (w' =? 0)%Z || (h' =? 0)%Z then (600, 150)%Z else (w', h'))
  /\ (Config.width
        (WebcamCapture.config
           (WebcamCapture.initialize (Some 78%Z) (Some (-1)%Z)
              WebcamCapture.new)),
      Config.height
        (WebcamCapture.config
           (WebcamCapture.initialize (Some 78%Z) (Some (-1)%Z)
              WebcamCapture.new)))
     = (78, -1)%Z.
Proof.
  split; [reflexivity|]. split; [reflexivity|]. split; [reflexivity|].
  split; [reflexivity|]. split; [|split].
  - eexists. eexists.
    split; [reflexivity|]. split; [reflexivity|].
    destruct w as [|w], h as [|h]; cbn; repeat split.
  - intros w' h'. unfold WebcamCapture.initialize. cbn.
    destruct ((w' =? 0)%Z || (h' =? 0)%Z); reflexivity.
  - reflexivity.
Qed.


(** ** The configuration *)

(** X13. The capture resolution for a terminal of [tw] by [th] cells is
    exactly [min (6 * tw) 1024] by [min (6 * th) 576]: both bounds being
    even, the final rounding to even numbers never changes anything. *)
Theorem optimal_resolution_is_capped_product (tw th : nat) :
  Config.getOptimalCaptureResolution tw th
  = (Nat.min (6 * tw) 1024, Nat.min (6 * th) 576)
  /\ Nat.even (fst (Config.getOptimalCaptureResolution tw th)) = true
  /\ Nat.even (snd (Config.getOptimalCaptureResolution tw th)) = true.
Proof.
  assert (H : forall n cap, Nat.min (n * 6) (2 * cap) / 2 * 2
                            = Nat.min (6 * n) (2 * cap)).
  { intros n cap.
    replace (Nat.min (n * 6) (2 * cap)) with (Nat.min (3 * n) cap * 2) by lia.
    rewrite Nat.div_mul by lia. lia. }
  unfold Config.getOptimalCaptureResolution. cbn [fst snd].
  change 1024 with (2 * 512). change 576 with (2 * 288).
  rewrite !H. split; [reflexivity|].
  split; rewrite Nat.even_spec.
  - exists (Nat.min (3 * tw) 512). lia.
  - exists (Nat.min (3 * th) 288). lia.
Qed.

Section Delay.
Import Binary64.
Local Open Scope Z_scope.
Local Open Scope Q_scope.

Lemma fl_of_integer x k :
  (0 <= k < 2 ^ 53)%Z -> x == inject_Z k -> fl x == inject_Z k.
Proof.
  intros Hk E. apply Qle_antisym.
  - rewrite <- (fl_integer k Hk). apply fl_monotone. rewrite E. apply Qle_refl.
  - rewrite <- (fl_integer k Hk) at 1. apply fl_monotone. rewrite E.
    apply Qle_refl.
Qed.

Lemma Qfloor_of_integer x k : x == inject_Z k -> Qfloor x = k.
Proof.
  intros E. apply Qfloor_unique.
  - rewrite E. apply Qle_refl.
  - rewrite E, <- Zlt_Qlt. lia.
Qed.

Lemma delay_exact (fps : Z) :
  (1 <= fps <= 2 ^ 32)%Z ->
  floor (div 1000 (inject_Z fps)) = (1000 / fps)%Z.
Proof.
  intros Hfps. unfold floor, div.
  pose proof (Z.div_mod 1000 fps ltac:(lia)) as Hdm.
  pose proof (Z.mod_pos_bound 1000 fps ltac:(lia)) as Hr.
  pose proof (Z.div_pos 1000 fps ltac:(lia) ltac:(lia)) as HF0.
  assert (HF1 : (1000 / fps <= 1000)%Z)
    by (apply Z.div_le_upper_bound; nia).
  set (F := (1000 / fps)%Z) in *. set (r := (1000 mod fps)%Z) in *.
  assert (Hf : 1 <= inject_Z fps <= 4294967296).
  { change 1 with (inject_Z 1). change 4294967296 with (inject_Z (2 ^ 32)).
    rewrite <- !Zle_Qle. lia. }
  set (f := inject_Z fps) in *.
  set (x := 1000 / f).
  assert (Hxf : x * f == inject_Z F * f + inject_Z r).
  { unfold x, f. rewrite <- !inject_Z_mult, <- inject_Z_plus.
    replace (F * fps + r)%Z with 1000%Z by lia. field. unfold f in Hf. lra. }
  assert (Hr' : 0 <= inject_Z r /\ inject_Z r + 1 <= f).
  { unfold f. change 0 with (inject_Z 0). change 1 with (inject_Z 1).
    rewrite <- inject_Z_plus, <- !Zle_Qle. lia. }
  assert (HF' : 0 <= inject_Z F <= 1000).
  { change 0 with (inject_Z 0). change 1000 with (inject_Z 1000).
    rewrite <- !Zle_Qle. lia. }
  destruct (Z.eq_dec r 0) as [E0|N0].
  - apply Qfloor_of_integer, fl_of_integer; [lia|].
    rewrite E0 in Hxf. change (inject_Z 0) with 0 in Hxf.
    apply (Qmult_inj_r _ _ f); [lra|]. rewrite Hxf. ring.
  - assert (Hr1 : 1 <= inject_Z r).
    { change 1 with (inject_Z 1). rewrite <- Zle_Qle. lia. }
    assert (Hx0 : 0 <= x /\ x <= 1000).
    { unfold x. split.
      - apply Qle_shift_div_l; lra.
      - apply Qle_shift_div_r; lra. }
    pose proof (fl_error x (proj1 Hx0)) as Herr.
    assert (Eu : pow2 (-53) == 1 # 9007199254740992) by reflexivity.
    rewrite Eu in Herr. apply Qabs_Qle_condition in Herr.
    destruct Herr as [Hlo Hhi].
    assert (Hgap1 : inject_Z F + (1 # 4294967296) <= x).
    { apply (Qmult_le_r _ _ f); [lra|]. rewrite Hxf. nra. }
    assert (Hgap2 : x <= inject_Z F + 1 - (1 # 4294967296)).
    { apply (Qmult_le_r _ _ f); [lra|]. rewrite Hxf. nra. }
    apply Qfloor_unique.
    + nra.
    + rewrite inject_Z_plus. change (inject_Z 1) with 1. nra.
Qed.

End Delay.

(** X14. For a target rate between 1 and 2^32 frames per second the getter
    [delay], computed in double precision, is the integer quotient
    [1000 / targetFPS], rounded down (33 ms at 30 frames per second). *)
Theorem delay_is_integer_quotient (c : Config.t) :
  (1 <= Config.targetFPS c <= 2 ^ 32)%Z ->
  Config.delay c = (1000 / Config.targetFPS c)%Z.
Proof. intros H. unfold Config.delay. now apply delay_exact. Qed.

Lemma delay_is_integer_quotient_witness :
  Config.delay (Config.mk 30 600 150 75 "jpeg" None "/tmp/webcam-frame.jpg")
  = 33%Z.
Proof.
  apply (delay_is_integer_quotient
           (Config.mk 30 600 150 75 "jpeg" None "/tmp/webcam-frame.jpg")).
  cbn. lia.
Defined.

(** ** The converter: ramps and grids *)
Section RampMore.
Import Binary64 ImageConverter.
Local Open Scope Z_scope.
Local Open Scope Q_scope.

Lemma brightnessIndex_darkest L : brightnessIndex 0 L = 0%Z.
Proof.
  rewrite brightnessIndex_unfold.
  assert (E : fl (inject_Z 0 / 255) = 0) by (apply fl_zero; reflexivity).
  rewrite E. rewrite fl_zero by ring. reflexivity.
Qed.

Lemma brightnessIndex_brightest L :
  (1 <= L <= 2 ^ 53)%Z -> brightnessIndex 255 L = (L - 1)%Z.
Proof.
  intros HL. rewrite brightnessIndex_unfold.
  assert (E : fl (inject_Z 255 / 255) == inject_Z 1)
    by (apply fl_of_integer; [lia | reflexivity]).
  apply Qfloor_of_integer, fl_of_integer; [lia|].
  rewrite E. change (inject_Z 1) with 1. ring.
Qed.

End RampMore.

Lemma nth_error_last {A} (l : list A) (d : A) :
  l <> [] -> nth_error l (length l - 1) = Some (last l d).
Proof.
  intros Hne. destruct (@exists_last _ l Hne) as (front & x & ->).
  rewrite length_app, last_last. cbn [length].
  rewrite Nat.add_sub, nth_error_app2, Nat.sub_diag by lia. reflexivity.
Qed.

(** X15. Whatever the ramp, as long as it is not empty (and shorter than
    2^53), the darkest byte is drawn with its first glyph and the brightest
    byte with its last glyph. *)
Theorem ramp_endpoints (ramp : jsstring) :
  ramp <> [] ->
  (Z.of_nat (length ramp) <= 2 ^ 53)%Z ->
  ImageConverter.glyph ramp (Some x00) = [hd SP ramp]
  /\ ImageConverter.glyph ramp (Some xff) = [last ramp SP].
Proof.
  intros Hne HL.
  assert (Hlen : 1 <= length ramp) by (destruct ramp; [congruence | cbn; lia]).
  unfold ImageConverter.glyph, ImageConverter.charAt.
  change (Z.of_N (Byte.to_N x00)) with 0%Z.
  change (Z.of_N (Byte.to_N xff)) with 255%Z.
  rewrite brightnessIndex_darkest, brightnessIndex_brightest by lia.
  split.
  - destruct ramp; [congruence | reflexivity].
  - destruct (Z.ltb_spec (Z.of_nat (length ramp) - 1) 0) as [Hneg|_]; [lia|].
    replace (Z.to_nat (Z.of_nat (length ramp) - 1)) with (length ramp - 1)
      by lia.
    now rewrite (nth_error_last ramp SP Hne).
Qed.

Lemma ramp_endpoints_witness :
  ImageConverter.glyph (of_ascii " .:-=+*#%@") (Some x00) = [32%N]
  /\ ImageConverter.glyph (of_ascii " .:-=+*#%@") (Some xff) = [64%N].
Proof.
  apply (ramp_endpoints (of_ascii " .:-=+*#%@")); [discriminate | cbn; lia].
Defined.

Section GridMore.
Import ImageConverter.

Lemma join_empty_rows n : join [LF] (repeat [] n) = repeat_unit LF (n - 1).
Proof.
  induction n as [|n IH]; [reflexivity|].
  destruct n as [|n]; [reflexivity|].
  change (join [LF] (repeat [] (S (S n))))
    with (LF :: join [LF] (repeat [] (S n))).
  rewrite IH. cbn. now rewrite Nat.sub_0_r.
Qed.

(** The number of glyphs of a run of pixels: those that exist. *)
Lemma glyphs_of_run ramp pixelData n : forall a,
  (1 <= Z.of_nat (length ramp) <= 2 ^ 53)%Z ->
  length (concat (map (fun i => glyph ramp (nth_error pixelData i))
                      (seq a n)))
  = Nat.min n (length pixelData - a).
Proof.
  induction n as [|n IH]; intros a HL; [reflexivity|].
  cbn [seq map concat]. rewrite length_app, IH by exact HL.
  destruct (nth_error pixelData a) as [b|] eqn:E.
  - destruct (glyph_defined ramp b HL) as (c & -> & _).
    assert (Ha : a < length pixelData)
      by (apply nth_error_Some; congruence).
    cbn [length]. lia.
  - apply nth_error_None in E. cbn [glyph length]. lia.
Qed.

Lemma split_lines_join rows :
  rows <> [] -> Forall (fun r => ~ In LF r) rows ->
  split_lines (join [LF] rows) = rows.
Proof.
  induction rows as [|r rows IH]; intros Hne Hall; [congruence|].
  inversion Hall as [|? ? Hr Hall']; subst.
  destruct rows as [|r' rows].
  - cbn [join]. rewrite <- (app_nil_r r) at 1.
    clear -Hr. induction r as [|c r IHr]; [reflexivity|].
    cbn [app split_lines]. rewrite app_nil_r in *.
    destruct (N.eqb_spec c LF) as [->|_]; [exfalso; apply Hr; now left|].
    rewrite IHr; [reflexivity|]. intros Hin. apply Hr. now right.
  - change (join [LF] (r :: r' :: rows))
      with (r ++ [LF] ++ join [LF] (r' :: rows)).
    cbn [app]. rewrite split_lines_line by exact Hr.
    rewrite IH; [reflexivity | discriminate | exact Hall'].
Qed.

Lemma glyph_in_ramp ramp pixel c : In c (glyph ramp pixel) -> In c ramp.
Proof.
  unfold glyph, charAt. destruct pixel as [b|]; [|intros []].
  destruct (_ <? _)%Z; [intros []|].
  destruct (nth_error ramp _) as [c'|] eqn:E; [|intros []].
  intros [<-|[]]. eapply nth_error_In, E.
Qed.

Lemma rowChars_in_ramp ramp pixelData w y c :
  In c (rowChars ramp pixelData w y) -> In c ramp.
Proof.
  unfold rowChars. intros H. apply in_concat in H.
  destruct H as (g & Hg & Hc). apply in_map_iff in Hg.
  destruct Hg as (x & <- & _). eapply glyph_in_ramp, Hc.
Qed.

Lemma rowChars_length ramp pixelData w y :
  (1 <= Z.of_nat (length ramp) <= 2 ^ 53)%Z ->
  length (rowChars ramp pixelData w y)
  = Nat.min w (length pixelData - y * w).
Proof.
  intros HL. unfold rowChars.
  rewrite <- (glyphs_of_run ramp pixelData w (y * w) HL).
  f_equal. f_equal.
  assert (G : forall n b,
             map (fun x => glyph ramp (nth_error pixelData (y * w + x)))
                 (seq b n)
             = map (fun i => glyph ramp (nth_error pixelData i))
                   (seq (y * w + b) n)).
  { induction n as [|n IH]; intros b; [reflexivity|].
    cbn [seq map]. f_equal. rewrite IH. f_equal. f_equal. lia. }
  rewrite (G w 0). now rewrite Nat.add_0_r.
Qed.

End GridMore.

(** X16. With an empty ramp no pixel has a glyph: whatever the pixel data
    and whatever integers the dimensions are, the frame is [h - 1] bare line
    feeds (the separators of [h] empty rows; none when [h] is less than 1)
    and nothing is thrown. *)
Theorem empty_ramp_draws_nothing (s : ImageConverter.t) (pixelData : bytes)
        (w h : Z) :
  ImageConverter.charRamp s = [] ->
  ImageConverter._pixelsToAscii s pixelData w h
  = repeat_unit LF (Z.to_nat h - 1).
Proof.
  intros Hramp. unfold ImageConverter._pixelsToAscii. rewrite Hramp.
  rewrite <- join_empty_rows.
  assert (G : forall l : list nat,
             map (ImageConverter.rowChars [] pixelData (Z.to_nat w)) l
             = repeat [] (length l)).
  2: { rewrite (G (seq 0 (Z.to_nat h))), length_seq. reflexivity. }
  induction l as [|y l IH]; [reflexivity|].
  cbn [map length repeat]. f_equal; [|exact IH].
  unfold ImageConverter.rowChars. generalize (seq 0 (Z.to_nat w)). intros xs.
  induction xs as [|x xs IHx]; [reflexivity|].
  cbn [map concat]. rewrite IHx, app_nil_r.
  unfold ImageConverter.glyph, ImageConverter.charAt.
  destruct (nth_error pixelData (y * Z.to_nat w + x)); [|reflexivity].
  destruct (_ <? _)%Z; [reflexivity|].
  now destruct (Z.to_nat (ImageConverter.brightnessIndex _ _)).
Qed.

Lemma empty_ramp_draws_nothing_witness :
  ImageConverter._pixelsToAscii (ImageConverter.new []) [x00; x80; xff; x80] 2 2
  = [LF].
Proof.
  apply (empty_ramp_draws_nothing (ImageConverter.new [])
           [x00; x80; xff; x80] 2%Z 2%Z).
  reflexivity.
Defined.

(** X17. A buffer with fewer pixels than the grid asks for is not an error:
    row [y] holds the glyphs of the pixels that exist, [min w (n - y * w)] of
    them for a buffer of [n] bytes, so the rows past the end of the data are
    empty. *)
Theorem short_buffer_short_rows (ramp : jsstring) (pixelData : bytes)
        (w y : nat) :
  (1 <= Z.of_nat (length ramp) <= 2 ^ 53)%Z ->
  length (ImageConverter.rowChars ramp pixelData w y)
  = Nat.min w (length pixelData - y * w).
Proof. apply rowChars_length. Qed.

Lemma short_buffer_short_rows_witness :
  length (ImageConverter.rowChars ImageConverter.default_ramp
            [x00; x80; xff] 2 1) = 1.
Proof.
  rewrite (short_buffer_short_rows ImageConverter.default_ramp
             [x00; x80; xff] 2 1); [reflexivity | cbn; lia].
Defined.

(** A raw frame drawn with a ramp without line feed is a grid. *)
Lemma raw_frame_grid
        (sharp : bytes -> Z -> Z -> jsstring + (bytes * (Z * Z)))
        (s : ImageConverter.t) (src : bytes) (w h : nat) :
  ImageConverter.mode s <> ImageConverter.sharp_only ->
  length src = w * h ->
  1 <= h ->
  (1 <= Z.of_nat (length (ImageConverter.charRamp s)) <= 2 ^ 53)%Z ->
  ~ In LF (ImageConverter.charRamp s) ->
  exists frame,
    snd (ImageConverter.convertToTerminal sharp (Some src)
           (Z.of_nat w) (Z.of_nat h) s)
    = ImageConverter.Resolved frame
    /\ split_lines frame
       = map (ImageConverter.rowChars (ImageConverter.charRamp s) src w)
             (seq 0 h)
    /\ ImageConverter.is_grid w h frame = true
    /\ Forall (fun c => In c (ImageConverter.charRamp s))
              (concat (split_lines frame)).
Proof.
  intros Hmode Hlen Hh HL Hlf.
  exists (join [LF]
            (map (ImageConverter.rowChars (ImageConverter.charRamp s) src w)
                 (seq 0 h))).
  assert (Hsplit :
            split_lines
              (join [LF]
                 (map (ImageConverter.rowChars (ImageConverter.charRamp s)
                                               src w) (seq 0 h)))
            = map (ImageConverter.rowChars (ImageConverter.charRamp s) src w)
                  (seq 0 h)).
  { apply split_lines_join.
    - destruct h; [lia | discriminate].
    - apply Forall_forall. intros r Hr. apply in_map_iff in Hr.
      destruct Hr as (y & <- & _). intros Hin.
      apply Hlf. eapply rowChars_in_ramp, Hin. }
  split; [|split; [exact Hsplit|split]].
  - unfold ImageConverter.convertToTerminal. cbn [ImageConverter.mode].
    rewrite Hlen, Nat2Z.inj_mul, Z.eqb_refl.
    unfold ImageConverter._pixelsToAscii. cbn [ImageConverter.charRamp].
    rewrite !Nat2Z.id.
    destruct (ImageConverter.mode s); try congruence; reflexivity.
  - unfold ImageConverter.is_grid. rewrite Hsplit, length_map, length_seq.
    rewrite Nat.eqb_refl. cbn [andb]. apply forallb_forall.
    intros r Hr. apply in_map_iff in Hr. destruct Hr as (y & <- & Hy).
    apply in_seq in Hy. apply Nat.eqb_eq.
    rewrite rowChars_length by exact HL. nia.
  - rewrite Hsplit. apply Forall_forall. intros c Hc.
    apply in_concat in Hc. destruct Hc as (r & Hr & Hc).
    apply in_map_iff in Hr. destruct Hr as (y & <- & _).
    eapply rowChars_in_ramp, Hc.
Qed.

(** X18. If the ramp holds no line feed, the conversion of a raw source of
    [w * h] bytes, [h >= 1], resolves to a frame that splits at its line
    feeds into exactly [h] rows of [w] glyphs, all taken from the ramp: it
    is a grid in the converter's output format. *)
Theorem raw_frame_splits_into_grid
        (sharp : bytes -> Z -> Z -> jsstring + (bytes * (Z * Z)))
        (s : ImageConverter.t) (src : bytes) (w h : nat) :
  ImageConverter.mode s <> ImageConverter.sharp_only ->
  length src = w * h ->
  1 <= h ->
  (1 <= Z.of_nat (length (ImageConverter.charRamp s)) <= 2 ^ 53)%Z ->
  ~ In LF (ImageConverter.charRamp s) ->
  exists frame,
    snd (ImageConverter.convertToTerminal sharp (Some src)
           (Z.of_nat w) (Z.of_nat h) s)
    = ImageConverter.Resolved frame
    /\ split_lines frame
       = map (ImageConverter.rowChars (ImageConverter.charRamp s) src w)
             (seq 0 h)
    /\ ImageConverter.is_grid w h frame = true
    /\ Forall (fun c => In c (ImageConverter.charRamp s))
              (concat (split_lines frame)).
Proof. apply raw_frame_grid. Qed.

Lemma raw_frame_splits_into_grid_witness :
  exists frame,
    snd (ImageConverter.convertToTerminal Examples.failing_sharp
           (Some [x00; x80; xff; x80]) 2 2 Examples.fresh_converter)
    = ImageConverter.Resolved frame
    /\ ImageConverter.is_grid 2 2 frame = true.
Proof.
  destruct (raw_frame_splits_into_grid Examples.failing_sharp
              Examples.fresh_converter [x00; x80; xff; x80] 2 2)
    as (frame & Hsnd & _ & Hgrid & _);
    [discriminate | reflexivity | lia | cbn; lia | |].
  - intros H. cbn [In] in H.
    repeat (destruct H as [H|H]; [discriminate H|]). exact H.
  - exists frame. split; [exact Hsnd | exact Hgrid].
Defined.

(** ** The render scheduler: histories *)
Section RendererMore.
Import TerminalRenderer RendererHistory.
Variable sharp : bytes -> Z -> Z -> jsstring + (bytes * (Z * Z)).

Lemma adds_refl (s : t) : adds [] s s.
Proof. unfold adds. now rewrite app_nil_r. Qed.

Lemma adds_trans (e1 e2 : list effect) (s1 s2 s3 : t) :
  adds e1 s1 s2 -> adds e2 s2 s3 -> adds (e1 ++ e2) s1 s3.
Proof.
  unfold adds. intros (A1 & A2 & A3 & A4 & A5) (B1 & B2 & B3 & B4 & B5).
  rewrite B1, A1, app_assoc. repeat split; congruence.
Qed.

Lemma emit_adds (e : list effect) (s : t) : adds e s (emit e s).
Proof. repeat split. Qed.

Lemma set_stats_adds (p : perf) (s : t) : adds [] s (set_stats p s).
Proof. unfold adds. cbn. now rewrite app_nil_r. Qed.

Lemma trackPerformance_adds (m : option HybridCapture.mode_t) (ct st tt : Q)
      (s : t) :
  exists ex, adds ex s (_trackPerformance m ct st tt s)
             /\ forallb is_report ex = true.
Proof.
  unfold _trackPerformance. destruct (_ && _).
  - eexists. split.
    + eapply adds_trans; [apply set_stats_adds|].
      eapply adds_trans; [apply emit_adds|apply set_stats_adds].
    + reflexivity.
  - exists []. split; [apply set_stats_adds|reflexivity].
Qed.

Lemma updateFps_adds (d : Z) (s : t) :
  exists ex, adds ex s (_updateFps d s) /\ forallb is_report ex = true.
Proof.
  unfold _updateFps. destruct (_ >=? _)%Z.
  - eexists. split; [repeat split|]. now destruct (onStatsCallback s).
  - exists []. split; [|reflexivity]. unfold adds. cbn. now rewrite app_nil_r.
Qed.

Lemma resume_adds (k : suspended) (e : resumption) (s : t) :
  exists ex,
    adds (delivery k s ++ ex) s (resume k e s)
    /\ forallb is_report ex = true
    /\ (s_conversion k = ImageConverter.Rejected -> ex = [ConsoleError]).
Proof.
  unfold resume, delivery.
  destruct (s_conversion k) as [terminalFrame|].
  2: { exists [ConsoleError]. split; [apply emit_adds|]. split; reflexivity. }
  assert (H1 : adds (if onFrameCallback s then [OnFrame terminalFrame]
                     else [])
                    s (if onFrameCallback s
                       then emit [OnFrame terminalFrame] s else s)).
  { destruct (onFrameCallback s); [apply emit_adds|apply adds_refl]. }
  destruct (onFrameCallback s && onFrameThrows e).
  - exists [ConsoleError]. split; [|split; [reflexivity|discriminate]].
    eapply adds_trans; [exact H1|apply emit_adds].
  - destruct (trackPerformance_adds (mode e) (s_captureTime k)
                (Binary64.sub (sharpEnd e) (s_sharpStart k))
                (Binary64.sub (tickEnd e) (s_frameStart k))
                (if onFrameCallback s
                 then emit [OnFrame terminalFrame] s else s))
      as (e1 & A1 & R1).
    destruct (updateFps_adds (dateNow e)
                (_trackPerformance (mode e) (s_captureTime k)
                   (Binary64.sub (sharpEnd e) (s_sharpStart k))
                   (Binary64.sub (tickEnd e) (s_frameStart k))
                   (if onFrameCallback s
                    then emit [OnFrame terminalFrame] s else s)))
      as (e2 & A2 & R2).
    exists (e1 ++ e2). split; [|split; [|discriminate]].
    + eapply adds_trans; [exact H1|]. eapply adds_trans; eassumption.
    + rewrite forallb_app, R1, R2. reflexivity.
Qed.

Lemma reports_filtered (p : effect -> bool) (ex : list effect) :
  (forall x, is_report x = true -> p x = false) ->
  forallb is_report ex = true -> filter p ex = [].
Proof.
  intros Hp. induction ex as [|x ex IH]; [reflexivity|].
  cbn [forallb filter]. intros H. apply andb_prop in H. destruct H as [Hx Hex].
  rewrite (Hp x Hx). auto.
Qed.

Lemma count_adds (p : effect -> bool) (ex : list effect) (s s' : t) :
  adds ex s s' -> count p s' = count p s + length (filter p ex).
Proof.
  intros (E & _). unfold count. now rewrite E, filter_app, length_app.
Qed.

(** At most one frame is handed over, and none but a frame. *)
Lemma delivery_counts (k : suspended) (s : t) :
  length (filter is_OnFrame (delivery k s)) <= 1
  /\ filter is_Convert (delivery k s) = []
  /\ filter is_SetTimeout (delivery k s) = []
  /\ filter is_ConsoleError (delivery k s) = []
  /\ filter (fun e => match e with GetLatestFrame => true | _ => false end)
            (delivery k s) = []
  /\ (s_conversion k <> ImageConverter.Rejected ->
      onFrameCallback s = true ->
      length (filter is_OnFrame (delivery k s)) = 1)
  /\ (s_conversion k = ImageConverter.Rejected -> delivery k s = []).
Proof.
  unfold delivery.
  destruct (s_conversion k) as [f|]; [destruct (onFrameCallback s)|];
    cbn; repeat split; auto; try congruence; discriminate.
Qed.

(** What the continuation of a tick changes in the counts. *)
Lemma resume_counts (k : suspended) (e : resumption) (s : t) :
  count is_OnFrame (resume k e s)
  = count is_OnFrame s + length (filter is_OnFrame (delivery k s))
  /\ count is_Convert (resume k e s) = count is_Convert s
  /\ count is_SetTimeout (resume k e s) = count is_SetTimeout s
  /\ ticks (resume k e s) = ticks s
  /\ count is_ConsoleError s <= count is_ConsoleError (resume k e s)
  /\ (s_conversion k = ImageConverter.Rejected ->
      count is_ConsoleError (resume k e s) = S (count is_ConsoleError s)).
Proof.
  destruct (resume_adds k e s) as (ex & A & R & Hrej).
  destruct (delivery_counts k s) as (_ & D2 & D3 & D4 & D5 & _ & _).
  pose proof (count_adds is_OnFrame _ _ _ A) as C1.
  pose proof (count_adds is_Convert _ _ _ A) as C2.
  pose proof (count_adds is_SetTimeout _ _ _ A) as C3.
  pose proof (count_adds is_ConsoleError _ _ _ A) as C4.
  rewrite filter_app, length_app in C1, C2, C3, C4.
  rewrite (reports_filtered is_OnFrame ex) in C1
    by (try exact R; now intros []).
  rewrite (reports_filtered is_Convert ex) in C2
    by (try exact R; now intros []).
  rewrite (reports_filtered is_SetTimeout ex) in C3
    by (try exact R; now intros []).
  rewrite D2 in C2. rewrite D3 in C3. rewrite D4 in C4.
  cbn [length] in C1, C2, C3, C4.
  assert (C5 : ticks (resume k e s) = ticks s).
  { unfold ticks. destruct A as (E & _). rewrite E, !filter_app, !length_app.
    rewrite D5, (reports_filtered _ ex) by (try exact R; now intros []).
    cbn. lia. }
  repeat split; try lia.
  intros Hk. rewrite (Hrej Hk) in C4. cbn in C4. lia.
Qed.

Lemma single_timer_cases (s : t) :
  single_timer s ->
  (isRunning s = true
   /\ exists id, timeoutId s = Some id /\ timers s = [id])
  \/ (isRunning s = false /\ timeoutId s = None /\ timers s = []).
Proof.
  unfold single_timer. destruct (timeoutId s) as [id|]; intros [H1 H2].
  - left. eauto.
  - right. auto.
Qed.

Lemma single_timer_running (s : t) (id : nat) :
  isRunning s = true -> timeoutId s = Some id -> timers s = [id] ->
  single_timer s.
Proof. unfold single_timer. intros H1 -> H3. auto. Qed.

Lemma single_timer_stopped (s : t) :
  isRunning s = false -> timeoutId s = None -> timers s = [] ->
  single_timer s.
Proof. unfold single_timer. intros H1 -> H3. auto. Qed.

Lemma single_timer_adds (ex : list effect) (s s' : t) :
  adds ex s s' -> single_timer s -> single_timer s'.
Proof.
  intros (_ & A2 & A3 & A4 & _). unfold single_timer.
  now rewrite A2, A3, A4.
Qed.

(** The state a history keeps in order. *)
Lemma exec_invariant (c : command) (l : loop) :
  single_timer (renderer l) ->
  (isRunning (renderer l) = true -> onFrameCallback (renderer l) = true) ->
  (awaiting l <> [] -> onFrameCallback (renderer l) = true) ->
  accounted l ->
  single_timer (renderer (exec sharp c l))
  /\ (isRunning (renderer (exec sharp c l)) = true ->
      onFrameCallback (renderer (exec sharp c l)) = true)
  /\ (awaiting (exec sharp c l) <> [] ->
      onFrameCallback (renderer (exec sharp c l)) = true)
  /\ accounted (exec sharp c l).
Proof.
  intros Hs Hr Ha Hc. destruct l as [s aw]. cbn [renderer awaiting] in *.
  unfold accounted in *. cbn [renderer awaiting] in *.
  destruct c as [d| |ramp|[frame r|e|]]; cbn [exec step renderer awaiting].
  - (* start *)
    unfold start.
    destruct (single_timer_cases s Hs) as [[Hrun _]|(Hrun & Hid & Ht)];
      rewrite Hrun; [auto|].
    unfold _scheduleNextFrame. cbn [isRunning negb].
    split; [|split; [|split]].
    + apply (single_timer_running _ (nextTimer s)); cbn; auto.
      now rewrite Ht.
    + reflexivity.
    + reflexivity.
    + unfold ticks, count in *. cbn [effects].
      rewrite !filter_app, !length_app. cbn. lia.
  - (* stop *)
    unfold stop.
    destruct (single_timer_cases s Hs)
      as [(Hrun & id & Hid & Ht)|(Hrun & _)]; rewrite Hrun; cbn [negb];
      [|auto].
    rewrite Hid. split; [|split; [|split]].
    + apply single_timer_stopped; cbn; auto.
      rewrite Ht. cbn [filter]. now rewrite Nat.eqb_refl.
    + discriminate.
    + exact Ha.
    + unfold ticks, count in *. cbn [effects].
      rewrite !filter_app, !length_app. cbn. lia.
  - (* setCharacterSet *)
    unfold setCharacterSet, set_converter.
    split; [|split; [|split]]; auto.
  - (* a timeout fires *)
    unfold fire. cbn [renderer awaiting].
    destruct (single_timer_cases s Hs)
      as [(Hrun & id & Hid & Ht)|(Hrun & Hid & Ht)]; rewrite Ht;
      cbn [renderer awaiting]; [|auto].
    specialize (Hr Hrun).
    unfold _captureAndRender. cbn [isRunning]. rewrite Hrun. cbn [negb].
    unfold _scheduleNextFrame. cbn [isRunning negb].
    destruct frame as [src|].
    + destruct (dimensions r) as [w h].
      destruct (ImageConverter.convertToTerminal _ _ _ _ _) as [cv out].
      cbn [renderer awaiting]. unfold set_converter, emit.
      split; [|split; [|split]].
      * apply (single_timer_running _ (nextTimer s)); cbn; auto.
      * intros _. exact Hr.
      * intros _. exact Hr.
      * unfold ticks, count in *. cbn [effects].
        rewrite length_app. repeat rewrite filter_app, length_app. cbn. lia.
    + cbn [renderer awaiting]. unfold emit.
      split; [|split; [|split]].
      * apply (single_timer_running _ (nextTimer s)); cbn; auto.
      * intros _. exact Hr.
      * intros _. exact Hr.
      * unfold ticks, count in *. cbn [effects].
        repeat rewrite filter_app, length_app. cbn. lia.
  - (* a conversion has settled *)
    destruct aw as [|k rest]; cbn [renderer awaiting]; [auto|].
    assert (Hcb : onFrameCallback s = true) by (apply Ha; discriminate).
    destruct (resume_adds k e s) as (ex & A & _).
    destruct (resume_counts k e s) as (C1 & C2 & _ & C4 & C5 & C6).
    destruct (delivery_counts k s) as (D1 & _ & _ & _ & _ & D6 & D7).
    cbn [length] in Hc.
    split; [|split; [|split]].
    + eapply single_timer_adds; eassumption.
    + destruct A as (_ & A2 & A3 & A4 & A5). rewrite A5. auto.
    + destruct A as (_ & A2 & A3 & A4 & A5). rewrite A5. auto.
    + destruct (s_conversion k) as [f|] eqn:Ek.
      * specialize (D6 ltac:(discriminate) Hcb). lia.
      * specialize (C6 eq_refl). rewrite (D7 eq_refl) in C1. cbn in C1. lia.
  - (* the 'l' key *)
    cbn [togglePerfLogging fst]. split; [|split; [|split]]; auto.
Qed.

Lemma execs_invariant (cs : list command) : forall l : loop,
  single_timer (renderer l) ->
  (isRunning (renderer l) = true -> onFrameCallback (renderer l) = true) ->
  (awaiting l <> [] -> onFrameCallback (renderer l) = true) ->
  accounted l ->
  single_timer (renderer (execs sharp cs l))
  /\ (isRunning (renderer (execs sharp cs l)) = true ->
      onFrameCallback (renderer (execs sharp cs l)) = true)
  /\ (awaiting (execs sharp cs l) <> [] ->
      onFrameCallback (renderer (execs sharp cs l)) = true)
  /\ accounted (execs sharp cs l).
Proof.
  induction cs as [|c cs IH]; intros l Hs Hr Ha Hc; [auto|].
  cbn [execs fold_left].
  destruct (exec_invariant c l Hs Hr Ha Hc) as (H1 & H2 & H3 & H4).
  apply (IH (exec sharp c l)); assumption.
Qed.

Lemma fresh_invariant (c : Config.t) (d : Z) (cs : list command) :
  single_timer (renderer (execs sharp cs (fresh c d)))
  /\ (isRunning (renderer (execs sharp cs (fresh c d))) = true ->
      onFrameCallback (renderer (execs sharp cs (fresh c d))) = true)
  /\ (awaiting (execs sharp cs (fresh c d)) <> [] ->
      onFrameCallback (renderer (execs sharp cs (fresh c d))) = true)
  /\ accounted (execs sharp cs (fresh c d)).
Proof.
  apply execs_invariant.
  - now apply single_timer_stopped.
  - discriminate.
  - intros H. now elim H.
  - repeat split; cbn; lia.
Qed.

(** As long as no tick that converts is given a negative height, no
    conversion is lost. *)
Lemma exec_none_lost (c : command) (l : loop) :
  (isRunning (renderer l) = true -> onFrameCallback (renderer l) = true) ->
  (awaiting l <> [] -> onFrameCallback (renderer l) = true) ->
  match c with
  | Loop (Fire _ r) =>
      timers (renderer l) = [] \/ (0 <= snd (dimensions r))%Z
  | _ => True
  end ->
  none_lost l -> none_lost (exec sharp c l).
Proof.
  intros Hr Ha Hok (Hres & Hc). destruct l as [s aw].
  unfold none_lost in *. cbn [renderer awaiting] in *.
  destruct c as [d| |ramp|[frame r|e|]]; cbn [exec step renderer awaiting].
  - unfold start. destruct (isRunning s); [auto|].
    unfold _scheduleNextFrame. cbn [isRunning negb].
    split; [exact Hres|]. unfold count in *. cbn [effects].
    rewrite !filter_app, !length_app. cbn. lia.
  - unfold stop. destruct (isRunning s); cbn [negb]; [|auto].
    destruct (timeoutId s); (split; [exact Hres|]); unfold count in *;
      cbn [effects]; rewrite ?filter_app, ?length_app; cbn; lia.
  - unfold setCharacterSet, set_converter. auto.
  - unfold fire. cbn [renderer awaiting].
    destruct (timers s) as [|id rest] eqn:Et; cbn [renderer awaiting];
      [auto|].
    destruct Hok as [Hok|Hok]; [discriminate|].
    unfold _captureAndRender. cbn [isRunning].
    destruct (isRunning s) eqn:Hrun; cbn [negb]; cbn [renderer awaiting];
      [|auto].
    unfold _scheduleNextFrame. cbn [isRunning negb].
    destruct frame as [src|].
    + destruct (dimensions r) as [w h]. cbn [snd] in Hok.
      pose proof (convertToTerminal_resolves sharp (converter s) (Some src)
                    w h Hok) as Hconv.
      unfold emit, set_converter in *. cbn [converter] in *.
      destruct (ImageConverter.convertToTerminal _ _ _ _ _) as [cv out].
      cbn [renderer awaiting snd] in *.
      split.
      * apply Forall_app. split; [exact Hres|]. constructor; [|constructor].
        exact Hconv.
      * unfold count in *. cbn [effects].
        rewrite length_app. repeat rewrite filter_app, length_app. cbn. lia.
    + cbn [renderer awaiting]. unfold emit.
      split; [exact Hres|]. unfold count in *. cbn [effects].
      repeat rewrite filter_app, length_app. cbn. lia.
  - destruct aw as [|k rest]; cbn [renderer awaiting]; [auto|].
    assert (Hcb : onFrameCallback s = true) by (apply Ha; discriminate).
    inversion Hres as [|? ? Hk Hrest]; subst.
    destruct (resume_counts k e s) as (C1 & C2 & _).
    destruct (delivery_counts k s) as (_ & _ & _ & _ & _ & D6 & _).
    specialize (D6 Hk Hcb). cbn [length] in Hc.
    split; [exact Hrest | lia].
  - cbn [togglePerfLogging fst]. auto.
Qed.

Lemma execs_none_lost (cs : list command) : forall l : loop,
  single_timer (renderer l) ->
  (isRunning (renderer l) = true -> onFrameCallback (renderer l) = true) ->
  (awaiting l <> [] -> onFrameCallback (renderer l) = true) ->
  accounted l ->
  heights_not_negative cs ->
  none_lost l -> none_lost (execs sharp cs l).
Proof.
  induction cs as [|c cs IH]; intros l Hs Hr Ha Hc Hok Hn; [exact Hn|].
  cbn [execs fold_left].
  inversion Hok as [|? ? Hc1 Hok']; subst.
  destruct (exec_invariant c l Hs Hr Ha Hc) as (H1 & H2 & H3 & H4).
  apply (IH (exec sharp c l)); try assumption.
  apply exec_none_lost; try assumption.
  destruct c as [d| |ramp|[frame r|e|]]; auto.
Qed.

Lemma fresh_none_lost (c : Config.t) (d : Z) (cs : list command) :
  heights_not_negative cs -> none_lost (execs sharp cs (fresh c d)).
Proof.
  intros Hok. apply execs_none_lost; try exact Hok.
  - now apply single_timer_stopped.
  - discriminate.
  - intros H. now elim H.
  - repeat split; cbn; lia.
  - split; [constructor | reflexivity].
Qed.

(** Events on a stopped renderer. *)
Lemma step_stopped (ev : event) (l : loop) :
  isRunning (renderer l) = false -> timers (renderer l) = [] ->
  isRunning (renderer (step sharp ev l)) = false
  /\ timers (renderer (step sharp ev l)) = []
  /\ ticks (renderer (step sharp ev l)) = ticks (renderer l)
  /\ count is_SetTimeout (renderer (step sharp ev l))
     = count is_SetTimeout (renderer l)
  /\ count is_Convert (renderer (step sharp ev l))
     = count is_Convert (renderer l)
  /\ count is_OnFrame (renderer l)
     <= count is_OnFrame (renderer (step sharp ev l))
  /\ count is_OnFrame (renderer (step sharp ev l))
     + length (awaiting (step sharp ev l))
     <= count is_OnFrame (renderer l) + length (awaiting l)
  /\ onFrameCallback (renderer (step sharp ev l))
     = onFrameCallback (renderer l)
  /\ (awaiting (step sharp ev l) <> [] -> awaiting l <> []).
Proof.
  intros Hrun Ht. destruct l as [s aw]. cbn [renderer awaiting] in *.
  destruct ev as [frame r|e|]; cbn [step renderer awaiting].
  - unfold fire. cbn [renderer]. rewrite Ht. cbn [renderer awaiting].
    repeat split; auto.
  - destruct aw as [|k rest]; cbn [renderer awaiting];
      [repeat split; auto|].
    destruct (resume_adds k e s) as (ex & A & _).
    destruct (resume_counts k e s) as (C1 & C2 & C3 & C4 & _).
    destruct (delivery_counts k s) as (D1 & _).
    destruct A as (_ & A2 & A3 & _ & A5). rewrite A2, A3, A5.
    cbn [length]. repeat split; auto; try lia. discriminate.
  - cbn. repeat split; auto.
Qed.

Lemma run_stopped (evs : list event) : forall l : loop,
  isRunning (renderer l) = false -> timers (renderer l) = [] ->
  isRunning (renderer (run sharp evs l)) = false
  /\ timers (renderer (run sharp evs l)) = []
  /\ ticks (renderer (run sharp evs l)) = ticks (renderer l)
  /\ count is_SetTimeout (renderer (run sharp evs l))
     = count is_SetTimeout (renderer l)
  /\ count is_Convert (renderer (run sharp evs l))
     = count is_Convert (renderer l)
  /\ count is_OnFrame (renderer l)
     <= count is_OnFrame (renderer (run sharp evs l))
  /\ count is_OnFrame (renderer (run sharp evs l))
     + length (awaiting (run sharp evs l))
     <= count is_OnFrame (renderer l) + length (awaiting l)
  /\ onFrameCallback (renderer (run sharp evs l))
     = onFrameCallback (renderer l)
  /\ (awaiting (run sharp evs l) <> [] -> awaiting l <> []).
Proof.
  induction evs as [|ev evs IH]; intros l Hrun Ht; [repeat split; auto|].
  cbn [run fold_left].
  destruct (step_stopped ev l Hrun Ht)
    as (H1 & H2 & H3 & H4 & H5 & H6 & H7 & H8 & H9).
  destruct (IH (step sharp ev l) H1 H2)
    as (I1 & I2 & I3 & I4 & I5 & I6 & I7 & I8 & I9).
  unfold run in *. repeat split; auto; try congruence; lia.
Qed.

(** On a stopped renderer that has lost no conversion none is lost. *)
Lemma run_stopped_none_lost (evs : list event) : forall l : loop,
  isRunning (renderer l) = false -> timers (renderer l) = [] ->
  (awaiting l <> [] -> onFrameCallback (renderer l) = true) ->
  none_lost l -> none_lost (run sharp evs l).
Proof.
  induction evs as [|ev evs IH]; intros l Hrun Ht Ha Hn; [exact Hn|].
  cbn [run fold_left].
  destruct (step_stopped ev l Hrun Ht)
    as (H1 & H2 & _ & _ & _ & _ & _ & H8 & H9).
  apply (IH (step sharp ev l)); try assumption.
  - intros Hne. rewrite H8. apply Ha, H9, Hne.
  - apply (exec_none_lost (Loop ev) l); try assumption.
    + rewrite Hrun. discriminate.
    + destruct ev; auto.
Qed.

Lemma execs_app (cs1 cs2 : list command) (l : loop) :
  execs sharp (cs1 ++ cs2) l = execs sharp cs2 (execs sharp cs1 l).
Proof. apply fold_left_app. Qed.

Lemma execs_loop (evs : list event) : forall l : loop,
  execs sharp (map Loop evs) l = run sharp evs l.
Proof.
  induction evs as [|ev evs IH]; intros l; [reflexivity|].
  cbn [map execs fold_left exec run]. apply IH.
Qed.

End RendererMore.


Section Fps.
Import Binary64.
Local Open Scope Z_scope.
Local Open Scope Q_scope.

Lemma round_bounds x k : 0 <= x -> x <= inject_Z k -> (0 <= round x <= k)%Z.
Proof.
  intros H0 Hk. unfold round. split.
  - change 0%Z with (Qfloor 0). apply Qfloor_resp_le. lra.
  - rewrite <- (Qfloor_unique (inject_Z k + (1 # 2)) k).
    + apply Qfloor_resp_le. lra.
    + lra.
    + rewrite inject_Z_plus. change (inject_Z 1) with 1. lra.
Qed.

Lemma round_of_integer x k : x == inject_Z k -> round x = k.
Proof.
  intros E. unfold round. apply Qfloor_unique.
  - rewrite E. lra.
  - rewrite E, inject_Z_plus. change (inject_Z 1) with 1. lra.
Qed.

Lemma fps_bounds (count elapsed : Z) :
  (0 <= count)%Z -> (count * 1000 < 2 ^ 53)%Z -> (1000 <= elapsed)%Z ->
  (0 <= round (div (mul (inject_Z count) 1000) (inject_Z elapsed)) <= count)%Z
  /\ (elapsed = 1000%Z ->
      round (div (mul (inject_Z count) 1000) (inject_Z elapsed)) = count).
Proof.
  intros Hc Hb He. unfold div, mul.
  assert (EA : fl (inject_Z count * 1000) == inject_Z (count * 1000)).
  { apply fl_of_integer; [lia|]. rewrite inject_Z_mult. reflexivity. }
  assert (Hc' : 0 <= inject_Z count).
  { change 0 with (inject_Z 0). rewrite <- Zle_Qle. lia. }
  assert (He' : 1000 <= inject_Z elapsed).
  { change 1000 with (inject_Z 1000). rewrite <- Zle_Qle. lia. }
  assert (EA' : fl (inject_Z count * 1000) == inject_Z count * 1000).
  { rewrite EA, inject_Z_mult. reflexivity. }
  assert (Hq : 0 <= fl (inject_Z count * 1000) / inject_Z elapsed
               /\ fl (inject_Z count * 1000) / inject_Z elapsed
                  <= inject_Z count).
  { split.
    - apply Qle_shift_div_l; [lra|]. rewrite EA'. nra.
    - apply Qle_shift_div_r; [lra|]. rewrite EA'. nra. }
  split.
  - apply round_bounds.
    + apply fl_nonneg, Hq.
    + eapply Qle_trans; [apply fl_monotone, Hq|].
      rewrite (fl_integer count) by lia. apply Qle_refl.
  - intros ->. apply round_of_integer, fl_of_integer; [lia|].
    rewrite EA'. change (inject_Z 1000) with 1000. field.
Qed.

End Fps.

(** X19. Whatever the application and the event loop do with a renderer
    from its construction on ([start], [stop], changes of the ramp, timeouts
    firing, conversions ending, the 'l' key, in any order), it holds at most
    one pending timeout: exactly the one it remembers while it is running,
    and none once it is stopped. *)
Theorem at_most_one_timeout
        (sharp : bytes -> Z -> Z -> jsstring + (bytes * (Z * Z)))
        (c : Config.t) (dateNow0 : Z) (cs : list RendererHistory.command) :
  single_timer
    (TerminalRenderer.renderer
       (RendererHistory.execs sharp cs (RendererHistory.fresh c dateNow0))).
Proof. apply fresh_invariant. Qed.

(** A conversion that is rejected is lost: in a terminal of six columns
    and three rows a frame that is not an image is converted, logged as an
    error and never handed to the display callback. *)
Lemma rejected_conversion_is_lost :
  let l := RendererHistory.execs Examples.failing_sharp Examples.lossy_history
             (RendererHistory.fresh Config.default 0) in
  TerminalRenderer.dimensions Examples.reading_negative
  = TerminalSize.getVideoBoxDimensions (Some 6%Z) (Some 3%Z)
  /\ RendererHistory.count RendererHistory.is_Convert
       (TerminalRenderer.renderer l) = 1
  /\ RendererHistory.count RendererHistory.is_OnFrame
       (TerminalRenderer.renderer l) = 0
  /\ TerminalRenderer.awaiting l = []
  /\ RendererHistory.count RendererHistory.is_ConsoleError
       (TerminalRenderer.renderer l) = 1.
Proof. vm_compute. repeat split. Qed.

(** X20. After [stop] the renderer begins no tick, sets no timeout and
    begins no conversion, whatever the event loop still delivers.  The only
    frames that still reach the display callback are those of ticks that were
    suspended at their conversion when [stop] was called, each at most once:
    the frames delivered never decrease, and together with the ticks still
    suspended they never exceed what they were at [stop].  A suspended tick
    whose conversion is rejected delivers nothing; when no tick of the
    history was given a negative height none is rejected, and the frames
    delivered together with the ticks still suspended stay exactly what they
    were at [stop]. *)
Theorem stopped_renderer_is_quiet
        (sharp : bytes -> Z -> Z -> jsstring + (bytes * (Z * Z)))
        (c : Config.t) (dateNow0 : Z) (cs : list RendererHistory.command)
        (evs : list TerminalRenderer.event) :
  TerminalRenderer.isRunning
    (TerminalRenderer.renderer
       (TerminalRenderer.run sharp evs
          (RendererHistory.stopped sharp c dateNow0 cs))) = false
  /\ TerminalRenderer.timers
       (TerminalRenderer.renderer
          (TerminalRenderer.run sharp evs
             (RendererHistory.stopped sharp c dateNow0 cs))) = []
  /\ TerminalRenderer.ticks
       (TerminalRenderer.renderer
          (TerminalRenderer.run sharp evs
             (RendererHistory.stopped sharp c dateNow0 cs)))
     = TerminalRenderer.ticks
         (TerminalRenderer.renderer
            (RendererHistory.stopped sharp c dateNow0 cs))
  /\ RendererHistory.count RendererHistory.is_SetTimeout
       (TerminalRenderer.renderer
          (TerminalRenderer.run sharp evs
             (RendererHistory.stopped sharp c dateNow0 cs)))
     = RendererHistory.count RendererHistory.is_SetTimeout
         (TerminalRenderer.renderer
            (RendererHistory.stopped sharp c dateNow0 cs))
  /\ RendererHistory.count RendererHistory.is_Convert
       (TerminalRenderer.renderer
          (TerminalRenderer.run sharp evs
             (RendererHistory.stopped sharp c dateNow0 cs)))
     = RendererHistory.count RendererHistory.is_Convert
         (TerminalRenderer.renderer
            (RendererHistory.stopped sharp c dateNow0 cs))
  /\ RendererHistory.count RendererHistory.is_OnFrame
       (TerminalRenderer.renderer
          (RendererHistory.stopped sharp c dateNow0 cs))
     <= RendererHistory.count RendererHistory.is_OnFrame
          (TerminalRenderer.renderer
             (TerminalRenderer.run sharp evs
                (RendererHistory.stopped sharp c dateNow0 cs)))
  /\ RendererHistory.count RendererHistory.is_OnFrame
       (TerminalRenderer.renderer
          (TerminalRenderer.run sharp evs
             (RendererHistory.stopped sharp c dateNow0 cs)))
     + length
         (TerminalRenderer.awaiting
            (TerminalRenderer.run sharp evs
               (RendererHistory.stopped sharp c dateNow0 cs)))
     <= RendererHistory.count RendererHistory.is_OnFrame
          (TerminalRenderer.renderer
             (RendererHistory.stopped sharp c dateNow0 cs))
        + length
            (TerminalRenderer.awaiting
               (RendererHistory.stopped sharp c dateNow0 cs))
  /\ (RendererHistory.heights_not_negative cs ->
      RendererHistory.count RendererHistory.is_OnFrame
        (TerminalRenderer.renderer
           (TerminalRenderer.run sharp evs
              (RendererHistory.stopped sharp c dateNow0 cs)))
      + length
          (TerminalRenderer.awaiting
             (TerminalRenderer.run sharp evs
                (RendererHistory.stopped sharp c dateNow0 cs)))
      = RendererHistory.count RendererHistory.is_OnFrame
          (TerminalRenderer.renderer
             (RendererHistory.stopped sharp c dateNow0 cs))
        + length
            (TerminalRenderer.awaiting
               (RendererHistory.stopped sharp c dateNow0 cs))).
Proof.
  pose proof (fresh_invariant sharp c dateNow0 (cs ++ [RendererHistory.Stop]))
    as (Hs & _ & Hcb & _).
  fold (RendererHistory.stopped sharp c dateNow0 cs) in Hs, Hcb.
  assert (Hstop : TerminalRenderer.isRunning
                    (TerminalRenderer.renderer
                       (RendererHistory.stopped sharp c dateNow0 cs)) = false
                  /\ TerminalRenderer.timers
                       (TerminalRenderer.renderer
                          (RendererHistory.stopped sharp c dateNow0 cs)) = []).
  { unfold RendererHistory.stopped. rewrite execs_app.
    cbn [RendererHistory.execs fold_left RendererHistory.exec
         TerminalRenderer.renderer].
    pose proof (fresh_invariant sharp c dateNow0 cs) as (H0 & _).
    unfold TerminalRenderer.stop.
    destruct (single_timer_cases _ H0)
      as [(Hrun & id & Hid & Ht)|(Hrun & Hid & Ht)]; rewrite Hrun;
      cbn [negb]; [|auto].
    rewrite Hid. cbn [TerminalRenderer.isRunning TerminalRenderer.timers].
    rewrite Ht. cbn [filter]. now rewrite Nat.eqb_refl. }
  destruct Hstop as [Hrun Ht].
  destruct (run_stopped sharp evs _ Hrun Ht)
    as (R1 & R2 & R3 & R4 & R5 & R6 & R7 & _).
  repeat split; auto.
  intros Hok.
  assert (Hn : none_lost (RendererHistory.stopped sharp c dateNow0 cs)).
  { apply fresh_none_lost. apply Forall_app. split; [exact Hok|].
    repeat constructor. }
  pose proof (run_stopped_none_lost sharp evs _ Hrun Ht Hcb Hn) as Hn'.
  destruct Hn as [_ Hn]. destruct Hn' as [_ Hn']. lia.
Qed.

(** X21. Over any history of a renderer from its construction, every
    conversion begun is accounted for at most once: the frames handed to the
    display callback plus the ticks still suspended never exceed the
    conversions begun, and no tick begins more than one conversion, so no
    frame is delivered twice, also across [stop] and a new [start].  A
    conversion that is neither delivered nor suspended has been rejected and
    logged: the conversions begun never exceed the frames delivered, the
    ticks suspended and the errors logged together.  When no tick of the
    history was given a negative height no conversion is rejected, and the
    frames delivered plus the ticks suspended are exactly the conversions
    begun: none is dropped. *)
Theorem every_conversion_accounted_for
        (sharp : bytes -> Z -> Z -> jsstring + (bytes * (Z * Z)))
        (c : Config.t) (dateNow0 : Z) (cs : list RendererHistory.command) :
  RendererHistory.count RendererHistory.is_OnFrame
    (TerminalRenderer.renderer
       (RendererHistory.execs sharp cs (RendererHistory.fresh c dateNow0)))
  + length
      (TerminalRenderer.awaiting
         (RendererHistory.execs sharp cs (RendererHistory.fresh c dateNow0)))
  <= RendererHistory.count RendererHistory.is_Convert
       (TerminalRenderer.renderer
          (RendererHistory.execs sharp cs (RendererHistory.fresh c dateNow0)))
  /\ RendererHistory.count RendererHistory.is_Convert
       (TerminalRenderer.renderer
          (RendererHistory.execs sharp cs (RendererHistory.fresh c dateNow0)))
     <= RendererHistory.count RendererHistory.is_OnFrame
          (TerminalRenderer.renderer
             (RendererHistory.execs sharp cs
                (RendererHistory.fresh c dateNow0)))
        + length
            (TerminalRenderer.awaiting
               (RendererHistory.execs sharp cs
                  (RendererHistory.fresh c dateNow0)))
        + RendererHistory.count RendererHistory.is_ConsoleError
            (TerminalRenderer.renderer
               (RendererHistory.execs sharp cs
                  (RendererHistory.fresh c dateNow0)))
  /\ RendererHistory.count RendererHistory.is_Convert
       (TerminalRenderer.renderer
          (RendererHistory.execs sharp cs (RendererHistory.fresh c dateNow0)))
     <= TerminalRenderer.ticks
          (TerminalRenderer.renderer
             (RendererHistory.execs sharp cs
                (RendererHistory.fresh c dateNow0)))
  /\ (RendererHistory.heights_not_negative cs ->
      RendererHistory.count RendererHistory.is_OnFrame
        (TerminalRenderer.renderer
           (RendererHistory.execs sharp cs (RendererHistory.fresh c dateNow0)))
      + length
          (TerminalRenderer.awaiting
             (RendererHistory.execs sharp cs
                (RendererHistory.fresh c dateNow0)))
      = RendererHistory.count RendererHistory.is_Convert
          (TerminalRenderer.renderer
             (RendererHistory.execs sharp cs
                (RendererHistory.fresh c dateNow0)))).
Proof.
  pose proof (fresh_invariant sharp c dateNow0 cs) as (_ & _ & _ & H).
  destruct H as (H1 & H2 & H3).
  repeat split; auto.
  intros Hok. apply (fresh_none_lost sharp c dateNow0 cs Hok).
Qed.

(** X22. When a second or more has passed since the last update, the
    frame rate computed by [_updateFps] lies between 0 and the number of
    frames counted, and is exactly that number when the elapsed time is
    1000 ms; the frame counter restarts at 0 and the update time is the
    present reading of the clock. *)
Theorem fps_report_bounded (dateNow : Z) (s : TerminalRenderer.t) :
  (TerminalRenderer.lastFpsUpdate s + 1000 <= dateNow)%Z ->
  (Z.of_nat (S (TerminalRenderer.frameCount s)) * 1000 < 2 ^ 53)%Z ->
  (0 <= TerminalRenderer.currentFps (TerminalRenderer._updateFps dateNow s)
   <= Z.of_nat (S (TerminalRenderer.frameCount s)))%Z
  /\ (dateNow = (TerminalRenderer.lastFpsUpdate s + 1000)%Z ->
      TerminalRenderer.currentFps (TerminalRenderer._updateFps dateNow s)
      = Z.of_nat (S (TerminalRenderer.frameCount s)))
  /\ TerminalRenderer.frameCount (TerminalRenderer._updateFps dateNow s) = 0
  /\ TerminalRenderer.lastFpsUpdate (TerminalRenderer._updateFps dateNow s)
     = dateNow.
Proof.
  intros He Hb. unfold TerminalRenderer._updateFps.
  assert (Hge : (dateNow - TerminalRenderer.lastFpsUpdate s >=? 1000)%Z = true)
    by (apply Z.geb_le; lia).
  rewrite Hge.
  cbn [TerminalRenderer.currentFps TerminalRenderer.frameCount
       TerminalRenderer.lastFpsUpdate].
  destruct (fps_bounds (Z.of_nat (S (TerminalRenderer.frameCount s)))
              (dateNow - TerminalRenderer.lastFpsUpdate s)
              ltac:(lia) Hb ltac:(lia)) as [H1 H2].
  repeat split; try apply H1. intros E. apply H2. lia.
Qed.

Lemma fps_report_bounded_witness :
  TerminalRenderer.currentFps
    (TerminalRenderer._updateFps 1000
       (TerminalRenderer.new Config.default 0))
  = 1%Z.
Proof.
  apply (fps_report_bounded 1000 (TerminalRenderer.new Config.default 0));
    cbn; lia.
Defined.

(** ** The table of ramps *)
Section CharsetMore.
Import CharacterSets CharacterSetManager.

Lemma table_length_10 : table_length = 10%Z.
Proof. reflexivity. Qed.

Lemma in_table_cases (s : t) :
  in_table s ->
  In (currentIndex s) [0; 1; 2; 3; 4; 5; 6; 7; 8; 9]%Z.
Proof.
  unfold in_table. rewrite table_length_10. intros H. cbn [In].
  lia.
Qed.

Lemma step_in_table (m : move) (s : t) : in_table s -> in_table (step m s).
Proof.
  intros H. apply in_table_cases in H. destruct s as [i]. cbn [currentIndex] in H.
  unfold in_table. rewrite table_length_10.
  destruct m; cbn [step next previous fst currentIndex];
    rewrite table_length_10;
    repeat (destruct H as [<-|H]; [cbn; lia|]); destruct H.
Qed.

Lemma run_in_table (ms : list move) : forall s, in_table s -> in_table (run ms s).
Proof.
  induction ms as [|m ms IH]; intros s H; [exact H|].
  cbn [run fold_left]. apply IH, step_in_table, H.
Qed.

Lemma in_table_defined (s : t) :
  in_table s ->
  exists e, getCurrentSet s = Some e /\ In e characterSets
            /\ drawable (chars e) = true.
Proof.
  intros H. apply in_table_cases in H. destruct s as [i]. cbn [currentIndex] in H.
  unfold getCurrentSet. cbn [currentIndex].
  repeat (destruct H as [<-|H];
          [eexists; split; [reflexivity|]; split;
           [cbn; tauto | vm_compute; reflexivity]|]).
  destruct H.
Qed.

Lemma drawable_spec (ramp : jsstring) :
  drawable ramp = true ->
  (1 <= Z.of_nat (length ramp) <= 2 ^ 53)%Z /\ ~ In LF ramp.
Proof.
  unfold drawable. intros H.
  apply andb_prop in H. destruct H as [H H3].
  apply andb_prop in H. destruct H as [H1 H2].
  apply Nat.leb_le in H1. apply Z.leb_le in H2.
  split; [lia|]. intros Hin.
  apply negb_true_iff in H3.
  assert (E : existsb (N.eqb LF) ramp = true).
  { apply existsb_exists. exists LF. split; [exact Hin|apply N.eqb_refl]. }
  congruence.
Qed.

End CharsetMore.

(** X23. Whatever sequence of [next] and [previous] is applied to a new
    manager, its index stays an index of the table, so the current set is
    always defined, is an entry of the table, and the getters never throw. *)
Theorem charset_manager_always_defined (ms : list CharacterSetManager.move) :
  in_table (CharacterSetManager.run ms CharacterSetManager.new)
  /\ exists e,
      CharacterSetManager.getCurrentSet
        (CharacterSetManager.run ms CharacterSetManager.new) = Some e
      /\ In e CharacterSets.characterSets
      /\ CharacterSetManager.getName
           (CharacterSetManager.run ms CharacterSetManager.new)
         = Some (CharacterSets.name e)
      /\ CharacterSetManager.getChars
           (CharacterSetManager.run ms CharacterSetManager.new)
         = Some (CharacterSets.chars e)
      /\ CharacterSetManager.getDescription
           (CharacterSetManager.run ms CharacterSetManager.new)
         = Some (CharacterSets.description e).
Proof.
  assert (H : in_table (CharacterSetManager.run ms CharacterSetManager.new)).
  { apply run_in_table. unfold in_table. cbn. lia. }
  split; [exact H|].
  destruct (in_table_defined _ H) as (e & E & Hin & _).
  exists e. unfold CharacterSetManager.getName, CharacterSetManager.getChars,
            CharacterSetManager.getDescription.
  rewrite E. repeat split; auto.
Qed.

(** X24. On a manager whose index is in the table, [previous] undoes
    [next], [next] undoes [previous], and as many [next] as the table has
    entries come back to the same set. *)
Theorem next_previous_round_trip (s : CharacterSetManager.t) :
  in_table s ->
  fst (CharacterSetManager.previous (fst (CharacterSetManager.next s))) = s
  /\ fst (CharacterSetManager.next (fst (CharacterSetManager.previous s))) = s
  /\ CharacterSetManager.run
       (repeat CharacterSetManager.Next (length CharacterSets.characterSets))
       s = s.
Proof.
  intros H. apply in_table_cases in H. destruct s as [i].
  cbn [CharacterSetManager.currentIndex] in H.
  repeat (destruct H as [<-|H]; [repeat split|]). destruct H.
Qed.

Lemma next_previous_round_trip_witness :
  fst (CharacterSetManager.previous
         (fst (CharacterSetManager.next CharacterSetManager.new)))
  = CharacterSetManager.new.
Proof.
  apply (next_previous_round_trip CharacterSetManager.new).
  unfold in_table. cbn. lia.
Defined.

(** X25. Every ramp the manager can select draws grids: after any sequence
    of [next] and [previous], the selected ramp, given to a converter that
    is not in Sharp-only mode, turns a raw source of [w * h] bytes,
    [h >= 1], into [h] rows of [w] glyphs. *)
Theorem table_ramps_draw_grids
        (sharp : bytes -> Z -> Z -> jsstring + (bytes * (Z * Z)))
        (ms : list CharacterSetManager.move) (cv : ImageConverter.t)
        (src : bytes) (w h : nat) :
  ImageConverter.mode cv <> ImageConverter.sharp_only ->
  length src = w * h ->
  1 <= h ->
  exists ramp,
    CharacterSetManager.getChars
      (CharacterSetManager.run ms CharacterSetManager.new) = Some ramp
    /\ exists frame,
         snd (ImageConverter.convertToTerminal sharp (Some src)
                (Z.of_nat w) (Z.of_nat h)
                (ImageConverter.setCharacterRamp ramp cv))
         = ImageConverter.Resolved frame
         /\ ImageConverter.is_grid w h frame = true.
Proof.
  intros Hmode Hlen Hh.
  assert (H : in_table (CharacterSetManager.run ms CharacterSetManager.new)).
  { apply run_in_table. unfold in_table. cbn. lia. }
  destruct (in_table_defined _ H) as (e & E & _ & Hd).
  exists (CharacterSets.chars e). unfold CharacterSetManager.getChars.
  rewrite E. split; [reflexivity|].
  destruct (drawable_spec _ Hd) as [HL Hlf].
  destruct (raw_frame_grid sharp
              (ImageConverter.setCharacterRamp (CharacterSets.chars e) cv)
              src w h Hmode Hlen Hh HL Hlf) as (frame & F1 & _ & F3 & _).
  exists frame. split; assumption.
Qed.

Lemma table_ramps_draw_grids_witness :
  exists ramp,
    CharacterSetManager.getChars
      (CharacterSetManager.run
         [CharacterSetManager.Previous] CharacterSetManager.new) = Some ramp
    /\ exists frame,
         snd (ImageConverter.convertToTerminal Examples.failing_sharp
                (Some [x00; x80; xff; x80]) 2 2
                (ImageConverter.setCharacterRamp ramp
                   Examples.fresh_converter))
         = ImageConverter.Resolved frame
         /\ ImageConverter.is_grid 2 2 frame = true.
Proof.
  apply (table_ramps_draw_grids Examples.failing_sharp
           [CharacterSetManager.Previous] Examples.fresh_converter
           [x00; x80; xff; x80] 2 2);
    [discriminate | reflexivity | lia].
Defined.

(** ** The keyboard and the application *)
Section ControlsMore.
Variable callback : Type.

Lemma handlers_charset_keys (k : string) (c : Controls.t callback) :
  In k Controls.charset_keys ->
  Controls.onNextCharsetCallback callback c = None ->
  Controls.onPrevCharsetCallback callback c = None ->
  Controls.handlers callback k c = (c, []).
Proof.
  intros Hk Hn Hp. unfold Controls.charset_keys in Hk. cbn [In] in Hk.
  unfold Controls.handlers.
  repeat (destruct Hk as [<-|Hk];
          [cbn; rewrite ?Hn, ?Hp; reflexivity|]).
  destruct Hk.
Qed.

Lemma handlers_n_charset_keys (k : string) (c : Controls.t callback) (n : nat) :
  In k Controls.charset_keys ->
  Controls.onNextCharsetCallback callback c = None ->
  Controls.onPrevCharsetCallback callback c = None ->
  Controls.handlers_n callback n k c = (c, []).
Proof.
  intros Hk Hn Hp. induction n as [|n IH]; [reflexivity|].
  cbn [Controls.handlers_n]. rewrite (handlers_charset_keys k c Hk Hn Hp), IH.
  reflexivity.
Qed.

(** No key handler changes the callbacks. *)
Lemma handlers_callbacks (k : string) (c : Controls.t callback) :
  Controls.onNextCharsetCallback callback (fst (Controls.handlers callback k c))
  = Controls.onNextCharsetCallback callback c
  /\ Controls.onPrevCharsetCallback callback
       (fst (Controls.handlers callback k c))
     = Controls.onPrevCharsetCallback callback c.
Proof.
  unfold Controls.handlers.
  destruct (Controls.among k ["h"; "H"; "?"]%string); split; reflexivity.
Qed.

Lemma handlers_n_callbacks (k : string) (n : nat) :
  forall c : Controls.t callback,
  Controls.onNextCharsetCallback callback
    (fst (Controls.handlers_n callback n k c))
  = Controls.onNextCharsetCallback callback c
  /\ Controls.onPrevCharsetCallback callback
       (fst (Controls.handlers_n callback n k c))
     = Controls.onPrevCharsetCallback callback c.
Proof.
  induction n as [|n IH]; intros c; [split; reflexivity|].
  cbn [Controls.handlers_n].
  destruct (handlers_callbacks k c) as [H1 H2].
  destruct (Controls.handlers callback k c) as [c1 a1]. cbn [fst] in H1, H2.
  destruct (IH c1) as [I1 I2].
  destruct (Controls.handlers_n callback n k c1) as [c2 a2].
  cbn [fst] in *. split; congruence.
Qed.

End ControlsMore.

Section AppMore.
Import App.

Lemma quit_begin_controls (code : Z) (a : t) :
  controls (quit_begin code a) = controls a.
Proof. unfold quit_begin. now destruct (negb (isRunning a)). Qed.

Lemma perform_controls (act : Controls.action handler) (a : t) :
  controls (perform act a) = controls a.
Proof.
  destruct act as [[]|v]; cbn [perform]; try reflexivity.
  - apply quit_begin_controls.
  - unfold toggleLogs. now destruct (renderer a).
Qed.

Lemma performs_controls (acts : list (Controls.action handler)) :
  forall a : t,
  controls (fold_left (fun a act => perform act a) acts a) = controls a.
Proof.
  induction acts as [|act acts IH]; intros a; [reflexivity|].
  cbn [fold_left]. now rewrite IH, perform_controls.
Qed.

Lemma step_no_charset_callbacks (ev : event) (a : t) :
  no_charset_callbacks a -> no_charset_callbacks (step ev a).
Proof.
  intros H. unfold step. destruct (exited a); [exact H|].
  unfold no_charset_callbacks in *.
  destruct ev as [k| | |result renderOk|ok|frame|].
  - unfold key. destruct (controls a) as [c|] eqn:Ec; [|now rewrite Ec].
    pose proof (handlers_n_callbacks handler k (Controls.registrations handler c)
                  c) as [H1 H2].
    unfold Controls.press.
    destruct (Controls.handlers_n handler _ k c) as [c1 acts].
    rewrite performs_controls. cbn [controls fst] in *.
    destruct H. split; congruence.
  - now rewrite quit_begin_controls.
  - now rewrite quit_begin_controls.
  - unfold start_resume. destruct (negb (starting a)); [exact H|].
    destruct result as [m|]; [destruct renderOk|];
      rewrite ?quit_begin_controls; exact H.
  - unfold quit_finish. destruct (quitting a); [|exact H].
    destruct ok; rewrite ?quit_begin_controls; exact H.
  - unfold onFrame. now destruct (negb (isRunning a)).
  - unfold onStats. now destruct (negb (isRunning a)).
Qed.

Lemma run_no_charset_callbacks (evs : list event) : forall a : t,
  no_charset_callbacks a -> no_charset_callbacks (run evs a).
Proof.
  induction evs as [|ev evs IH]; intros a H; [exact H|].
  cbn [run fold_left]. apply IH, step_no_charset_callbacks, H.
Qed.

Lemma key_charset_inert (k : string) (a : t) :
  In k Controls.charset_keys -> no_charset_callbacks a -> key k a = a.
Proof.
  intros Hk H. unfold key, no_charset_callbacks in *.
  destruct a as [r [c|] run mode st q ex eff]; cbn [controls] in *;
    [|reflexivity].
  destruct H as [Hn Hp]. unfold Controls.press.
  rewrite (handlers_n_charset_keys handler k c _ Hk Hn Hp). reflexivity.
Qed.

(** A stuck application stays stuck. *)
Lemma perform_stuck (act : Controls.action handler) (a : t) :
  stuck a -> stuck (perform act a).
Proof.
  intros (H1 & H2 & H3 & H4 & H5 & H6).
  destruct act as [[]|v]; cbn [perform].
  - unfold quit_begin. rewrite H1. cbn [negb]. repeat split; assumption.
  - unfold stuck, emit. cbn. rewrite filter_app, H6. repeat split; assumption.
  - unfold toggleLogs. rewrite H2. repeat split; assumption.
  - unfold stuck, emit. cbn. rewrite filter_app, H6. repeat split; assumption.
Qed.

Lemma performs_stuck (acts : list (Controls.action handler)) : forall a : t,
  stuck a -> stuck (fold_left (fun a act => perform act a) acts a).
Proof.
  induction acts as [|act acts IH]; intros a H; [exact H|].
  cbn [fold_left]. apply IH, perform_stuck, H.
Qed.

Lemma step_stuck (ev : event) (a : t) : stuck a -> stuck (step ev a).
Proof.
  intros H. pose proof H as (H1 & H2 & H3 & H4 & H5 & H6).
  unfold step. rewrite H5.
  destruct ev as [k| | |result renderOk|ok|frame|].
  - unfold key. destruct (controls a) as [c|]; [|exact H].
    destruct (Controls.press handler k c) as [c1 acts].
    apply performs_stuck. repeat split; assumption.
  - unfold quit_begin. rewrite H1. exact H.
  - unfold quit_begin, emit. cbn [isRunning]. rewrite H1. cbn [negb].
    unfold stuck. cbn. rewrite filter_app, H6. repeat split; assumption.
  - unfold start_resume. rewrite H3. exact H.
  - unfold quit_finish. rewrite H4. exact H.
  - unfold onFrame. rewrite H1. exact H.
  - unfold onStats. rewrite H1. exact H.
Qed.

Lemma run_stuck (evs : list event) : forall a : t,
  stuck a -> stuck (run evs a).
Proof.
  induction evs as [|ev evs IH]; intros a H; [exact H|].
  cbn [run fold_left]. apply IH, step_stuck, H.
Qed.

End AppMore.

(** X26. In the application the keys of the character sets (right, left,
    '.', ',', '>' and '<') do nothing: [start] gives [setup] three callbacks
    only, so at any time after it a press of one of these keys leaves the
    application as it is and makes no call. *)
Theorem charset_keys_do_nothing (dims : Z * Z) (evs : list App.event)
        (k : string) :
  In k Controls.charset_keys ->
  App.step (App.Key k) (App.run evs (App.start_begin true dims App.new))
  = App.run evs (App.start_begin true dims App.new).
Proof.
  intros Hk. unfold App.step.
  destruct (App.exited _); [reflexivity|].
  apply key_charset_inert; [exact Hk|].
  apply run_no_charset_callbacks. cbn. auto.
Qed.

Lemma charset_keys_do_nothing_witness :
  App.step (App.Key "right")
    (App.run [App.InitDone (Some HybridCapture.hardware) true]
       (App.start_begin true (78, 20)%Z App.new))
  = App.run [App.InitDone (Some HybridCapture.hardware) true]
      (App.start_begin true (78, 20)%Z App.new).
Proof.
  apply (charset_keys_do_nothing (78, 20)%Z
           [App.InitDone (Some HybridCapture.hardware) true] "right").
  cbn. auto.
Defined.

(** X27. An application whose start fails before it is running (the screen
    cannot be initialised, or the initialisation of the capture is rejected)
    never shuts down by itself: whatever keys, signals, uncaught errors and
    other events follow, [quit] returns at its guard, so the renderer is not
    stopped, the capture is not cleaned up, the screen is not destroyed and
    [process.exit] is not called. *)
Theorem failed_start_never_exits (dims : Z * Z) (renderOk : bool)
        (evs : list App.event) (a : App.t) :
  a = App.start_begin false dims App.new
  \/ a = App.start_resume None renderOk (App.start_begin true dims App.new) ->
  App.exited (App.run evs a) = None
  /\ App.isRunning (App.run evs a) = false
  /\ filter App.is_shutdown (App.effects (App.run evs a)) = [].
Proof.
  intros Ha.
  assert (H : stuck a) by (destruct Ha as [-> | ->]; repeat split).
  destruct (run_stuck evs a H) as (H1 & _ & _ & _ & H5 & H6). auto.
Qed.

Lemma failed_start_never_exits_witness :
  App.exited
    (App.run [App.Key "q"; App.Signal; App.Uncaught]
       (App.start_resume None true
          (App.start_begin true (78, 20)%Z App.new)))
  = None.
Proof.
  apply (failed_start_never_exits (78, 20)%Z true
           [App.Key "q"; App.Signal; App.Uncaught]
           (App.start_resume None true
              (App.start_begin true (78, 20)%Z App.new))).
  right. reflexivity.
Defined.

(** ** The size of the terminal *)

(** X28. A terminal of two columns or of four rows gives a video box of
    width or height 0, and a hardware session initialised with such a box
    never returns from the handler of the first chunk its child process
    sends. *)
Theorem tiny_terminal_hangs (now : nat -> Z)
        (platform : FFmpegCapture.platform_t) (columns rows : option Z)
        (chunk : bytes) :
  (0 <= fst (TerminalSize.getVideoBoxDimensions columns rows))%Z ->
  (0 <= snd (TerminalSize.getVideoBoxDimensions columns rows))%Z ->
  columns = Some 2%Z \/ rows = Some 4%Z ->
  (fst (TerminalSize.getVideoBoxDimensions columns rows) = 0%Z
   \/ snd (TerminalSize.getVideoBoxDimensions columns rows) = 0%Z)
  /\ HybridCapture.on_data now chunk
       (fst (HybridCapture.initialize now platform
               (Z.to_nat (fst (TerminalSize.getVideoBoxDimensions columns rows)))
               (Z.to_nat (snd (TerminalSize.getVideoBoxDimensions columns rows)))
               true HybridCapture.new))
     = None.
Proof.
  intros Hw Hh Htiny.
  assert (Hz : fst (TerminalSize.getVideoBoxDimensions columns rows) = 0%Z
               \/ snd (TerminalSize.getVideoBoxDimensions columns rows) = 0%Z).
  { destruct Htiny as [-> | ->]; [left|right]; reflexivity. }
  split; [exact Hz|].
  set (w := Z.to_nat (fst (TerminalSize.getVideoBoxDimensions columns rows))).
  set (h := Z.to_nat (snd (TerminalSize.getVideoBoxDimensions columns rows))).
  assert (Hwh : w * h = 0).
  { unfold w, h. destruct Hz as [-> | ->]; cbn; lia. }
  unfold HybridCapture.initialize, HybridCapture.on_data.
  cbn [FFmpegCapture.initialize fst HybridCapture.ffmpegCapture].
  unfold FFmpegCapture._handleFrameData.
  rewrite extractFrames_zero_diverges; [reflexivity|].
  cbn. exact Hwh.
Qed.

Lemma tiny_terminal_hangs_witness :
  HybridCapture.on_data Examples.clock [x01]
    (fst (HybridCapture.initialize Examples.clock FFmpegCapture.linux
            (Z.to_nat (fst (TerminalSize.getVideoBoxDimensions (Some 80%Z) (Some 4%Z))))
            (Z.to_nat (snd (TerminalSize.getVideoBoxDimensions (Some 80%Z) (Some 4%Z))))
            true HybridCapture.new))
  = None.
Proof.
  apply (tiny_terminal_hangs Examples.clock FFmpegCapture.linux
           (Some 80%Z) (Some 4%Z) [x01]);
    [cbn; lia | cbn; lia | now right].
Defined.

(** ** The screen: batching of renders *)
Section ScreenMore.
Import Screen.

Lemma last_snoc {A : Type} (l : list A) (x d : A) : last (l ++ [x]) d = x.
Proof.
  induction l as [|y l IH]; [reflexivity|].
  cbn [app]. destruct (l ++ [x]) eqn:E; [now destruct l|]. exact IH.
Qed.

Lemma step_batched (e : event) (s : t) :
  batched s ->
  exists s', step e s = Some s' /\ batched s'
             /\ length (renders s') <= length (renders s) + paints [e].
Proof.
  intros (H1 & H2 & H3 & H4 & H5).
  destruct e as [content|f tf fc dims| |]; cbn [step paints filter length].
  - eexists. split; [reflexivity|]. unfold updateVideo.
    destruct (videoBox s) as [old|] eqn:Ev; [|congruence].
    unfold _scheduleRender. cbn [renderScheduled].
    destruct (renderScheduled s) eqn:Er; rewrite ?Er in H4.
    + split; [|cbn; lia]. unfold batched. cbn. rewrite ?Er.
      repeat split; auto; try discriminate.
    + split; [|cbn; lia]. unfold batched. cbn.
      repeat split; auto; try discriminate; try lia.
  - unfold updateStats. destruct (statusBar s) as [old|] eqn:Es; [|congruence].
    eexists. split; [reflexivity|].
    unfold _scheduleRender. cbn [renderScheduled].
    destruct (renderScheduled s) eqn:Er; rewrite ?Er in H4.
    + split; [|cbn; lia]. unfold batched. cbn. rewrite ?Er.
      repeat split; auto; try discriminate.
    + split; [|cbn; lia]. unfold batched. cbn.
      repeat split; auto; try discriminate; try lia.
  - destruct (immediates s) as [|n] eqn:Ei.
    + exists s. split; [reflexivity|]. split; [|lia].
      repeat split; auto; try apply H5; auto. now rewrite Ei.
    + eexists. split; [reflexivity|].
      destruct (renderScheduled s) eqn:Er; [|discriminate].
      injection H4 as ->.
      unfold _performRender, render. cbn [screen]. rewrite H1.
      split; [|cbn; rewrite length_app; cbn; lia].
      unfold batched. cbn. rewrite last_snoc. repeat split; auto.
  - eexists. split; [reflexivity|]. unfold render. rewrite H1.
    split; [|cbn; rewrite length_app; cbn; lia].
    unfold batched. cbn. rewrite last_snoc. repeat split; auto; apply H5; auto.
Qed.

Lemma run_batched (evs : list event) : forall s : t,
  batched s ->
  exists s', run evs s = Some s' /\ batched s'
             /\ length (renders s') <= length (renders s) + paints evs.
Proof.
  induction evs as [|e evs IH]; intros s H.
  - exists s. split; [reflexivity|]. split; [exact H|]. cbn. lia.
  - destruct (step_batched e s H) as (s1 & E1 & B1 & L1).
    destruct (IH s1 B1) as (s2 & E2 & B2 & L2).
    exists s2. cbn [run]. rewrite E1. split; [exact E2|]. split; [exact B2|].
    change (e :: evs) with ([e] ++ evs). unfold paints in *.
    rewrite filter_app, length_app. lia.
Qed.

Lemma initialize_batched : batched (initialize new).
Proof. unfold batched. cbn. repeat split; auto; discriminate. Qed.

(** Updates of the video box while a render is scheduled. *)
Lemma updates_scheduled (contents : list jsstring) : forall s : t,
  renderScheduled s = true -> videoBox s <> None ->
  exists s',
    run (map UpdateVideo contents) s = Some s'
    /\ renderScheduled s' = true
    /\ videoBox s' = match contents with
                     | [] => videoBox s
                     | _ => Some (last contents [])
                     end
    /\ statusBar s' = statusBar s /\ screen s' = screen s
    /\ immediates s' = immediates s /\ renders s' = renders s.
Proof.
  induction contents as [|c contents IH]; intros s Hr Hv.
  - exists s. repeat split; auto.
  - cbn [map run step]. unfold updateVideo.
    destruct (videoBox s) as [old|] eqn:Ev; [|congruence].
    unfold _scheduleRender. cbn [renderScheduled]. rewrite Hr.
    destruct (IH (mk (screen s) (Some c) (statusBar s) (stats s)
                     true true (pendingStats s)
                     (immediates s) (renders s)))
      as (s' & E & R & V & S1 & S2 & S3 & S4);
      [reflexivity | discriminate |].
    exists s'. split; [exact E|]. split; [exact R|].
    split; [|auto].
    rewrite V. cbn [videoBox]. destruct contents; reflexivity.
Qed.

Lemma run_app (l1 l2 : list event) : forall a b : t,
  run l1 a = Some b -> run (l1 ++ l2) a = run l2 b.
Proof.
  induction l1 as [|e l1 IH]; intros a b Hab.
  - cbn in Hab. injection Hab as <-. reflexivity.
  - cbn [app run] in *. destruct (step e a); [|discriminate].
    now apply IH.
Qed.

Lemma burst (s : t) (c : jsstring) (contents : list jsstring) :
  batched s -> renderScheduled s = false ->
  exists s',
    run (map UpdateVideo (c :: contents) ++ [Immediate]) s = Some s'
    /\ renders s'
       = renders s ++ [(Some (last (c :: contents) []), statusBar s)]
    /\ renderScheduled s' = false
    /\ immediates s' = 0.
Proof.
  intros (B1 & B2 & B3 & B4 & B5) Hr. rewrite Hr in B4.
  destruct (videoBox s) as [old|] eqn:Ev; [|congruence].
  assert (E1 : step (UpdateVideo c) s
               = Some (mk (screen s) (Some c) (statusBar s) (stats s) true
                          true (pendingStats s) (S (immediates s))
                          (renders s))).
  { cbn [step]. unfold updateVideo. rewrite Ev. unfold _scheduleRender.
    cbn [renderScheduled]. rewrite Hr. reflexivity. }
  destruct (updates_scheduled contents
              (mk (screen s) (Some c) (statusBar s) (stats s) true true
                  (pendingStats s) (S (immediates s)) (renders s)))
    as (s2 & E2 & R2 & V2 & S1 & S2 & S3 & S4);
    [reflexivity | discriminate |].
  cbn [screen videoBox statusBar immediates renders] in V2, S1, S2, S3, S4.
  cbn [map app run]. rewrite E1, (run_app _ _ _ _ E2).
  cbn [run step]. rewrite S3, B4.
  eexists. split; [reflexivity|].
  unfold _performRender, render. cbn [screen]. rewrite S2, B1.
  cbn [renders renderScheduled immediates]. rewrite S4, V2, S1.
  repeat split. destruct contents; reflexivity.
Qed.

End ScreenMore.

(** X29. Whatever updates, turns of the event loop and direct renders an
    initialised screen goes through, no call throws, at most one
    [setImmediate] callback is pending (one exactly when a render is
    scheduled), the number of renders is bounded by the turns of the event
    loop that paint and not by the number of updates, and whenever no render
    is scheduled nothing is pending and the last render painted the present
    content of the video box and of the status bar. *)
Theorem renders_are_batched (evs : list Screen.event) :
  exists s,
    Screen.run evs (Screen.initialize Screen.new) = Some s
    /\ Screen.immediates s = (if Screen.renderScheduled s then 1 else 0)
    /\ (Screen.renderScheduled s = false ->
        Screen.pendingVideo s = false /\ Screen.pendingStats s = false
        /\ last (Screen.renders s) (None, None)
           = (Screen.videoBox s, Screen.statusBar s))
    /\ length (Screen.renders s) <= 1 + Screen.paints evs.
Proof.
  destruct (run_batched evs _ initialize_batched) as (s & E & B & L).
  exists s. destruct B as (_ & _ & _ & B4 & B5).
  repeat split; auto; try apply B5; auto.
Qed.

(** X30. On an initialised screen with no render scheduled, a burst of
    frames given to [updateVideo] before the event loop runs the scheduled
    callback costs one render, and that render paints the last frame of the
    burst. *)
Theorem burst_of_frames_one_render (evs : list Screen.event) (s : Screen.t)
        (contents : list jsstring) :
  Screen.run evs (Screen.initialize Screen.new) = Some s ->
  Screen.renderScheduled s = false ->
  contents <> [] ->
  exists s',
    Screen.run (map Screen.UpdateVideo contents ++ [Screen.Immediate]) s
    = Some s'
    /\ Screen.renders s'
       = Screen.renders s ++ [(Some (last contents []), Screen.statusBar s)]
    /\ Screen.renderScheduled s' = false
    /\ Screen.immediates s' = 0.
Proof.
  intros E Hr Hc.
  destruct (run_batched evs _ initialize_batched) as (s0 & E0 & B & _).
  rewrite E in E0. injection E0 as <-.
  destruct contents as [|c contents]; [congruence|].
  apply burst; assumption.
Qed.

Lemma burst_of_frames_one_render_witness :
  exists s',
    Screen.run (map Screen.UpdateVideo [[SP]; [LF]] ++ [Screen.Immediate])
      (Screen.initialize Screen.new) = Some s'
    /\ Screen.renders s'
       = Screen.renders (Screen.initialize Screen.new)
         ++ [(Some (last [[SP]; [LF]] []),
              Screen.statusBar (Screen.initialize Screen.new))]
    /\ Screen.renderScheduled s' = false
    /\ Screen.immediates s' = 0.
Proof.
  apply (burst_of_frames_one_render [] (Screen.initialize Screen.new)
           [[SP]; [LF]]); [reflexivity | reflexivity | discriminate].
Defined.
